(** * VeeR-ISS: physical memory attributes and virtual memory translation

    A shallow embedding of [PmaManager.hpp] and of [VirtMem.cpp]
    (with the declarations of [VirtMem.hpp]), and the properties of the
    translation and attribution core checked against it.

    Conventions.
    - A C++ unsigned integer of width [w] is a [Z] in [0, 2^w); every
      operation that can leave that range is followed by [wrap w].
    - A C++ [bool] is a [bool]; a bit-field read through a [bool]
      accessor is the test "field is not zero".
    - A method that mutates its object takes the object and returns the
      new one.  A method that can stop abnormally ([assert], a thrown
      [std::out_of_range], a shift the language leaves undefined) returns
      an [Outcome]. *)

From Stdlib Require Import ZArith Lia Bool List.
From stdpp Require Import base option list gmap.

Local Open Scope Z_scope.

(** ** Machine integers *)

Module Machine.

Definition wrap (w x : Z) : Z := x mod 2 ^ w.

Definition u16 := wrap 16.
Definition u32 := wrap 32.
Definition u64 := wrap 64.

(** The bit-field of [width] bits that starts at bit [lo] of [x]. *)
Definition field (lo width x : Z) : Z :=
  Z.land (Z.shiftr x lo) (Z.ones width).

(** [x] with its bit [i] set: the assignment [bits_.f_ = 1] to a
    one-bit field. *)
Definition setbit (i x : Z) : Z := Z.lor x (Z.shiftl 1 i).

End Machine.

(** ** Abnormal termination *)

(** The ways in which the embedded methods stop without returning. *)
Inductive Abnormal : Type :=
| AssertFailed        (* [assert(0)] reached *)
| OutOfRange          (* [std::out_of_range] thrown by [at] *)
| UndefinedShift.     (* shift of a 32-bit value by 32 or more *)

Inductive Outcome (A : Type) : Type :=
| Ret (a : A)
| Stop (e : Abnormal).

Arguments Ret {A} a.
Arguments Stop {A} e.

#[global] Instance Outcome_ret : MRet Outcome := fun A a => Ret a.

#[global] Instance Outcome_bind : MBind Outcome := fun A B k m =>
  match m with
  | Ret a => k a
  | Stop e => Stop e
  end.

Definition returns {A : Type} (m : Outcome A) : Prop := exists a, m = Ret a.

(** ** Physical memory attributes ([PmaManager.hpp]) *)

Module Pma.

(** [enum Attrib]. *)
Definition None_ : Z := 0.
Definition Exec : Z := 1.
Definition Read : Z := 2.
Definition Write : Z := 4.
Definition Idempotent : Z := 8.
Definition Atomic : Z := 16.
Definition Iccm : Z := 32.
Definition Dccm : Z := 64.
Definition MemMapped : Z := 128.
Definition Cached : Z := 256.
Definition Aligned : Z := 1024.
Definition ReadWrite : Z := Z.lor Read Write.
Definition Mapped : Z := Z.lor (Z.lor Exec Read) Write.
Definition Default : Z := Z.lor (Z.lor Mapped Idempotent) Atomic.

(** [class Pma]: [uint16_t attrib_] and [bool word_]. *)
Record t : Type := mk { attrib_ : Z; word_ : bool }.

(** [Pma(Attrib a = None) : attrib_(a), word_(false)]. *)
Definition make (a : Z) : t := {| attrib_ := Machine.u16 a; word_ := false |}.

(** [Pma()]: the unmapped attribute. *)
Definition unmapped : t := make None_.

Definition has (a : Z) (p : t) : bool := negb (Z.land (attrib_ p) a =? 0).

Definition isMapped := has Mapped.
Definition isIccm := has Iccm.
Definition isDccm := has Dccm.
Definition isMemMappedReg := has MemMapped.
Definition isIdempotent := has Idempotent.
Definition isCacheable := has Cached.
Definition isRead := has Read.
Definition isWrite := has Write.
Definition isExec := has Exec.
Definition isAligned := has Aligned.
Definition isAtomic := has Atomic.
Definition isCached := has Cached.

(** [operator==]: the attribute bits only. *)
Definition eqb (p q : t) : bool := attrib_ p =? attrib_ q.

End Pma.

Module PmaManager.

Import Machine.

Record t : Type := mk {
  pagePmas_ : list Pma.t;
  wordPmas_ : gmap Z Pma.t;
  memSize_ : Z;
  pageSize_ : Z;
  pageShift_ : Z;
  memMappedMasks_ : gmap Z Z
}.

Definition set_wordPmas (w : gmap Z Pma.t) (m : t) : t :=
  {| pagePmas_ := pagePmas_ m; wordPmas_ := w; memSize_ := memSize_ m;
     pageSize_ := pageSize_ m; pageShift_ := pageShift_ m;
     memMappedMasks_ := memMappedMasks_ m |}.

Definition set_memMappedMasks (k : gmap Z Z) (m : t) : t :=
  {| pagePmas_ := pagePmas_ m; wordPmas_ := wordPmas_ m; memSize_ := memSize_ m;
     pageSize_ := pageSize_ m; pageShift_ := pageShift_ m;
     memMappedMasks_ := k |}.

(** [getPageIx]: [addr >> pageShift_]. *)
Definition getPageIx (m : t) (addr : Z) : Z := Z.shiftr addr (pageShift_ m).

(** [std::vector::at] and [std::unordered_map::at]: checked access. *)
Definition vector_at {A : Type} (v : list A) (ix : Z) : Outcome A :=
  if ix <? Z.of_nat (length v) then
    match v !! Z.to_nat ix with
    | Some a => Ret a
    | None => Stop OutOfRange
    end
  else Stop OutOfRange.

Definition map_at {A : Type} (m : gmap Z A) (k : Z) : Outcome A :=
  match m !! k with
  | Some a => Ret a
  | None => Stop OutOfRange
  end.

(** [getPma].  The page entry is read with [operator[]] after the
    range test; the word entry with [at]. *)
Definition getPma (m : t) (addr : Z) : Outcome Pma.t :=
  let ix := getPageIx m addr in
  if Z.of_nat (length (pagePmas_ m)) <=? ix then Ret Pma.unmapped
  else
    match pagePmas_ m !! Z.to_nat ix with
    | None => Ret Pma.unmapped
    | Some pma =>
        if Pma.word_ pma then map_at (wordPmas_ m) (Z.shiftr addr 2)
        else Ret pma
    end.

(** [getPageStartAddr]. *)
Definition getPageStartAddr (m : t) (addr : Z) : Z :=
  u64 (Z.shiftl (Z.shiftr addr (pageShift_ m)) (pageShift_ m)).

(** [setMemMappedMask]. *)
Definition setMemMappedMask (m : t) (addr mask : Z) : t :=
  let addr := u64 (Z.shiftl (Z.shiftr addr 2) 2) in
  set_memMappedMasks (<[addr := u32 mask]> (memMappedMasks_ m)) m.

(** [getMemMappedMask]. *)
Definition getMemMappedMask (m : t) (addr : Z) : Z :=
  let addr := u64 (Z.shiftl (Z.shiftr addr 2) 2) in
  match memMappedMasks_ m !! addr with
  | None => 0xffffffff
  | Some mask => mask
  end.

(** The loop of [fracture]:
    [for (i = 0; i < words; ++i, wordIx++) wordPmas_[wordIx] = pma]. *)
Fixpoint fractureLoop (words : nat) (wordIx : Z) (pma : Pma.t)
    (w : gmap Z Pma.t) : gmap Z Pma.t :=
  match words with
  | O => w
  | S words' => fractureLoop words' (u64 (wordIx + 1)) pma (<[wordIx := pma]> w)
  end.

(** [fracture].  [Pma pma = pagePmas_.at(pageIx)] copies the page
    entry; [pma.word_ = true] sets the flag of the copy, and the copy
    is what the loop stores into [wordPmas_].  [pagePmas_] is not
    assigned. *)
Definition fracture (m : t) (addr : Z) : Outcome t :=
  let pageIx := getPageIx m addr in
  pma ← vector_at (pagePmas_ m) pageIx;
  if Pma.word_ pma then Ret m
  else
    let pma := {| Pma.attrib_ := Pma.attrib_ pma; Pma.word_ := true |} in
    let words := pageSize_ m / 4 in
    let wordIx := Z.shiftr (u64 (pageIx * pageSize_ m)) 2 in
    Ret (set_wordPmas (fractureLoop (Z.to_nat words) wordIx pma (wordPmas_ m)) m).

End PmaManager.

(** ** Enumerations used by the translator *)

(** The enumerators of [ExceptionCause] that [VirtMem.cpp] returns; the
    enumeration is declared in [trapEnums.hpp]. *)
Inductive ExceptionCause : Type :=
| NONE
| INST_PAGE_FAULT
| LOAD_PAGE_FAULT
| STORE_PAGE_FAULT.

(** [PrivilegeMode], declared in [trapEnums.hpp] too; [translate] tests
    for [User] and for [Supervisor]. *)
Inductive PrivilegeMode : Type := User | Supervisor | Reserved | Machine.

Definition isUser (p : PrivilegeMode) : bool :=
  match p with User => true | _ => false end.

Definition isSupervisor (p : PrivilegeMode) : bool :=
  match p with Supervisor => true | _ => false end.

(** [enum Mode { Bare = 0, Sv32 = 1, Sv39 = 8, Sv48 = 9, Sv57 = 10, Sv64 = 11 }]. *)
Inductive Mode : Type := Bare | Sv32 | Sv39 | Sv48 | Sv57 | Sv64.

(** ** Backing memory *)

(** Modelled from the spec: the Backing Memory interface of the
    translator, [read(addr, out) -> bool] and
    [write(hartId, addr, value) -> bool] for 32-bit and 64-bit values;
    class [Memory] is declared in [Memory.hpp], which is not among the
    sources.  [mem_read m bytes addr] and
    [mem_write m hart bytes addr value], where [bytes] is [sizeof] of
    the value transferred.  A read answers the value or fails; a write
    answers the new memory or fails and leaves the memory as it was. *)
Class MemoryModel (M : Type) : Type := {
  mem_read : M -> Z -> Z -> option Z;
  mem_write : M -> Z -> Z -> Z -> Z -> option M
}.

(** Modelled from the spec: a byte-addressable store, here flat,
    little-endian and [fsize] bytes long, whose accesses fail outside
    [0, fsize); the instance the concrete runs use. *)
Module FlatMemory.

Record t : Type := mk { fbytes : gmap Z Z; fsize : Z }.

Definition inRange (m : t) (bytes addr : Z) : bool :=
  (0 <=? addr) && (addr + bytes <=? fsize m).

Definition byteAt (m : t) (addr : Z) : Z := default 0 (fbytes m !! addr).

Fixpoint load (m : t) (bytes : nat) (addr : Z) : Z :=
  match bytes with
  | O => 0
  | S n => byteAt m addr + 256 * load m n (addr + 1)
  end.

Fixpoint store (b : gmap Z Z) (bytes : nat) (addr value : Z) : gmap Z Z :=
  match bytes with
  | O => b
  | S n => store (<[addr := value mod 256]> b) n (addr + 1) (value / 256)
  end.

Definition read (m : t) (bytes addr : Z) : option Z :=
  if inRange m bytes addr then Some (load m (Z.to_nat bytes) addr) else None.

Definition write (m : t) (hart bytes addr value : Z) : option t :=
  if inRange m bytes addr
  then Some {| fbytes := store (fbytes m) (Z.to_nat bytes) addr value;
               fsize := fsize m |}
  else None.

(** The memory of [size] bytes that holds [value] ([bytes] wide) at
    each listed address and zero elsewhere. *)
Definition ofWords (size bytes : Z) (ws : list (Z * Z)) : t :=
  {| fbytes := foldl (fun b aw => store b (Z.to_nat bytes) (fst aw) (snd aw)) ∅ ws;
     fsize := size |}.

End FlatMemory.

#[global] Instance FlatMemory_model : MemoryModel FlatMemory.t :=
  {| mem_read := FlatMemory.read; mem_write := FlatMemory.write |}.

(** ** Page table entries and virtual addresses ([VirtMem.hpp]) *)

(** The unions overlay a struct of bit-fields on [data_].  C++ leaves
    the allocation of bit-fields to the implementation; the layout
    taken here is that of the Itanium C++ ABI on a little-endian
    machine (GCC and Clang on x86-64): the fields are allocated in
    declaration order from bit 0, and a field does not cross a boundary
    of its declared type.  Every field is declared [unsigned], a type
    of 32 bits, so a field that does not fit what is left of the first
    32 bits starts at bit 32: [vpn2_] of [Va39Bits] and [Va48Bits]
    after 30 bits, [ppn2_] of [Pte39Bits] and [Pte48Bits] after 28
    bits.  The eight flags and [rsw_] occupy bits 0 to 9 in every
    format. *)
Module PteBits.

Import Machine.

Definition valid (d : Z) : bool := negb (field 0 1 d =? 0).
Definition read (d : Z) : bool := negb (field 1 1 d =? 0).
Definition write (d : Z) : bool := negb (field 2 1 d =? 0).
Definition exec (d : Z) : bool := negb (field 3 1 d =? 0).
Definition user (d : Z) : bool := negb (field 4 1 d =? 0).
(** [global()] is called by [pageTableWalk]; the unions declare the
    field [global_] it reads. *)
Definition global (d : Z) : bool := negb (field 5 1 d =? 0).
Definition accessed (d : Z) : bool := negb (field 6 1 d =? 0).
Definition dirty (d : Z) : bool := negb (field 7 1 d =? 0).

(** [bits_.accessed_ = 1] and [bits_.dirty_ = 1]. *)
Definition set_accessed (d : Z) : Z := setbit 6 d.
Definition set_dirty (d : Z) : Z := setbit 7 d.

End PteBits.

(** What [pageTableWalk] asks of its [PTE] template argument. *)
Class PTE : Type := {
  pte_make : Z -> Z;            (* the constructor: conversion to [data_] *)
  levels : nat;
  size : Z;                     (* [sizeof(data_)] *)
  ppn : Z -> Z;                 (* [ppn()] *)
  ppnAt : Z -> Z -> Outcome Z;  (* [ppn(int i)] *)
  paPpnShift : Z -> Outcome Z
}.

(** What [pageTableWalk] asks of its [VA] template argument. *)
Class VA : Type := {
  va_make : Z -> Z;
  offset : Z -> Z;
  vpn : Z -> Z -> Outcome Z     (* [vpn(int i)] *)
}.

Module Pte32.
Import Machine.
Definition ppn0 (d : Z) : Z := field 10 10 d.
Definition ppn1 (d : Z) : Z := field 20 12 d.
Definition ppn (d : Z) : Z := Z.lor (ppn0 d) (u32 (Z.shiftl (ppn1 d) 10)).
Definition ppnAt (d i : Z) : Outcome Z :=
  if i =? 0 then Ret (ppn0 d)
  else if i =? 1 then Ret (ppn1 d)
  else Stop AssertFailed.
Definition paPpnShift (i : Z) : Outcome Z :=
  if i =? 0 then Ret 12
  else if i =? 1 then Ret 22
  else Stop AssertFailed.
End Pte32.

Definition Pte32_PTE : PTE :=
  {| pte_make := Machine.u32; levels := 2; size := 4;
     ppn := Pte32.ppn; ppnAt := Pte32.ppnAt; paPpnShift := Pte32.paPpnShift |}.

Module Pte39.
Import Machine.
Definition ppn0 (d : Z) : Z := field 10 9 d.
Definition ppn1 (d : Z) : Z := field 19 9 d.
(** [ppn2_], 26 bits wide, does not fit bits 28 to 31. *)
Definition ppn2 (d : Z) : Z := field 32 26 d.
Definition ppn (d : Z) : Z :=
  Z.lor (Z.lor (ppn0 d) (u32 (Z.shiftl (ppn1 d) 9))) (u32 (Z.shiftl (ppn2 d) 18)).
Definition ppnAt (d i : Z) : Outcome Z :=
  if i =? 0 then Ret (ppn0 d)
  else if i =? 1 then Ret (ppn1 d)
  else if i =? 2 then Ret (ppn2 d)
  else Stop AssertFailed.
Definition paPpnShift (i : Z) : Outcome Z :=
  if i =? 0 then Ret 12
  else if i =? 1 then Ret 21
  else if i =? 2 then Ret 30
  else Stop AssertFailed.
End Pte39.

Definition Pte39_PTE : PTE :=
  {| pte_make := Machine.u64; levels := 3; size := 8;
     ppn := Pte39.ppn; ppnAt := Pte39.ppnAt; paPpnShift := Pte39.paPpnShift |}.

Module Pte48.
Import Machine.
Definition ppn0 (d : Z) : Z := field 10 9 d.
Definition ppn1 (d : Z) : Z := field 19 9 d.
(** [ppn2_], 9 bits wide, does not fit bits 28 to 31; [ppn3_]
    follows it. *)
Definition ppn2 (d : Z) : Z := field 32 9 d.
Definition ppn3 (d : Z) : Z := field 41 17 d.
Definition ppn (d : Z) : Z :=
  Z.lor (Z.lor (Z.lor (ppn0 d) (u32 (Z.shiftl (ppn1 d) 9)))
               (u32 (Z.shiftl (ppn2 d) 18)))
        (u32 (Z.shiftl (ppn3 d) 27)).
Definition ppnAt (d i : Z) : Outcome Z :=
  if i =? 0 then Ret (ppn0 d)
  else if i =? 1 then Ret (ppn1 d)
  else if i =? 2 then Ret (ppn2 d)
  else if i =? 3 then Ret (ppn3 d)
  else Stop AssertFailed.
Definition paPpnShift (i : Z) : Outcome Z :=
  if i =? 0 then Ret 12
  else if i =? 1 then Ret 21
  else if i =? 2 then Ret 30
  else if i =? 3 then Ret 39
  else Stop AssertFailed.
End Pte48.

Definition Pte48_PTE : PTE :=
  {| pte_make := Machine.u64; levels := 4; size := 8;
     ppn := Pte48.ppn; ppnAt := Pte48.ppnAt; paPpnShift := Pte48.paPpnShift |}.

Module Va32.
Import Machine.
Definition offset (d : Z) : Z := field 0 12 d.
Definition vpn0 (d : Z) : Z := field 12 10 d.
Definition vpn1 (d : Z) : Z := field 22 10 d.
Definition vpn (d i : Z) : Outcome Z :=
  if i =? 0 then Ret (vpn0 d)
  else if i =? 1 then Ret (vpn1 d)
  else Stop AssertFailed.
End Va32.

Definition Va32_VA : VA :=
  {| va_make := Machine.u32; offset := Va32.offset; vpn := Va32.vpn |}.

Module Va39.
Import Machine.
Definition offset (d : Z) : Z := field 0 12 d.
Definition vpn0 (d : Z) : Z := field 12 9 d.
Definition vpn1 (d : Z) : Z := field 21 9 d.
(** [vpn2_], 9 bits wide, does not fit bits 30 and 31. *)
Definition vpn2 (d : Z) : Z := field 32 9 d.
Definition vpn (d i : Z) : Outcome Z :=
  if i =? 0 then Ret (vpn0 d)
  else if i =? 1 then Ret (vpn1 d)
  else if i =? 2 then Ret (vpn2 d)
  else Stop AssertFailed.
End Va39.

Definition Va39_VA : VA :=
  {| va_make := Machine.u64; offset := Va39.offset; vpn := Va39.vpn |}.

Module Va48.
Import Machine.
(** [struct Va48Bits]: the declared fields.  [vpn2_], 9 bits wide,
    does not fit bits 30 and 31; [vpn3_] follows it. *)
Definition offset_ (d : Z) : Z := field 0 12 d.
Definition vpn0_ (d : Z) : Z := field 12 9 d.
Definition vpn1_ (d : Z) : Z := field 21 9 d.
Definition vpn2_ (d : Z) : Z := field 32 9 d.
Definition vpn3_ (d : Z) : Z := field 41 9 d.
(** [union Va48]: the accessors.  [vpn3()] is written
    [return bits_.vpn2_]. *)
Definition offset (d : Z) : Z := offset_ d.
Definition vpn0 (d : Z) : Z := vpn0_ d.
Definition vpn1 (d : Z) : Z := vpn1_ d.
Definition vpn2 (d : Z) : Z := vpn2_ d.
Definition vpn3 (d : Z) : Z := vpn2_ d.
Definition vpn (d i : Z) : Outcome Z :=
  if i =? 0 then Ret (vpn0 d)
  else if i =? 1 then Ret (vpn1 d)
  else if i =? 2 then Ret (vpn2 d)
  else if i =? 3 then Ret (vpn3 d)
  else Stop AssertFailed.
End Va48.

Definition Va48_VA : VA :=
  {| va_make := Machine.u64; offset := Va48.offset; vpn := Va48.vpn |}.

(** ** The translation lookaside buffer *)

Module TlbEntry.

(** Modelled from the spec: the TLB entry of the data model, with the
    fields [translate] reads and [pageTableWalk] assigns.  The struct
    is declared in [Tlb.hpp], which is not among the sources; the
    [TlbEntry] in the copy of [VirtMem.hpp] has no user, global,
    accessed and dirty flags. *)
Record t : Type := mk {
  virtPageNum_ : Z;
  physPageNum_ : Z;
  time_ : Z;
  asid_ : Z;
  valid_ : bool;
  global_ : bool;
  user_ : bool;
  read_ : bool;
  write_ : bool;
  exec_ : bool;
  accessed_ : bool;
  dirty_ : bool
}.

(** A default-initialised [TlbEntry]. *)
Definition default : t :=
  {| virtPageNum_ := 0; physPageNum_ := 0; time_ := 0; asid_ := 0;
     valid_ := false; global_ := false; user_ := false; read_ := false;
     write_ := false; exec_ := false; accessed_ := false; dirty_ := false |}.

Definition set_time (x : Z) (e : t) : t :=
  {| virtPageNum_ := virtPageNum_ e; physPageNum_ := physPageNum_ e; time_ := x;
     asid_ := asid_ e; valid_ := valid_ e; global_ := global_ e; user_ := user_ e;
     read_ := read_ e; write_ := write_ e; exec_ := exec_ e;
     accessed_ := accessed_ e; dirty_ := dirty_ e |}.

Definition set_accessed (a : bool) (e : t) : t :=
  {| virtPageNum_ := virtPageNum_ e; physPageNum_ := physPageNum_ e;
     time_ := time_ e; asid_ := asid_ e; valid_ := valid_ e; global_ := global_ e;
     user_ := user_ e; read_ := read_ e; write_ := write_ e; exec_ := exec_ e;
     accessed_ := a; dirty_ := dirty_ e |}.

Definition set_dirty (d : bool) (e : t) : t :=
  {| virtPageNum_ := virtPageNum_ e; physPageNum_ := physPageNum_ e;
     time_ := time_ e; asid_ := asid_ e; valid_ := valid_ e; global_ := global_ e;
     user_ := user_ e; read_ := read_ e; write_ := write_ e; exec_ := exec_ e;
     accessed_ := accessed_ e; dirty_ := d |}.

End TlbEntry.

Module Tlb.

Import Machine TlbEntry.

(** Modelled from the spec: class [Tlb] ([Tlb.hpp] is not among the
    sources): a table of fixed capacity; [findEntry] answers the first
    valid entry whose page number matches and whose address space
    matches or which is global, stamping it as used; [insertEntry]
    takes the first invalid slot, else the slot used least recently. *)
Record t : Type := mk { entries_ : list TlbEntry.t; clock_ : Z }.

(** Modelled from the spec: [Tlb(size)], a table of [size] invalid
    entries. *)
Definition make (size : nat) : t :=
  {| entries_ := replicate size TlbEntry.default; clock_ := 0 |}.

(** Modelled from the spec: an entry answers a probe when it is valid,
    its page number matches, and its address space matches or it is
    global. *)
Definition matches (pageNum asid : Z) (e : TlbEntry.t) : bool :=
  valid_ e && (virtPageNum_ e =? pageNum) && (global_ e || (asid_ e =? asid)).

(** Modelled from the spec: the position of the first entry that
    answers the probe. *)
Fixpoint findIndex (pageNum asid : Z) (es : list TlbEntry.t) : option nat :=
  match es with
  | [] => None
  | e :: es' =>
      if matches pageNum asid e then Some O
      else S <$> findIndex pageNum asid es'
  end.

(** Modelled from the spec: [find(vpn, asid)]; the handle is the index
    of the entry in the table. *)
Definition findEntry (tlb : t) (pageNum asid : Z) : option (nat * TlbEntry.t) * t :=
  match findIndex pageNum asid (entries_ tlb) with
  | None => (None, tlb)
  | Some i =>
      match entries_ tlb !! i with
      | None => (None, tlb)
      | Some e =>
          let e' := set_time (clock_ tlb) e in
          (Some (i, e'),
           {| entries_ := <[i := e']> (entries_ tlb);
              clock_ := u64 (clock_ tlb + 1) |})
      end
  end.

(** Modelled from the spec: the store through the mutable handle that
    [findEntry] answered. *)
Definition update (tlb : t) (i : nat) (e : TlbEntry.t) : t :=
  {| entries_ := <[i := e]> (entries_ tlb); clock_ := clock_ tlb |}.

(** Modelled from the spec: the first free slot. *)
Fixpoint firstInvalid (es : list TlbEntry.t) : option nat :=
  match es with
  | [] => None
  | e :: es' => if valid_ e then S <$> firstInvalid es' else Some O
  end.

(** Modelled from the spec: the index of the entry with the least time
    stamp, the first on ties; [i] is the index of the head of [es]. *)
Fixpoint oldestFrom (i : nat) (es : list TlbEntry.t) (best : nat) (bestTime : Z) : nat :=
  match es with
  | [] => best
  | e :: es' =>
      if time_ e <? bestTime then oldestFrom (S i) es' i (time_ e)
      else oldestFrom (S i) es' best bestTime
  end.

(** Modelled from the spec: the slot an insertion takes; none in a
    table of capacity 0. *)
Definition victim (es : list TlbEntry.t) : option nat :=
  match firstInvalid es with
  | Some i => Some i
  | None =>
      match es with
      | [] => None
      | e :: es' => Some (oldestFrom 1 es' 0%nat (time_ e))
      end
  end.

(** Modelled from the spec: [insert(entry)]. *)
Definition insertEntry (tlb : t) (e : TlbEntry.t) : t :=
  match victim (entries_ tlb) with
  | None => tlb
  | Some i =>
      {| entries_ := <[i := set_time (clock_ tlb) e]> (entries_ tlb);
         clock_ := u64 (clock_ tlb + 1) |}
  end.

End Tlb.

(** ** The translator ([VirtMem.cpp]) *)

Module VirtMem.

Import Machine.

(** [class VirtMem].  [memory_] is a reference to the memory the
    translator reads page tables from and writes them back to; the
    record carries the referenced store.  [pageSize_] and [pageBits_]
    are [unsigned], the other integers 64 bits wide.  The members
    [pageTableRootPage_] and [tlb_] are the ones [VirtMem.cpp] names;
    the copy of [VirtMem.hpp] among the sources still declares
    [pageTableRoot_] and [tlbEntries_]. *)
Record t (M : Type) : Type := mk {
  memory_ : M;
  pageTableRootPage_ : Z;
  mode_ : Mode;
  asid_ : Z;
  pageSize_ : Z;
  pageBits_ : Z;
  pageMask_ : Z;
  hartIx_ : Z;
  execReadable_ : bool;
  supervisorOk_ : bool;
  faultOnFirstAccess_ : bool;
  tlb_ : Tlb.t
}.

Arguments mk {M}.
Arguments memory_ {M}.
Arguments pageTableRootPage_ {M}.
Arguments mode_ {M}.
Arguments asid_ {M}.
Arguments pageSize_ {M}.
Arguments pageBits_ {M}.
Arguments pageMask_ {M}.
Arguments hartIx_ {M}.
Arguments execReadable_ {M}.
Arguments supervisorOk_ {M}.
Arguments faultOnFirstAccess_ {M}.
Arguments tlb_ {M}.

Section Translator.

Context {M : Type} `{MemoryModel M}.

Definition set_memory (m : M) (s : t M) : t M :=
  mk m (pageTableRootPage_ s) (mode_ s) (asid_ s) (pageSize_ s) (pageBits_ s)
     (pageMask_ s) (hartIx_ s) (execReadable_ s) (supervisorOk_ s)
     (faultOnFirstAccess_ s) (tlb_ s).

Definition set_tlb (tlb : Tlb.t) (s : t M) : t M :=
  mk (memory_ s) (pageTableRootPage_ s) (mode_ s) (asid_ s) (pageSize_ s)
     (pageBits_ s) (pageMask_ s) (hartIx_ s) (execReadable_ s) (supervisorOk_ s)
     (faultOnFirstAccess_ s) tlb.

Definition set_page (size bits : Z) (s : t M) : t M :=
  mk (memory_ s) (pageTableRootPage_ s) (mode_ s) (asid_ s) size bits
     (pageMask_ s) (hartIx_ s) (execReadable_ s) (supervisorOk_ s)
     (faultOnFirstAccess_ s) (tlb_ s).

(** [setMode], [setPageTableRoot], [setAddressSpace],
    [setExecReadable], [setSupervisorAccessUser]. *)
Definition setMode (s : t M) (m : Mode) : t M :=
  mk (memory_ s) (pageTableRootPage_ s) m (asid_ s) (pageSize_ s) (pageBits_ s)
     (pageMask_ s) (hartIx_ s) (execReadable_ s) (supervisorOk_ s)
     (faultOnFirstAccess_ s) (tlb_ s).

Definition setPageTableRoot (s : t M) (root : Z) : t M :=
  mk (memory_ s) root (mode_ s) (asid_ s) (pageSize_ s) (pageBits_ s)
     (pageMask_ s) (hartIx_ s) (execReadable_ s) (supervisorOk_ s)
     (faultOnFirstAccess_ s) (tlb_ s).

Definition setAddressSpace (s : t M) (asid : Z) : t M :=
  mk (memory_ s) (pageTableRootPage_ s) (mode_ s) asid (pageSize_ s) (pageBits_ s)
     (pageMask_ s) (hartIx_ s) (execReadable_ s) (supervisorOk_ s)
     (faultOnFirstAccess_ s) (tlb_ s).

Definition setExecReadable (s : t M) (flag : bool) : t M :=
  mk (memory_ s) (pageTableRootPage_ s) (mode_ s) (asid_ s) (pageSize_ s)
     (pageBits_ s) (pageMask_ s) (hartIx_ s) flag (supervisorOk_ s)
     (faultOnFirstAccess_ s) (tlb_ s).

Definition setSupervisorAccessUser (s : t M) (flag : bool) : t M :=
  mk (memory_ s) (pageTableRootPage_ s) (mode_ s) (asid_ s) (pageSize_ s)
     (pageBits_ s) (pageMask_ s) (hartIx_ s) (execReadable_ s) flag
     (faultOnFirstAccess_ s) (tlb_ s).

(** The constructor: [mode_(Sv32)], the page geometry from
    [pageSize], the other members at their declared defaults. *)
Definition make (hartIx : Z) (memory : M) (pageSize : Z) (tlbSize : nat)
    : Outcome (t M) :=
  let pageBits := Z.log2 pageSize in
  let p2PageSize := u32 (Z.shiftl 1 pageBits) in
  if negb (p2PageSize =? pageSize) then Stop AssertFailed
  else if negb (64 <=? pageSize) then Stop AssertFailed
  else Ret (mk memory 0 Sv32 0 pageSize pageBits (pageSize - 1) hartIx
               false false false (Tlb.make tlbSize)).

(** [pageFaultType]. *)
Definition pageFaultType (read write exec : bool) : Outcome ExceptionCause :=
  if exec then Ret INST_PAGE_FAULT
  else if read then Ret LOAD_PAGE_FAULT
  else if write then Ret STORE_PAGE_FAULT
  else Stop AssertFailed.

(** [x << n] on [uint32_t] operands: the result is a [uint32_t];
    C++ leaves the shift undefined when [n] is 32 or more. *)
Definition shl32 (x n : Z) : Outcome Z :=
  if n <? 32 then Ret (u32 (Z.shiftl x n)) else Stop UndefinedShift.

Section Walk.

Context (P : PTE) (V : VA).

(** How the [while (true)] loop of [pageTableWalk] is left:
    by a [return], or by [break] with the leaf in [pte] and its
    level in [ii]. *)
Inductive LoopExit : Type :=
| Returned (c : ExceptionCause)
| Leaf (pte : Z) (ii : nat).

Definition returnFault (read write exec : bool) : Outcome LoopExit :=
  c ← pageFaultType read write exec; Ret (Returned c).

(** Steps 3 to 5.  [ii] counts down from [levels - 1]; the source
    decrements it and returns when it has become negative, which is
    the case [O] below.  The address computed here is the [pteAddr]
    declared inside the loop body. *)
Fixpoint walkLoop (s : t M) (va : Z) (read write exec : bool)
    (ii : nat) (root : Z) : Outcome LoopExit :=
  vpn_ ← vpn va (Z.of_nat ii);
  let pteAddr := u64 (root + u32 (vpn_ * size)) in
  match mem_read (memory_ s) size pteAddr with
  | None => returnFault read write exec
  | Some data =>
      let pte := pte_make data in
      if negb (PteBits.valid pte) || (negb (PteBits.read pte) && PteBits.write pte)
      then returnFault read write exec
      else if negb (PteBits.read pte) && negb (PteBits.exec pte) then
        match ii with
        | O => returnFault read write exec
        | S ii' => walkLoop s va read write exec ii' (u32 (ppn pte * pageSize_ s))
        end
      else Ret (Leaf pte ii)
  end.

(** Step 7: [for (j = 0; j < ii; ++j) if (pte.ppn(j) != 0) return ...];
    [false] stands for the [return]. *)
Fixpoint lowPpnsZero (pte : Z) (js : list nat) : Outcome bool :=
  match js with
  | [] => Ret true
  | j :: js' =>
      p ← ppnAt pte (Z.of_nat j);
      if negb (p =? 0) then Ret false else lowPpnsZero pte js'
  end.

(** Step 9, first loop: [pa = pa | (va.vpn(j) << pte.paPpnShift(j))]. *)
Fixpoint copyVpns (va pa : Z) (js : list nat) : Outcome Z :=
  match js with
  | [] => Ret pa
  | j :: js' =>
      v ← vpn va (Z.of_nat j);
      sh ← paPpnShift (Z.of_nat j);
      x ← shl32 v sh;
      copyVpns va (Z.lor pa x) js'
  end.

(** Step 9, second loop: [pa = pa | pte.ppn(j) << pte.paPpnShift(j)]. *)
Fixpoint copyPpns (pte pa : Z) (js : list nat) : Outcome Z :=
  match js with
  | [] => Ret pa
  | j :: js' =>
      p ← ppnAt pte (Z.of_nat j);
      sh ← paPpnShift (Z.of_nat j);
      x ← shl32 p sh;
      copyPpns pte (Z.lor pa x) js'
  end.

(** Step 8.  The address handed to [memory_.write] is the
    [pteAddr] declared before the loop, which is initialised to 0
    and never assigned: the loop body declares a [pteAddr] of its
    own.  The result is the entry as updated and the memory, or
    [None] for the [return] of a page fault. *)
Definition updateAccessedDirty (s : t M) (write : bool) (pte : Z)
    : option (Z * M) :=
  let pteAddr := 0 in
  if negb (PteBits.accessed pte) || (write && negb (PteBits.dirty pte)) then
    if faultOnFirstAccess_ s then None
    else
      let pte := PteBits.set_accessed pte in
      let pte := if write then PteBits.set_dirty pte else pte in
      match mem_write (memory_ s) (hartIx_ s) size pteAddr pte with
      | None => None
      | Some m => Some (pte, m)
      end
  else Some (pte, memory_ s).

(** The [TlbEntry] filled in at the end of [pageTableWalk]; the
    fields not assigned keep the values of [e]. *)
Definition fillTlbEntry (s : t M) (address pa pte : Z) (e : TlbEntry.t)
    : TlbEntry.t :=
  {| TlbEntry.virtPageNum_ := Z.shiftr address (pageBits_ s);
     TlbEntry.physPageNum_ := Z.shiftr pa (pageBits_ s);
     TlbEntry.time_ := TlbEntry.time_ e;
     TlbEntry.asid_ := u32 (asid_ s);
     TlbEntry.valid_ := true;
     TlbEntry.global_ := PteBits.global pte;
     TlbEntry.user_ := PteBits.user pte;
     TlbEntry.read_ := PteBits.read pte;
     TlbEntry.write_ := PteBits.write pte;
     TlbEntry.exec_ := PteBits.exec pte;
     TlbEntry.accessed_ := PteBits.accessed pte;
     TlbEntry.dirty_ := PteBits.dirty pte |}.

(** Steps 6 to 9 on the leaf [pte] found at level [ii]. *)
Definition leafSteps (s : t M) (address : Z) (privMode : PrivilegeMode)
    (read write exec : bool) (pa : Z) (tlbEntry : TlbEntry.t)
    (pte : Z) (ii : nat)
    : Outcome (ExceptionCause * Z * TlbEntry.t * M) :=
  let va := va_make address in
  let fault :=
    c ← pageFaultType read write exec; Ret (c, pa, tlbEntry, memory_ s) in
  if isUser privMode && negb (PteBits.user pte) then fault
  else if isSupervisor privMode && PteBits.user pte && negb (supervisorOk_ s)
  then fault
  else
    let pteRead := PteBits.read pte || (execReadable_ s && PteBits.exec pte) in
    if (read && negb pteRead) || (write && negb (PteBits.write pte))
       || (exec && PteBits.exec pte)
    then fault
    else
      aligned ← lowPpnsZero pte (seq 0 ii);
      if negb aligned then fault
      else
        match updateAccessedDirty s write pte with
        | None => c ← pageFaultType read write exec; Ret (c, pa, tlbEntry, memory_ s)
        | Some (pte, m) =>
            pa ← copyVpns va (offset va) (seq 0 ii);
            pa ← copyPpns pte pa (seq ii (levels - ii));
            Ret (NONE, pa, fillTlbEntry s address pa pte tlbEntry, m)
        end.

(** [pageTableWalk<PTE, VA>]: the cause, the out-parameters [pa]
    and [tlbEntry], and the memory. *)
Definition pageTableWalk (s : t M) (address : Z) (privMode : PrivilegeMode)
    (read write exec : bool) (pa : Z) (tlbEntry : TlbEntry.t)
    : Outcome (ExceptionCause * Z * TlbEntry.t * M) :=
  let va := va_make address in
  let root := u64 (pageTableRootPage_ s * pageSize_ s) in
  exit ← walkLoop s va read write exec (levels - 1) root;
  match exit with
  | Returned c => Ret (c, pa, tlbEntry, memory_ s)
  | Leaf pte ii => leafSteps s address privMode read write exec pa tlbEntry pte ii
  end.

End Walk.

(** The branch of [translate] that uses the entry found in the TLB:
    the cause, [pa], and the entry as the stores through the pointer
    leave it. *)
Definition useTlbEntry (s : t M) (entry : TlbEntry.t) (va : Z)
    (priv : PrivilegeMode) (read write exec : bool) (pa : Z)
    : Outcome (ExceptionCause * Z * TlbEntry.t) :=
  let fault := c ← pageFaultType read write exec; Ret (c, pa, entry) in
  let done (entry : TlbEntry.t) :=
    Ret (NONE,
         Z.lor (u64 (Z.shiftl (TlbEntry.physPageNum_ entry) (pageBits_ s)))
               (Z.land va (pageMask_ s)),
         entry) in
  if isUser priv && negb (TlbEntry.user_ entry) then fault
  else if isSupervisor priv && TlbEntry.user_ entry && negb (supervisorOk_ s)
  then fault
  else
    let entryRead :=
      TlbEntry.read_ entry || (execReadable_ s && TlbEntry.exec_ entry) in
    if (read && negb entryRead) || (write && negb (TlbEntry.write_ entry))
       || (exec && negb (TlbEntry.exec_ entry))
    then fault
    else if negb (TlbEntry.accessed_ entry)
            || (write && negb (TlbEntry.dirty_ entry)) then
      if faultOnFirstAccess_ s then fault
      else
        let entry := TlbEntry.set_accessed true entry in
        let entry := if write then TlbEntry.set_dirty true entry else entry in
        done entry
    else done entry.

(** The end of [translate]: a successful walk is cached. *)
Definition cacheWalk (s : t M)
    (r : Outcome (ExceptionCause * Z * TlbEntry.t * M))
    : Outcome (ExceptionCause * Z * t M) :=
  '(cause, pa, tmpTlbEntry, m) ← r;
  let s := set_memory m s in
  match cause with
  | NONE => Ret (cause, pa, set_tlb (Tlb.insertEntry (tlb_ s) tmpTlbEntry) s)
  | _ => Ret (cause, pa, s)
  end.

(** [translate]: the cause returned, the out-parameter [pa], and the
    translator with its memory afterwards. *)
Definition translate (s : t M) (va : Z) (priv : PrivilegeMode)
    (read write exec : bool) (pa : Z) : Outcome (ExceptionCause * Z * t M) :=
  match mode_ s with
  | Bare => Ret (NONE, va, s)
  | mode =>
      let virPageNum := Z.shiftr va (pageBits_ s) in
      match Tlb.findEntry (tlb_ s) virPageNum (asid_ s) with
      | (Some (i, entry), tlb) =>
          '(cause, pa, entry) ← useTlbEntry s entry va priv read write exec pa;
          Ret (cause, pa, set_tlb (Tlb.update tlb i entry) s)
      | (None, tlb) =>
          let s := set_tlb tlb s in
          let fault := c ← pageFaultType read write exec; Ret (c, pa, s) in
          let tmpTlbEntry := TlbEntry.default in
          match mode with
          | Sv32 =>
              cacheWalk s (pageTableWalk Pte32_PTE Va32_VA s va priv
                             read write exec pa tmpTlbEntry)
          | Sv39 =>
              let mask := Z.land (Z.shiftr va 38) 1 in
              let mask := if negb (mask =? 0) then 0x1ffffff else mask in
              if negb (Z.shiftr va 39 =? mask) then fault
              else cacheWalk s (pageTableWalk Pte39_PTE Va39_VA s va priv
                                  read write exec pa tmpTlbEntry)
          | Sv48 =>
              let mask := Z.land (Z.shiftr va 47) 1 in
              let mask := if negb (mask =? 0) then 0xffff else mask in
              if negb (Z.shiftr va 48 =? mask) then fault
              else cacheWalk s (pageTableWalk Pte48_PTE Va48_VA s va priv
                                  read write exec pa tmpTlbEntry)
          | _ => Stop AssertFailed
          end
      end
  end.

(** [setPageSize]: the translator as the call leaves it, and what
    the call returns.  [bits] is computed from the member
    [pageSize_]. *)
Definition setPageSize (s : t M) (size : Z) : t M * Outcome bool :=
  if size =? 0 then (s, Ret false)
  else
    let bits := Z.log2 (pageSize_ s) in
    let p2Size := u64 (Z.shiftl 1 bits) in
    if negb (size =? p2Size) then (s, Ret false)
    else
      match mode_ s with
      | Sv32 =>
          if negb (size =? 4096) then (s, Ret false)
          else (set_page (u32 size) bits s, Ret true)
      | Sv39 =>
          if negb (size =? 4096) && negb (size =? 2 * 1024 * 1024)
             && negb (size =? 1024 * 1024 * 1024)
          then (s, Ret false)
          else (set_page (u32 size) bits s, Ret true)
      | Sv48 =>
          if negb (size =? 4096) && negb (size =? 2 * 1024 * 1024)
             && negb (size =? 1024 * 1024 * 1024)
             && negb (size =? 512 * 1024 * 1024 * 1024)
          then (s, Ret false)
          else (set_page (u32 size) bits s, Stop AssertFailed)
      | _ => (s, Stop AssertFailed)
      end.

End Translator.

End VirtMem.

(** ** Reset of the memory-mapped registers ([PmaManager.hpp]) *)

Module MemMappedReset.

Import PmaManager.

(** [*reinterpret_cast<uint32_t*>(data + addr) = 0] on a buffer of
    [length data] bytes: the four bytes from [addr] become 0.  A store
    that does not fit the buffer is undefined; it answers [None]. *)
Definition zeroWord (addr : Z) (data : list Z) : option (list Z) :=
  if (0 <=? addr) && (addr + 4 <=? Z.of_nat (length data)) then
    let i := Z.to_nat addr in
    Some (<[S (S (S i)) := 0]> (<[S (S i) := 0]> (<[S i := 0]> (<[i := 0]> data))))
  else None.

(** [resetMemMapped]: one store per key of [memMappedMasks_], in the
    order the map yields its keys. *)
Definition resetMemMapped (m : PmaManager.t) (data : list Z) : option (list Z) :=
  map_fold (fun addr _ acc => d ← acc; zeroWord addr d) (Some data)
           (memMappedMasks_ m).

End MemMappedReset.

(** ** The vector register file ([VecRegs.hpp]) *)

Module VecRegs.

Import Machine.

(** [enum class GroupMultiplier : uint32_t] and its values. *)
Inductive GroupMultiplier : Type :=
| One | Two | Four | Eight | Reserved | Eighth | Quarter | Half.

Definition groupValue (g : GroupMultiplier) : Z :=
  match g with
  | One => 0 | Two => 1 | Four => 2 | Eight => 3
  | Reserved => 4 | Eighth => 5 | Quarter => 6 | Half => 7
  end.

(** [enum class ElementWidth : uint32_t] and its values. *)
Inductive ElementWidth : Type :=
| Byte | HalfWord | Word | DoubleWord | QuadWord | OctWord | HalfKbits | Kbits.

Definition widthValue (w : ElementWidth) : Z :=
  match w with
  | Byte => 0 | HalfWord => 1 | Word => 2 | DoubleWord => 3
  | QuadWord => 4 | OctWord => 5 | HalfKbits => 6 | Kbits => 7
  end.

(** [class VecRegs].  [data_] points to the bytes of the register
    file; the record carries the array pointed to.  [lastWrittenReg_]
    is an [int], the other integers are [unsigned]. *)
Record t : Type := mk {
  regCount_ : Z;
  bytesPerReg_ : Z;
  bytesPerElem_ : Z;
  bytesInRegFile_ : Z;
  data_ : list Z;
  group_ : GroupMultiplier;
  sew_ : ElementWidth;
  start_ : Z;
  elems_ : Z;
  vill_ : bool;
  groupX8_ : Z;
  sewInBits_ : Z;
  legalConfigs_ : list (list bool);
  lastWrittenReg_ : Z;
  lastElemWidth_ : Z;
  lastElemIx_ : Z
}.

Definition set_data (d : list Z) (s : t) : t :=
  mk (regCount_ s) (bytesPerReg_ s) (bytesPerElem_ s) (bytesInRegFile_ s) d
     (group_ s) (sew_ s) (start_ s) (elems_ s) (vill_ s) (groupX8_ s)
     (sewInBits_ s) (legalConfigs_ s) (lastWrittenReg_ s) (lastElemWidth_ s)
     (lastElemIx_ s).

Definition set_last (reg width ix : Z) (s : t) : t :=
  mk (regCount_ s) (bytesPerReg_ s) (bytesPerElem_ s) (bytesInRegFile_ s) (data_ s)
     (group_ s) (sew_ s) (start_ s) (elems_ s) (vill_ s) (groupX8_ s)
     (sewInBits_ s) (legalConfigs_ s) reg width ix.

(** Conversion of an [unsigned] to [int]. *)
Definition toInt (x : Z) : Z := (x + 2 ^ 31) mod 2 ^ 32 - 2 ^ 31.

(** [registerCount], [bytesPerRegister], [size], [bitsPerReg]. *)
Definition registerCount (s : t) : Z := regCount_ s.
Definition bytesPerRegister (s : t) : Z := bytesPerReg_ s.
Definition size (s : t) : Z := regCount_ s.
Definition bitsPerReg (s : t) : Z := u32 (8 * bytesPerReg_ s).

(** An element of [bytes] bytes of the array, at byte offset [off],
    as the little-endian host reads it through a [T*]; an access that
    leaves the array is undefined and answers [None]. *)
Fixpoint loadElem (data : list Z) (off bytes : nat) : option Z :=
  match bytes with
  | O => Some 0
  | S n =>
      b ← data !! off;
      rest ← loadElem data (S off) n;
      Some (b + 256 * rest)
  end.

Fixpoint storeElem (data : list Z) (off bytes : nat) (value : Z) : option (list Z) :=
  match bytes with
  | O => Some data
  | S n =>
      if decide (off < length data)%nat
      then storeElem (<[off := value mod 256]> data) (S off) n (value / 256)
      else None
  end.

(** The two tests that open [read] and [write]: [true] when the
    element is refused. *)
Definition refused (s : t) (sizeofT regNum elemIx groupX8 : Z) : bool :=
  (Z.shiftr (u32 (bytesPerReg_ s * groupX8)) 3 <? u64 (u32 (elemIx + 1) * sizeofT))
  || (u32 (bytesPerReg_ s * regCount_ s)
      <? u64 (u32 (regNum * bytesPerReg_ s) + u64 (u32 (elemIx + 1) * sizeofT))).

(** Byte offset of [data[elemIx]], where [data] is
    [data_ + regNum*bytesPerReg_] seen as an array of [T]. *)
Definition elemOffset (s : t) (sizeofT regNum elemIx : Z) : Z :=
  u32 (regNum * bytesPerReg_ s) + elemIx * sizeofT.

(** [read<T>], for [sizeof(T) = sizeofT]: what is returned and the
    out-parameter [value]. *)
Definition read (s : t) (sizeofT regNum elemIx groupX8 value : Z)
    : option (bool * Z) :=
  if refused s sizeofT regNum elemIx groupX8 then Some (false, value)
  else
    v ← loadElem (data_ s) (Z.to_nat (elemOffset s sizeofT regNum elemIx))
                 (Z.to_nat sizeofT);
    Some (true, v).

(** [write<T>]: what is returned and the register file afterwards. *)
Definition write (s : t) (sizeofT regNum elemIx groupX8 value : Z)
    : option (bool * t) :=
  if refused s sizeofT regNum elemIx groupX8 then Some (false, s)
  else
    d ← storeElem (data_ s) (Z.to_nat (elemOffset s sizeofT regNum elemIx))
                  (Z.to_nat sizeofT) value;
    Some (true, set_last (toInt regNum) (u32 (sizeofT * 8)) elemIx (set_data d s)).

(** [groupNumberX8ToSymbol]: what is returned and the out-parameter. *)
Definition groupNumberX8ToSymbol (groupX8 : Z) (symbol : GroupMultiplier)
    : bool * GroupMultiplier :=
  if groupX8 =? 1 then (true, Eighth)
  else if groupX8 =? 2 then (true, Quarter)
  else if groupX8 =? 4 then (true, Half)
  else if groupX8 =? 8 then (true, One)
  else if groupX8 =? 16 then (true, Two)
  else if groupX8 =? 32 then (true, Four)
  else if groupX8 =? 64 then (true, Eight)
  else (false, symbol).

(** [doubleSew]. *)
Definition doubleSew (sew dsew : ElementWidth) : bool * ElementWidth :=
  match sew with
  | Byte => (true, HalfWord)
  | HalfWord => (true, Word)
  | Word => (true, DoubleWord)
  | DoubleWord => (true, QuadWord)
  | QuadWord => (true, OctWord)
  | OctWord => (true, HalfKbits)
  | HalfKbits => (true, Kbits)
  | Kbits => (false, dsew)
  end.

(** [elementWidthInBytes]. *)
Definition elementWidthInBytes (sew : ElementWidth) : Z :=
  u32 (Z.shiftl 1 (widthValue sew)).

(** The static [groupMultiplierX8(GroupMultiplier)]. *)
Definition groupMultiplierX8 (vm : GroupMultiplier) : Z :=
  if groupValue vm <? groupValue Reserved
  then u32 (8 * u32 (Z.shiftl 1 (groupValue vm)))
  else if (groupValue Reserved <? groupValue vm)
          && (groupValue vm <=? groupValue Half)
  then Z.shiftr 8 (u32 (8 - groupValue vm))
  else 0.

(** [legalConfig(ew, mul)]: both indices are tested before [at]. *)
Definition legalConfig (s : t) (ew : ElementWidth) (mul : GroupMultiplier) : bool :=
  match legalConfigs_ s !! Z.to_nat (widthValue ew) with
  | None => false
  | Some groupFlags =>
      match groupFlags !! Z.to_nat (groupValue mul) with
      | None => false
      | Some flag => flag
      end
  end.

(** [isDoubleWideLegal]. *)
Definition isDoubleWideLegal (s : t) (sew : ElementWidth) (groupX8 : Z) : bool :=
  let wideGroup := u32 (groupX8 * 2) in
  let '(ok, emul) := groupNumberX8ToSymbol wideGroup One in
  if negb ok then false
  else
    let '(ok, eew) := doubleSew sew sew in
    if negb ok then false
    else legalConfig s eew emul.

(** [clearLastWrittenReg], [setLastWrittenReg], [getLastWrittenReg]: the
    last returns the register number with the out-parameters
    [lastElemIx] and [lastElemWidth]. *)
Definition clearLastWrittenReg (s : t) : t :=
  set_last (-1) (lastElemWidth_ s) (lastElemIx_ s) s.

Definition setLastWrittenReg (s : t) (reg lastIx elemWidth : Z) : t :=
  set_last (toInt reg) elemWidth lastIx s.

Definition getLastWrittenReg (s : t) (lastElemIx lastElemWidth : Z) : Z * Z * Z :=
  if 0 <=? lastWrittenReg_ s
  then (lastWrittenReg_ s, lastElemIx_ s, lastElemWidth_ s)
  else (-1, lastElemIx, lastElemWidth).

(** [isActive]; [None] when the mask byte lies outside the array. *)
Definition isActive (s : t) (maskReg ix : Z) : option bool :=
  if regCount_ s <=? maskReg then Some false
  else
    let byteIx := Z.shiftr ix 3 in
    let bitIx := Z.land ix 7 in
    if bytesPerReg_ s <=? byteIx then Some false
    else
      b ← data_ s !! Z.to_nat (u32 (maskReg * bytesPerReg_ s) + byteIx);
      Some (negb (Z.land (Z.shiftr b bitIx) 1 =? 0)).

(** [getVecData]: the offset of the register in the array, or [None]
    for [nullptr]. *)
Definition getVecData (s : t) (vecIx : Z) : option Z :=
  if regCount_ s <=? vecIx then None
  else Some (u32 (vecIx * bytesPerReg_ s)).

(** [startIndex], [elemCount], [elemWidth], [groupMultiplier],
    [elemWidthInBits], the member [groupMultiplierX8()], and the cached
    [legalConfig()]. *)
Definition startIndex (s : t) : Z := start_ s.
Definition elemCount (s : t) : Z := elems_ s.
Definition elemWidth (s : t) : ElementWidth := sew_ s.
Definition groupMultiplier (s : t) : GroupMultiplier := group_ s.
Definition elemWidthInBits (s : t) : Z := sewInBits_ s.
Definition cachedGroupMultiplierX8 (s : t) : Z := groupX8_ s.
Definition cachedLegalConfig (s : t) : bool := negb (vill_ s).

End VecRegs.

(** * Vocabulary of the properties *)

(** The access kinds of a translation request: exactly one of the
    three flags of [translate] is set. *)
Inductive Access : Type := AccRead | AccWrite | AccExec.

Definition reads (a : Access) : bool := match a with AccRead => true | _ => false end.
Definition writes (a : Access) : bool := match a with AccWrite => true | _ => false end.
Definition execs (a : Access) : bool := match a with AccExec => true | _ => false end.

(** The page fault of an access kind, in the words of the
    specification: exec, read, write give the instruction, load, store
    page fault. *)
Definition faultOf (a : Access) : ExceptionCause :=
  match a with
  | AccExec => INST_PAGE_FAULT
  | AccRead => LOAD_PAGE_FAULT
  | AccWrite => STORE_PAGE_FAULT
  end.

Module Vocabulary.

Import Machine VirtMem.

(** The eight flags of a page table entry, read together. *)
Record flags : Type := mkFlags {
  f_valid : bool; f_read : bool; f_write : bool; f_exec : bool;
  f_user : bool; f_global : bool; f_accessed : bool; f_dirty : bool
}.

Definition flagsOf (d : Z) : flags :=
  mkFlags (PteBits.valid d) (PteBits.read d) (PteBits.write d) (PteBits.exec d)
          (PteBits.user d) (PteBits.global d) (PteBits.accessed d) (PteBits.dirty d).


(** The entry after the accessed/dirty bookkeeping of a hit. *)
Definition touched (a : Access) (entry : TlbEntry.t) : TlbEntry.t :=
  let entry := TlbEntry.set_accessed true entry in
  if writes a then TlbEntry.set_dirty true entry else entry.

(** The physical address a hit composes. *)
Definition hitPa {M : Type} (s : VirtMem.t M) (entry : TlbEntry.t) (va : Z) : Z :=
  Z.lor (u64 (Z.shiftl (TlbEntry.physPageNum_ entry) (pageBits_ s)))
        (Z.land va (pageMask_ s)).

(** What a walk may end in: a cause that is [NONE] or the fault of the
    access kind, or, when some [paPpnShift] reaches 32 ([wide]), the
    undefined shift. *)
Definition walkOk {M : Type} (wide : bool) (a : Access)
    (r : Outcome (ExceptionCause * Z * TlbEntry.t * M)) : Prop :=
  match r with
  | Ret (c, _, _, _) => c = NONE \/ c = faultOf a
  | Stop e => e = UndefinedShift /\ wide = true
  end.

(** [pa] carries the page offset of [va] and fits 32 bits. *)
Definition carriesOffset (va pa : Z) : Prop :=
  (forall n : Z, 0 <= n < 12 -> Z.testbit pa n = Z.testbit va n)
  /\ (forall n : Z, 32 <= n -> Z.testbit pa n = false).

(** The entry grants the request, in the words of the
    specification: a user request needs a user page, a supervisor
    request a page that is not a user page unless user pages are opened
    to the supervisor; a read needs R, or X when executable pages are
    readable, a write W, an instruction fetch X. *)
Definition grants {M : Type} (s : VirtMem.t M) (priv : PrivilegeMode) (a : Access)
    (e : TlbEntry.t) : bool :=
  match priv with
  | User => TlbEntry.user_ e
  | Supervisor => negb (TlbEntry.user_ e) || supervisorOk_ s
  | _ => true
  end
  && match a with
     | AccRead => TlbEntry.read_ e || (execReadable_ s && TlbEntry.exec_ e)
     | AccWrite => TlbEntry.write_ e
     | AccExec => TlbEntry.exec_ e
     end.

(** The hit requires an update of the accessed and dirty bits: the
    entry is not accessed, or the request is a write and the entry is
    not dirty. *)
Definition updateDue (a : Access) (e : TlbEntry.t) : bool :=
  negb (TlbEntry.accessed_ e) || (writes a && negb (TlbEntry.dirty_ e)).




End Vocabulary.

(** * Concrete inputs *)

Module Inputs.

Import PmaManager.

(** A manager over [pages] pages of [pageSize] bytes, every page
    carrying attribute [a] and no page fractured. *)
Definition uniform (pages : nat) (pageSize pageShift a : Z) : PmaManager.t :=
  {| pagePmas_ := replicate pages (Pma.make a);
     wordPmas_ := ∅;
     memSize_ := Z.of_nat pages * pageSize;
     pageSize_ := pageSize;
     pageShift_ := pageShift;
     memMappedMasks_ := ∅ |}.

(** A one-page manager whose page entry carries the sub-page flag and
    whose word map is empty. *)
Definition flaggedEmpty : PmaManager.t :=
  {| pagePmas_ := [ {| Pma.attrib_ := Pma.Default; Pma.word_ := true |} ];
     wordPmas_ := ∅;
     memSize_ := 4096;
     pageSize_ := 4096;
     pageShift_ := 12;
     memMappedMasks_ := ∅ |}.

(** One page of 4096 bytes with the default attribute, not fractured. *)
Definition onePage : PmaManager.t := uniform 1 4096 12 Pma.Default.

(** A memory of 64 KiB holding a two-level Sv32 table: the root table
    is page 1; its entry 2, at [0x1008], points to page 2; entry 0 of
    that table, at [0x2000], is [leaf]. *)
Definition tables (leaf : Z) : FlatMemory.t :=
  FlatMemory.ofWords 0x10000 4 [(0x1008, 0x801); (0x2000, leaf)].

(** The translator as constructed over [tables leaf] with 4 KiB pages
    and four TLB entries, its root set to page 1. *)
Definition sv32 (leaf : Z) : VirtMem.t FlatMemory.t :=
  VirtMem.mk (tables leaf) 1 Sv32 0 4096 12 0xfff 0 false false false (Tlb.make 4).

(** Leaves for physical page 3: the flags are V, R, W, X, U, A, D at
    bits 0, 1, 2, 3, 4, 6, 7. *)
Definition leafRWX : Z := 0xCDF.     (* V R W X U A D *)
Definition leafRW : Z := 0xCD7.      (* V R W   U A D *)
Definition leafFresh : Z := 0xC17.   (* V R W   U     *)

(** The cause and [pa] of a call. *)
Definition answer {M : Type} (r : Outcome (ExceptionCause * Z * VirtMem.t M))
    : Outcome (ExceptionCause * Z) :=
  '(cause, pa, _) ← r; Ret (cause, pa).


(** A translator whose TLB holds one entry, for virtual page [0x800]:
    accessed, not dirty. *)
Definition cleanEntry : TlbEntry.t :=
  TlbEntry.mk 0x800 3 0 0 true false true true true false true false.

Definition cached : VirtMem.t FlatMemory.t :=
  VirtMem.mk (tables leafRW) 1 Sv32 0 4096 12 0xfff 0 false false false
             (Tlb.mk [cleanEntry] 1).

End Inputs.

(** * Vocabulary and inputs of the further properties *)

Module MoreVocabulary.

Import Machine PmaManager.

(** Byte [i] of the buffer lies in a word whose address is a key of
    the mask map. *)
Definition inMaskedWord (masks : gmap Z Z) (i : Z) : Prop :=
  exists k : Z, is_Some (masks !! k) /\ k <= i < k + 4.

(** Every keyed word fits a buffer of [n] bytes. *)
Definition masksFit (masks : gmap Z Z) (n : nat) : Prop :=
  forall k : Z, is_Some (masks !! k) -> 0 <= k /\ k + 4 <= Z.of_nat n.

(** The register file as configured: [regCount_] registers of
    [bytesPerReg_] bytes each, fewer than [2^32] bytes in all, and
    [data_] pointing to an array of that many bytes. *)
Definition wellFormed (s : VecRegs.t) : Prop :=
  0 <= VecRegs.bytesPerReg_ s /\ 0 <= VecRegs.regCount_ s /\
  VecRegs.bytesPerReg_ s * VecRegs.regCount_ s < 2 ^ 32 /\
  Z.of_nat (length (VecRegs.data_ s)) = VecRegs.bytesPerReg_ s * VecRegs.regCount_ s.

End MoreVocabulary.

Module MoreInputs.

Import PmaManager Inputs.

(** [onePage] after [setMemMappedMask(0x102, 0x0000ffff)]. *)
Definition masked : PmaManager.t := setMemMappedMask onePage 0x102 0x0000ffff.

(** A buffer of 512 bytes, each [0xAB]. *)
Definition buffer : list Z := replicate 512 0xAB.

(** The first-level entry [0x4DF] at [0x1008]: a valid leaf with
    R, W, X, U, A, D whose low page-number field is 1, so a superpage
    that is not aligned. *)
Definition superTables : FlatMemory.t :=
  FlatMemory.ofWords 0x10000 4 [(0x1008, 0x4DF)].

Definition superpage : VirtMem.t FlatMemory.t :=
  VirtMem.mk superTables 1 Sv32 0 4096 12 0xfff 0 false false false (Tlb.make 4).

(** A four-level Sv48 table for the address [0x00800123]: entry 0 of
    the root (page 1) points to page 2, entry 0 of page 2 to page 3,
    entry 4 of page 3, at [0x3020], to page 4, and entry 0 of page 4 is
    a leaf for page 5 with V, R, W, U, A, D. *)
Definition tables48 : FlatMemory.t :=
  FlatMemory.ofWords 0x10000 8
    [(0x1000, 0x801); (0x2000, 0xC01); (0x3020, 0x1001); (0x4000, 0x14D7)].

Definition sv48 : VirtMem.t FlatMemory.t :=
  VirtMem.mk tables48 1 Sv48 0 4096 12 0xfff 0 false false false (Tlb.make 4).

(** A three-level Sv39 table for the address [0x00800123]: entry 0 of
    the root (page 1) points to page 2, entry 4 of page 2, at [0x2020],
    to page 3, and entry 0 of page 3 is a leaf for page 5 with V, R, W,
    U, A, D. *)
Definition tables39 : FlatMemory.t :=
  FlatMemory.ofWords 0x10000 8 [(0x1000, 0x801); (0x2020, 0xC01); (0x3000, 0x14D7)].

Definition sv39 : VirtMem.t FlatMemory.t :=
  VirtMem.mk tables39 1 Sv39 0 4096 12 0xfff 0 false false false (Tlb.make 4).

(** The entry that the walk of [0x00800123] caches, and the
    translator [sv39] after that walk. *)
Definition entry39 : TlbEntry.t :=
  TlbEntry.mk 0x800 5 0 0 true false true true true false true true.

Definition sv39Walked : VirtMem.t FlatMemory.t :=
  VirtMem.mk tables39 1 Sv39 0 4096 12 0xfff 0 false false false
             (Tlb.mk [entry39; TlbEntry.default; TlbEntry.default; TlbEntry.default] 1).

(** A vector register file of four registers of eight bytes, all
    zero, configured for bytes and the multiplier one; the widths up to
    [DoubleWord] are legal with every multiplier but the reserved
    one. *)
Definition legalRows : list (list bool) :=
  replicate 4 [true; true; true; true; false; true; true; true]
  ++ replicate 4 (replicate 8 false).

Definition regs : VecRegs.t :=
  VecRegs.mk 4 8 1 32 (replicate 32 0) VecRegs.One VecRegs.Byte 0 8 false 8 8
             legalRows (-1) 0 0.

End MoreInputs.

(** * Properties *)

(** ** Machine integers and flag bits *)

Module MachineFacts.

Import Machine.

Lemma wrap_range w x : 0 <= w -> 0 <= wrap w x < 2 ^ w.
Proof. intros Hw. unfold wrap. apply Z.mod_pos_bound. apply Z.pow_pos_nonneg; lia. Qed.

Lemma wrap_small w x : 0 <= x < 2 ^ w -> wrap w x = x.
Proof. intros H. unfold wrap. apply Z.mod_small; exact H. Qed.

Lemma field_range lo width x : 0 <= width -> 0 <= field lo width x < 2 ^ width.
Proof.
  intros Hw. unfold field. rewrite Z.land_ones by exact Hw.
  apply Z.mod_pos_bound. apply Z.pow_pos_nonneg; lia.
Qed.

(** A one-bit field is the bit, and [setbit] sets one bit. *)
Lemma field_bit k d : 0 <= k -> field k 1 d = Z.b2z (Z.testbit d k).
Proof.
  intros Hk. unfold field.
  rewrite Z.land_ones by lia. change (2 ^ 1) with 2.
  rewrite <- Z.bit0_mod. rewrite Z.shiftr_spec by lia. reflexivity.
Qed.

Lemma flag_testbit k d : 0 <= k -> negb (field k 1 d =? 0) = Z.testbit d k.
Proof.
  intros Hk. rewrite field_bit by exact Hk. destruct (Z.testbit d k); reflexivity.
Qed.

Lemma testbit_setbit i d n :
  0 <= i -> 0 <= n -> Z.testbit (setbit i d) n = Z.testbit d n || (i =? n).
Proof.
  intros Hi Hn. unfold setbit. rewrite Z.lor_spec, Z.shiftl_1_l.
  rewrite Z.pow2_bits_eqb by exact Hi. reflexivity.
Qed.

End MachineFacts.

Module PteFacts.

Import Machine MachineFacts PteBits Vocabulary.

Lemma flagsOf_set_accessed d :
  flagsOf (set_accessed d)
  = mkFlags (valid d) (read d) (write d) (exec d) (user d) (global d) true (dirty d).
Proof.
  unfold flagsOf, set_accessed, valid, read, write, exec, user, global, accessed, dirty.
  rewrite !flag_testbit, !testbit_setbit by lia. simpl.
  rewrite !orb_false_r, orb_true_r. reflexivity.
Qed.

Lemma flagsOf_set_dirty d :
  flagsOf (set_dirty d)
  = mkFlags (valid d) (read d) (write d) (exec d) (user d) (global d) (accessed d) true.
Proof.
  unfold flagsOf, set_dirty, valid, read, write, exec, user, global, accessed, dirty.
  rewrite !flag_testbit, !testbit_setbit by lia. simpl.
  rewrite !orb_false_r, orb_true_r. reflexivity.
Qed.

End PteFacts.

(** ** Attribute lookup and fracture *)

Module PmaFacts.

Import Machine MachineFacts PmaManager Inputs.

Lemma getPma_out_of_range (m : PmaManager.t) (addr : Z) :
  Z.of_nat (length (pagePmas_ m)) <= getPageIx m addr ->
  getPma m addr = Ret Pma.unmapped.
Proof.
  intros Hge. unfold getPma.
  destruct (Z.leb_spec (Z.of_nat (length (pagePmas_ m))) (getPageIx m addr)) as [_|Hlt].
  - reflexivity.
  - lia.
Qed.

Lemma getPma_in_range (m : PmaManager.t) (addr : Z) (pma : Pma.t) :
  getPageIx m addr < Z.of_nat (length (pagePmas_ m)) ->
  pagePmas_ m !! Z.to_nat (getPageIx m addr) = Some pma ->
  getPma m addr =
    if Pma.word_ pma then map_at (wordPmas_ m) (Z.shiftr addr 2) else Ret pma.
Proof.
  intros Hlt Hpage. unfold getPma.
  destruct (Z.leb_spec (Z.of_nat (length (pagePmas_ m))) (getPageIx m addr)) as [Hge|_].
  - lia.
  - rewrite Hpage. reflexivity.
Qed.

(** The loop of [fracture] stores only into the word map; what it
    stores at an index it visits is the flagged copy. *)
Lemma fractureLoop_lookup_below (n : nat) (wordIx : Z) (pma : Pma.t)
    (w : gmap Z Pma.t) (k : Z) :
  0 <= wordIx -> wordIx + Z.of_nat n <= 2 ^ 64 -> k < wordIx ->
  fractureLoop n wordIx pma w !! k = w !! k.
Proof.
  revert wordIx w. induction n as [|n IH]; intros wordIx w H0 Hn Hk; simpl.
  - reflexivity.
  - destruct n as [|n'].
    + simpl. apply lookup_insert_ne. lia.
    + assert (Hw : u64 (wordIx + 1) = wordIx + 1).
      { apply wrap_small. lia. }
      rewrite Hw. rewrite IH by lia.
      apply lookup_insert_ne. lia.
Qed.

Lemma fractureLoop_lookup_in (n : nat) (wordIx : Z) (pma : Pma.t)
    (w : gmap Z Pma.t) (k : Z) :
  0 <= wordIx -> wordIx + Z.of_nat n <= 2 ^ 64 ->
  wordIx <= k < wordIx + Z.of_nat n ->
  fractureLoop n wordIx pma w !! k = Some pma.
Proof.
  revert wordIx w. induction n as [|n IH]; intros wordIx w H0 Hn Hk; simpl.
  - lia.
  - destruct n as [|n'].
    + simpl. replace k with wordIx by lia. apply lookup_insert_eq.
    + assert (Hw : u64 (wordIx + 1) = wordIx + 1).
      { apply wrap_small. lia. }
      rewrite Hw.
      destruct (Z.eq_dec k wordIx) as [->|Hne].
      * rewrite fractureLoop_lookup_below by lia. apply lookup_insert_eq.
      * apply IH; lia.
Qed.

Lemma fractureLoop_lookup_above (n : nat) (wordIx : Z) (pma : Pma.t)
    (w : gmap Z Pma.t) (k : Z) :
  0 <= wordIx -> wordIx + Z.of_nat n <= 2 ^ 64 -> wordIx + Z.of_nat n <= k ->
  fractureLoop n wordIx pma w !! k = w !! k.
Proof.
  revert wordIx w. induction n as [|n IH]; intros wordIx w H0 Hn Hk; simpl.
  - reflexivity.
  - destruct n as [|n'].
    + simpl. apply lookup_insert_ne. lia.
    + assert (Hw : u64 (wordIx + 1) = wordIx + 1).
      { apply wrap_small. lia. }
      rewrite Hw. rewrite IH by lia.
      apply lookup_insert_ne. lia.
Qed.

(** [fracture] never assigns [pagePmas_]. *)
Lemma fracture_pagePmas (m m' : PmaManager.t) (addr : Z) :
  fracture m addr = Ret m' -> pagePmas_ m' = pagePmas_ m.
Proof.
  unfold fracture. destruct (vector_at (pagePmas_ m) (getPageIx m addr)) as [pma|e]; simpl.
  - destruct (Pma.word_ pma); intros Heq; inversion Heq; reflexivity.
  - discriminate.
Qed.

(** After [fracture] on a page that was not flagged, [getPma] still
    answers the page entry for every address of that page. *)
Lemma fracture_getPma_page_entry (m m' : PmaManager.t) (addr a : Z) (pma : Pma.t) :
  0 <= getPageIx m addr < Z.of_nat (length (pagePmas_ m)) ->
  pagePmas_ m !! Z.to_nat (getPageIx m addr) = Some pma ->
  Pma.word_ pma = false ->
  fracture m addr = Ret m' ->
  getPageIx m a = getPageIx m addr ->
  getPma m' a = Ret pma.
Proof.
  intros Hix Hpage Hflag Hfr Ha.
  pose proof (fracture_pagePmas _ _ _ Hfr) as Hpp.
  assert (Hshift : pageShift_ m' = pageShift_ m).
  { revert Hfr. unfold fracture.
    destruct (vector_at (pagePmas_ m) (getPageIx m addr)) as [q|e]; simpl.
    - destruct (Pma.word_ q); intros Heq; inversion Heq; reflexivity.
    - discriminate. }
  assert (Hga : getPageIx m' a = getPageIx m addr).
  { unfold getPageIx in *. rewrite Hshift. exact Ha. }
  rewrite (getPma_in_range m' a pma).
  - rewrite Hflag. reflexivity.
  - rewrite Hga, Hpp. lia.
  - rewrite Hga, Hpp. exact Hpage.
Qed.

(** C5 (as stated, refuted): with the sub-page flag set on the page
    and no entry in [wordPmas_] for the word, [getPma] does not answer
    the unmapped attribute: [wordPmas_.at] throws. *)
Lemma getPma_absent_word_entry_throws :
  (Pma.word_ <$> pagePmas_ flaggedEmpty !! Z.to_nat (getPageIx flaggedEmpty 0x100))
    = Some true /\
  wordPmas_ flaggedEmpty !! Z.shiftr 0x100 2 = None /\
  getPma flaggedEmpty 0x100 = Stop OutOfRange /\
  getPma flaggedEmpty 0x100 <> Ret Pma.unmapped.
Proof.
  repeat split; try reflexivity. discriminate.
Qed.

(** C5 (amended): [getPma] answers the unmapped attribute, without
    signalling an error, for every address whose page index is out of
    range; when the page's sub-page flag is set and [wordPmas_] holds
    no entry for word index [addr >> 2], it answers nothing and throws
    [std::out_of_range]. *)
Theorem getPma_unmapped_or_throws (m : PmaManager.t) (addr : Z) :
  (Z.of_nat (length (pagePmas_ m)) <= getPageIx m addr ->
   getPma m addr = Ret Pma.unmapped) /\
  (forall pma : Pma.t,
     getPageIx m addr < Z.of_nat (length (pagePmas_ m)) ->
     pagePmas_ m !! Z.to_nat (getPageIx m addr) = Some pma ->
     Pma.word_ pma = true ->
     wordPmas_ m !! Z.shiftr addr 2 = None ->
     getPma m addr = Stop OutOfRange).
Proof.
  split.
  - apply getPma_out_of_range.
  - intros pma Hlt Hpage Hflag Habsent.
    rewrite (getPma_in_range m addr pma Hlt Hpage), Hflag.
    unfold map_at. rewrite Habsent. reflexivity.
Qed.

Lemma getPma_unmapped_or_throws_witness :
  getPma onePage 0x1000 = Ret Pma.unmapped /\
  getPma flaggedEmpty 0x100 = Stop OutOfRange.
Proof.
  split.
  - apply (proj1 (getPma_unmapped_or_throws onePage 0x1000)).
    vm_compute. discriminate.
  - apply (proj2 (getPma_unmapped_or_throws flaggedEmpty 0x100)
             {| Pma.attrib_ := Pma.Default; Pma.word_ := true |}).
    + vm_compute. reflexivity.
    + reflexivity.
    + reflexivity.
    + reflexivity.
Defined.

(** C6 (the code at the failing input): [fracture(0x100)] on a
    one-page manager that is not fractured fills [wordPmas_] with
    flagged copies of the page attribute, but the sub-page flag of
    [pagePmas_[0]] stays clear and [getPma] goes on answering the page
    entry, not the word entry. *)
Theorem fracture_leaves_page_flag_clear :
  exists m' : PmaManager.t,
    fracture onePage 0x100 = Ret m' /\
    (Pma.word_ <$> pagePmas_ m' !! 0%nat) = Some false /\
    wordPmas_ m' !! Z.shiftr 0x100 2
      = Some {| Pma.attrib_ := Pma.Default; Pma.word_ := true |} /\
    wordPmas_ m' !! 0 = Some {| Pma.attrib_ := Pma.Default; Pma.word_ := true |} /\
    wordPmas_ m' !! 1023 = Some {| Pma.attrib_ := Pma.Default; Pma.word_ := true |} /\
    wordPmas_ m' !! 1024 = None /\
    getPma m' 0x100 = Ret {| Pma.attrib_ := Pma.Default; Pma.word_ := false |}.
Proof.
  set (flagged := {| Pma.attrib_ := Pma.Default; Pma.word_ := true |}).
  assert (Hfr : fracture onePage 0x100
                = Ret (set_wordPmas (fractureLoop 1024 0 flagged ∅) onePage)).
  { reflexivity. }
  exists (set_wordPmas (fractureLoop 1024 0 flagged ∅) onePage).
  split; [exact Hfr|].
  split; [reflexivity|].
  change (wordPmas_ (set_wordPmas (fractureLoop 1024 0 flagged ∅) onePage))
    with (fractureLoop 1024 0 flagged ∅).
  split; [apply fractureLoop_lookup_in; [lia | lia | split; [discriminate | reflexivity]]|].
  split; [apply fractureLoop_lookup_in; lia|].
  split; [apply fractureLoop_lookup_in; lia|].
  split.
  - rewrite fractureLoop_lookup_above by lia. reflexivity.
  - apply (fracture_getPma_page_entry onePage _ 0x100 0x100 (Pma.make Pma.Default)).
    + vm_compute. split; [discriminate | reflexivity].
    + reflexivity.
    + reflexivity.
    + exact Hfr.
    + reflexivity.
Qed.

End PmaFacts.

(** ** Translation *)

Module TranslateFacts.

Import Machine MachineFacts VirtMem Vocabulary.

Section Generic.

Context {M : Type} `{MemoryModel M}.

Implicit Types (s : VirtMem.t M) (a : Access) (e entry : TlbEntry.t).

Lemma pageFaultType_access a :
  pageFaultType (reads a) (writes a) (execs a) = Ret (faultOf a).
Proof. destruct a; reflexivity. Qed.

Lemma set_tlb_same s : set_tlb (tlb_ s) s = s.
Proof. destruct s; reflexivity. Qed.

Lemma set_memory_same s : set_memory (memory_ s) s = s.
Proof. destruct s; reflexivity. Qed.

(** *** The branch that uses a TLB entry *)

Lemma touched_physPageNum a entry :
  TlbEntry.physPageNum_ (touched a entry) = TlbEntry.physPageNum_ entry.
Proof. unfold touched. destruct (writes a); reflexivity. Qed.

Lemma touched_id a entry :
  (negb (TlbEntry.accessed_ entry) || (writes a && negb (TlbEntry.dirty_ entry)))
    = false ->
  touched a entry = entry.
Proof.
  unfold touched. destruct entry as [v p t i va g u r w x ac d]; simpl.
  destruct ac, (writes a), d; simpl; intros Hc; try discriminate; reflexivity.
Qed.

(** A hit answers either the fault of the access kind, with the entry
    and [pa] as they were, or [NONE], with the entry touched. *)
Lemma useTlbEntry_access s entry va priv a pa :
  useTlbEntry s entry va priv (reads a) (writes a) (execs a) pa
    = Ret (faultOf a, pa, entry)
  \/ useTlbEntry s entry va priv (reads a) (writes a) (execs a) pa
    = Ret (NONE, hitPa s entry va, touched a entry).
Proof.
  unfold useTlbEntry. rewrite pageFaultType_access.
  destruct (isUser priv && negb (TlbEntry.user_ entry)); [left; reflexivity|].
  destruct (isSupervisor priv && TlbEntry.user_ entry && negb (supervisorOk_ s));
    [left; reflexivity|].
  match goal with |- context [if ?c then _ else _] => destruct c end;
    [left; reflexivity|].
  destruct (negb (TlbEntry.accessed_ entry)
            || (writes a && negb (TlbEntry.dirty_ entry))) eqn:Hupd.
  - destruct (faultOnFirstAccess_ s); [left; reflexivity|].
    right. unfold hitPa, touched. destruct (writes a); reflexivity.
  - right. rewrite (touched_id a entry Hupd). reflexivity.
Qed.

Lemma useTlbEntry_memory s entry va priv read write exec pa (m : M) :
  useTlbEntry (set_memory m s) entry va priv read write exec pa
    = useTlbEntry s entry va priv read write exec pa.
Proof. reflexivity. Qed.

Lemma translate_hit s va priv read write exec pa i entry tlb :
  mode_ s <> Bare ->
  Tlb.findEntry (tlb_ s) (Z.shiftr va (pageBits_ s)) (asid_ s)
    = (Some (i, entry), tlb) ->
  translate s va priv read write exec pa
    = '(cause, pa, entry) ← useTlbEntry s entry va priv read write exec pa;
      Ret (cause, pa, set_tlb (Tlb.update tlb i entry) s).
Proof.
  intros Hmode Hfind. unfold translate. rewrite Hfind.
  destruct (mode_ s); [congruence | reflexivity ..].
Qed.

(** C10: on a TLB hit [translate] makes no access to the backing
    memory: whatever the memory holds, the call returns the same cause
    and [pa] and hands the memory back as it was.  It returns [NONE]
    exactly when the entry grants the request and no update of the
    accessed and dirty bits is due or [faultOnFirstAccess_] is false;
    the entry found is then left accessed, and dirty if the request is
    a write, in the TLB.  In particular, when the update is due and
    [faultOnFirstAccess_] is false, the bits are set in the TLB entry
    and the memory is the one handed in. *)
Theorem tlb_hit_touches_no_memory s (va : Z) (priv : PrivilegeMode) a (pa : Z)
    (i : nat) entry (tlb : Tlb.t) :
  mode_ s <> Bare ->
  Tlb.findEntry (tlb_ s) (Z.shiftr va (pageBits_ s)) (asid_ s)
    = (Some (i, entry), tlb) ->
  let entry' := TlbEntry.set_dirty (writes a || TlbEntry.dirty_ entry)
                  (TlbEntry.set_accessed true entry) in
  let pa' := Z.lor (u64 (Z.shiftl (TlbEntry.physPageNum_ entry) (pageBits_ s)))
                   (Z.land va (pageMask_ s)) in
  (forall m : M,
     translate (set_memory m s) va priv (reads a) (writes a) (execs a) pa
     = if grants s priv a entry && negb (updateDue a entry && faultOnFirstAccess_ s)
       then Ret (NONE, pa', set_memory m (set_tlb (Tlb.update tlb i entry') s))
       else Ret (faultOf a, pa, set_memory m (set_tlb (Tlb.update tlb i entry) s))) /\
  (grants s priv a entry = true -> updateDue a entry = true ->
   faultOnFirstAccess_ s = false ->
   forall m : M,
     translate (set_memory m s) va priv (reads a) (writes a) (execs a) pa
     = Ret (NONE, pa', set_memory m (set_tlb (Tlb.update tlb i entry') s)) /\
     TlbEntry.accessed_ entry' = true /\
     (a = AccWrite -> TlbEntry.dirty_ entry' = true)).
Proof.
  intros Hmode Hfind entry' pa'.
  assert (Hall : forall m : M,
             translate (set_memory m s) va priv (reads a) (writes a) (execs a) pa
             = if grants s priv a entry
                  && negb (updateDue a entry && faultOnFirstAccess_ s)
               then Ret (NONE, pa', set_memory m (set_tlb (Tlb.update tlb i entry') s))
               else Ret (faultOf a, pa,
                         set_memory m (set_tlb (Tlb.update tlb i entry) s))).
  { intros m.
    rewrite (translate_hit (set_memory m s) va priv _ _ _ pa i entry tlb Hmode Hfind).
    unfold useTlbEntry, grants, updateDue. rewrite pageFaultType_access.
    subst entry' pa'.
    cbn [supervisorOk_ execReadable_ faultOnFirstAccess_ pageBits_ pageMask_ set_memory].
    destruct entry as [v p t0 i0 va0 g u r w x ac d].
    cbn [TlbEntry.user_ TlbEntry.read_ TlbEntry.write_ TlbEntry.exec_
         TlbEntry.accessed_ TlbEntry.dirty_ TlbEntry.physPageNum_
         TlbEntry.set_accessed TlbEntry.set_dirty].
    destruct (supervisorOk_ s), (execReadable_ s), (faultOnFirstAccess_ s);
      destruct priv, a, u; cbn; destruct r, w, x; cbn; destruct ac, d; reflexivity. }
  split; [exact Hall|].
  intros Hg Hu Hf m. rewrite Hall, Hg, Hu, Hf.
  split; [reflexivity|]. split; [reflexivity|].
  intros ->. reflexivity.
Qed.

(** *** The canonical-address check *)


Lemma findEntry_miss (tlb : Tlb.t) (pageNum asid : Z) :
  fst (Tlb.findEntry tlb pageNum asid) = None ->
  Tlb.findEntry tlb pageNum asid = (None, tlb).
Proof.
  unfold Tlb.findEntry. destruct (Tlb.findIndex pageNum asid (Tlb.entries_ tlb)) as [i|].
  - destruct (Tlb.entries_ tlb !! i); simpl; [discriminate | reflexivity].
  - reflexivity.
Qed.


(** *** The page table walk *)

(** Step 8 changes the memory by at most one write, and that write
    goes to address 0, not to the address the leaf was read from. *)
Lemma updateAccessedDirty_write (P : PTE) s (write : bool) (pte pte' : Z) (m : M) :
  updateAccessedDirty P s write pte = Some (pte', m) ->
  (pte' = pte /\ m = memory_ s)
  \/ (pte' = (if write then PteBits.set_dirty (PteBits.set_accessed pte)
              else PteBits.set_accessed pte)
      /\ mem_write (memory_ s) (hartIx_ s) size 0 pte' = Some m).
Proof.
  unfold updateAccessedDirty.
  destruct (negb (PteBits.accessed pte) || (write && negb (PteBits.dirty pte))).
  - destruct (faultOnFirstAccess_ s); [discriminate|].
    destruct (mem_write _ _ _ _ _) as [m0|] eqn:Hw; [|discriminate].
    intros Heq. inversion Heq; subst. right. split; [reflexivity | exact Hw].
  - intros Heq. inversion Heq; subst. left. split; reflexivity.
Qed.

(** Steps 6 on a leaf whose exec bit is set, for an execute
    request: the permission test returns the page fault. *)
Lemma leafSteps_exec_set (P : PTE) (V : VA) s (address : Z) (priv : PrivilegeMode)
    (pa : Z) e (pte : Z) (ii : nat) :
  PteBits.exec pte = true ->
  leafSteps P V s address priv false false true pa e pte ii
    = Ret (INST_PAGE_FAULT, pa, e, memory_ s).
Proof.
  intros Hx. unfold leafSteps. rewrite Hx.
  change (pageFaultType false false true) with (Ret INST_PAGE_FAULT).
  destruct (isUser priv && negb (PteBits.user pte)); [reflexivity|].
  destruct (isSupervisor priv && PteBits.user pte && negb (supervisorOk_ s));
    [reflexivity|].
  rewrite orb_true_r. reflexivity.
Qed.

(** [setPageSize] accepts no size other than the power of two at or
    below the page size already configured. *)
Lemma setPageSize_true s (size : Z) :
  snd (setPageSize s size) = Ret true ->
  size = u64 (Z.shiftl 1 (Z.log2 (pageSize_ s))) /\ mode_ s <> Sv48.
Proof.
  unfold setPageSize. destruct (size =? 0); [discriminate|].
  destruct (Z.eqb_spec size (u64 (Z.shiftl 1 (Z.log2 (pageSize_ s))))) as [Heq|Hne];
    simpl negb; cbv iota; [|discriminate].
  destruct (mode_ s); try discriminate.
  - intros _. split; [exact Heq | discriminate].
  - intros _. split; [exact Heq | discriminate].
  - destruct (negb _ && _ && _ && _); discriminate.
Qed.

Section WalkOutcome.

(** A [PTE]/[VA] pair whose indexed accessors answer below
    [levels]; [wide] tells whether some [paPpnShift] reaches 32. *)
Context (P : PTE) (V : VA) (wide : bool).

Hypothesis vpn_in_range :
  forall (d : Z) (i : nat), (i < levels)%nat -> returns (vpn d (Z.of_nat i)).
Hypothesis ppnAt_in_range :
  forall (d : Z) (i : nat), (i < levels)%nat -> returns (ppnAt d (Z.of_nat i)).
Hypothesis shift_in_range :
  forall i : nat, (i < levels)%nat ->
    exists sh : Z, paPpnShift (Z.of_nat i) = Ret sh /\ (wide = false -> sh < 32).

Lemma walkLoop_outcome s (va : Z) a (ii : nat) (root : Z) :
  (ii < levels)%nat ->
  walkLoop P V s va (reads a) (writes a) (execs a) ii root
    = Ret (Returned (faultOf a))
  \/ exists (pte : Z) (ii' : nat), (ii' <= ii)%nat /\
       walkLoop P V s va (reads a) (writes a) (execs a) ii root
         = Ret (Leaf pte ii').
Proof.
  revert root. induction ii as [|ii IH]; intros root Hlt.
  - simpl walkLoop. destruct (vpn_in_range va 0%nat Hlt) as [v Hv].
    rewrite Hv. unfold mbind, Outcome_bind, returnFault.
    rewrite pageFaultType_access.
    destruct (mem_read _ _ _) as [data|]; [|left; reflexivity].
    destruct (negb _ || _); [left; reflexivity|].
    destruct (negb _ && negb _); [left; reflexivity|].
    right. exists (pte_make data), 0%nat. split; [lia | reflexivity].
  - cbn [walkLoop]. destruct (vpn_in_range va (S ii) Hlt) as [v Hv].
    rewrite Hv. unfold mbind, Outcome_bind, returnFault.
    rewrite pageFaultType_access.
    destruct (mem_read _ _ _) as [data|]; [|left; reflexivity].
    destruct (negb _ || _); [left; reflexivity|].
    destruct (negb _ && negb _).
    + destruct (IH (u32 (ppn (pte_make data) * pageSize_ s))) as [Hr|(q & j & Hj & Hr)];
        [lia | left; exact Hr |].
      right. exists q, j. split; [lia | exact Hr].
    + right. exists (pte_make data), (S ii). split; [lia | reflexivity].
Qed.

Lemma lowPpnsZero_returns (pte : Z) (js : list nat) :
  Forall (fun j => (j < levels)%nat) js -> returns (lowPpnsZero P pte js).
Proof.
  induction 1 as [|j js Hj _ IH]; simpl.
  - eexists; reflexivity.
  - destruct (ppnAt_in_range pte j Hj) as [p Hp]. rewrite Hp.
    unfold mbind, Outcome_bind.
    destruct (negb (p =? 0)); [eexists; reflexivity | exact IH].
Qed.

Lemma shl32_outcome (x : Z) (i : nat) :
  (i < levels)%nat ->
  exists sh : Z, paPpnShift (Z.of_nat i) = Ret sh /\
    (returns (shl32 x sh) \/ (shl32 x sh = Stop UndefinedShift /\ wide = true)).
Proof.
  intros Hi. destruct (shift_in_range i Hi) as [sh [Hsh Hlt]].
  exists sh. split; [exact Hsh|]. unfold shl32.
  destruct (Z.ltb_spec sh 32) as [_|Hge].
  - left. eexists; reflexivity.
  - right. split; [reflexivity|]. destruct wide; [reflexivity|].
    specialize (Hlt eq_refl). lia.
Qed.

Lemma copyVpns_outcome (va pa : Z) (js : list nat) :
  Forall (fun j => (j < levels)%nat) js ->
  returns (copyVpns P V va pa js)
  \/ (copyVpns P V va pa js = Stop UndefinedShift /\ wide = true).
Proof.
  intros Hjs. revert pa. induction Hjs as [|j js Hj _ IH]; intros pa; simpl.
  - left. eexists; reflexivity.
  - destruct (vpn_in_range va j Hj) as [v Hv]. rewrite Hv.
    destruct (shl32_outcome v j Hj) as [sh [Hsh [[x Hx]|[Hx Hw]]]];
      rewrite Hsh; unfold mbind, Outcome_bind; rewrite Hx.
    + apply IH.
    + right. split; [reflexivity | exact Hw].
Qed.

Lemma copyPpns_outcome (pte pa : Z) (js : list nat) :
  Forall (fun j => (j < levels)%nat) js ->
  returns (copyPpns P pte pa js)
  \/ (copyPpns P pte pa js = Stop UndefinedShift /\ wide = true).
Proof.
  intros Hjs. revert pa. induction Hjs as [|j js Hj _ IH]; intros pa; simpl.
  - left. eexists; reflexivity.
  - destruct (ppnAt_in_range pte j Hj) as [v Hv]. rewrite Hv.
    destruct (shl32_outcome v j Hj) as [sh [Hsh [[x Hx]|[Hx Hw]]]];
      rewrite Hsh; unfold mbind, Outcome_bind; rewrite Hx.
    + apply IH.
    + right. split; [reflexivity | exact Hw].
Qed.

Lemma seq_below (start len : nat) :
  (start + len <= levels)%nat -> Forall (fun j => (j < levels)%nat) (seq start len).
Proof.
  intros Hle. apply Forall_forall. intros j Hj.
  apply elem_of_seq in Hj. lia.
Qed.

Lemma leafSteps_outcome s (address : Z) (priv : PrivilegeMode) a (pa : Z)
    e (pte : Z) (ii : nat) :
  (ii < levels)%nat ->
  walkOk wide a (leafSteps P V s address priv (reads a) (writes a) (execs a)
              pa e pte ii).
Proof.
  intros Hii. unfold leafSteps. rewrite pageFaultType_access.
  unfold mbind at 1 2 3. unfold Outcome_bind at 1 2 3.
  destruct (isUser priv && negb (PteBits.user pte)); [right; reflexivity|].
  destruct (isSupervisor priv && PteBits.user pte && negb (supervisorOk_ s));
    [right; reflexivity|].
  match goal with |- context [if ?c then _ else _] => destruct c end;
    [right; reflexivity|].
  destruct (lowPpnsZero_returns pte (seq 0 ii)) as [al Hal];
    [apply seq_below; lia|].
  rewrite Hal. unfold mbind at 1. unfold Outcome_bind at 1.
  destruct al; simpl negb; cbv iota; [|right; reflexivity].
  destruct (updateAccessedDirty P s (writes a) pte) as [[pte' m]|];
    [|right; reflexivity].
  destruct (copyVpns_outcome (va_make address) (offset (va_make address)) (seq 0 ii))
    as [[pa1 Hpa1]|[Hstop Hw]]; [apply seq_below; lia | |].
  - rewrite Hpa1. unfold mbind at 1. unfold Outcome_bind at 1.
    destruct (copyPpns_outcome pte' pa1 (seq ii (levels - ii)))
      as [[pa2 Hpa2]|[Hstop Hw]]; [apply seq_below; lia | |].
    + rewrite Hpa2. left. reflexivity.
    + rewrite Hstop. split; [reflexivity | exact Hw].
  - rewrite Hstop. split; [reflexivity | exact Hw].
Qed.

Lemma pageTableWalk_outcome s (address : Z) (priv : PrivilegeMode) a (pa : Z) e :
  (0 < levels)%nat ->
  walkOk wide a (pageTableWalk P V s address priv (reads a) (writes a) (execs a) pa e).
Proof.
  intros Hpos. unfold pageTableWalk.
  destruct (walkLoop_outcome s (va_make address) a (levels - 1)
              (u64 (pageTableRootPage_ s * pageSize_ s)))
    as [Hr|(pte & ii & Hii & Hr)]; [lia | |]; rewrite Hr.
  - right. reflexivity.
  - apply leafSteps_outcome. lia.
Qed.

End WalkOutcome.

Lemma walk32_outcome s (address : Z) (priv : PrivilegeMode) a (pa : Z) e :
  walkOk false a (pageTableWalk Pte32_PTE Va32_VA s address priv
                    (reads a) (writes a) (execs a) pa e).
Proof.
  apply pageTableWalk_outcome.
  - intros d i Hi. change (@levels Pte32_PTE) with 2%nat in Hi.
    destruct i as [|[|i]]; [eexists; reflexivity ..|lia].
  - intros d i Hi. change (@levels Pte32_PTE) with 2%nat in Hi.
    destruct i as [|[|i]]; [eexists; reflexivity ..|lia].
  - intros i Hi. change (@levels Pte32_PTE) with 2%nat in Hi.
    destruct i as [|[|i]]; [eexists; split; [reflexivity | intros _; reflexivity] ..|lia].
  - change (@levels Pte32_PTE) with 2%nat. lia.
Qed.

Lemma walk39_outcome s (address : Z) (priv : PrivilegeMode) a (pa : Z) e :
  walkOk false a (pageTableWalk Pte39_PTE Va39_VA s address priv
                    (reads a) (writes a) (execs a) pa e).
Proof.
  apply pageTableWalk_outcome.
  - intros d i Hi. change (@levels Pte39_PTE) with 3%nat in Hi.
    destruct i as [|[|[|i]]]; [eexists; reflexivity ..|lia].
  - intros d i Hi. change (@levels Pte39_PTE) with 3%nat in Hi.
    destruct i as [|[|[|i]]]; [eexists; reflexivity ..|lia].
  - intros i Hi. change (@levels Pte39_PTE) with 3%nat in Hi.
    destruct i as [|[|[|i]]];
      [eexists; split; [reflexivity | intros _; reflexivity] ..|lia].
  - change (@levels Pte39_PTE) with 3%nat. lia.
Qed.

Lemma walk48_outcome s (address : Z) (priv : PrivilegeMode) a (pa : Z) e :
  walkOk true a (pageTableWalk Pte48_PTE Va48_VA s address priv
                   (reads a) (writes a) (execs a) pa e).
Proof.
  apply pageTableWalk_outcome.
  - intros d i Hi. change (@levels Pte48_PTE) with 4%nat in Hi.
    destruct i as [|[|[|[|i]]]]; [eexists; reflexivity ..|lia].
  - intros d i Hi. change (@levels Pte48_PTE) with 4%nat in Hi.
    destruct i as [|[|[|[|i]]]]; [eexists; reflexivity ..|lia].
  - intros i Hi. change (@levels Pte48_PTE) with 4%nat in Hi.
    destruct i as [|[|[|[|i]]]];
      [eexists; split; [reflexivity | intros Hw; discriminate Hw] ..|lia].
  - change (@levels Pte48_PTE) with 4%nat. lia.
Qed.

Lemma cacheWalk_outcome (wide : bool) s a
    (r : Outcome (ExceptionCause * Z * TlbEntry.t * M)) :
  walkOk wide a r ->
  match cacheWalk s r with
  | Ret (c, _, _) => c = NONE \/ c = faultOf a
  | Stop e => e = UndefinedShift /\ wide = true
  end.
Proof.
  unfold walkOk, cacheWalk. destruct r as [[[[c pa] e] m]|err]; simpl.
  - intros Hc. destruct c; simpl; exact Hc.
  - intros Hc. exact Hc.
Qed.

(** C9: with exactly one of read, write, exec requested, every
    result of [translate] other than [NONE] is the page fault of the
    access kind, whichever step of the probe or of the walk failed.
    The call returns in the modes Bare, Sv32 and Sv39; it stops on
    the [assert] in Sv57 and Sv64, and in Sv48 on the 32-bit shift
    by 39 that composes the physical address. *)
Theorem translate_fault_by_access_kind s (va : Z) (priv : PrivilegeMode) a (pa : Z) :
  match translate s va priv (reads a) (writes a) (execs a) pa with
  | Ret (cause, _, _) => cause = NONE \/ cause = faultOf a
  | Stop e =>
      (e = AssertFailed /\ (mode_ s = Sv57 \/ mode_ s = Sv64))
      \/ (e = UndefinedShift /\ mode_ s = Sv48)
  end.
Proof.
  unfold translate.
  destruct (Tlb.findEntry (tlb_ s) (Z.shiftr va (pageBits_ s)) (asid_ s))
    as [[[i entry]|] tlb].
  - assert (Hhit : match ('(cause, pa0, entry0) ←
                            useTlbEntry s entry va priv (reads a) (writes a) (execs a) pa;
                          Ret (cause, pa0, set_tlb (Tlb.update tlb i entry0) s))
                   with
                   | Ret (cause, _, _) => cause = NONE \/ cause = faultOf a
                   | Stop e =>
                       (e = AssertFailed /\ (mode_ s = Sv57 \/ mode_ s = Sv64))
                       \/ (e = UndefinedShift /\ mode_ s = Sv48)
                   end).
    { destruct (useTlbEntry_access s entry va priv a pa) as [Hu|Hu]; rewrite Hu.
      - right. reflexivity.
      - left. reflexivity. }
    destruct (mode_ s); [left; reflexivity | exact Hhit ..].
  - rewrite pageFaultType_access.
    destruct (mode_ s) eqn:Hmode.
    + left. reflexivity.
    + pose proof (cacheWalk_outcome false (set_tlb tlb s) a _
                    (walk32_outcome (set_tlb tlb s) va priv a pa TlbEntry.default))
        as Hw.
      destruct (cacheWalk _ _) as [[[c pa'] s']|err]; [exact Hw|].
      destruct Hw as [_ Hw]. discriminate Hw.
    + destruct (negb (Z.shiftr va 39 =? _)); [right; reflexivity|].
      pose proof (cacheWalk_outcome false (set_tlb tlb s) a _
                    (walk39_outcome (set_tlb tlb s) va priv a pa TlbEntry.default))
        as Hw.
      destruct (cacheWalk _ _) as [[[c pa'] s']|err]; [exact Hw|].
      destruct Hw as [_ Hw]. discriminate Hw.
    + destruct (negb (Z.shiftr va 48 =? _)); [right; reflexivity|].
      pose proof (cacheWalk_outcome true (set_tlb tlb s) a _
                    (walk48_outcome (set_tlb tlb s) va priv a pa TlbEntry.default))
        as Hw.
      destruct (cacheWalk _ _) as [[[c pa'] s']|err]; [exact Hw|].
      destruct Hw as [Hw _]. right. split; [exact Hw | reflexivity].
    + left. split; [reflexivity | left; reflexivity].
    + left. split; [reflexivity | right; reflexivity].
Qed.

(** *** A hit on the entry a walk installed *)

Lemma findIndex_lt (p a : Z) (es : list TlbEntry.t) (i : nat) :
  Tlb.findIndex p a es = Some i -> (i < length es)%nat.
Proof.
  revert i. induction es as [|x es IH]; intros i; simpl; [discriminate|].
  destruct (Tlb.matches p a x).
  - intros Heq. inversion Heq. lia.
  - destruct (Tlb.findIndex p a es) as [j|]; simpl; [|discriminate].
    intros Heq. inversion Heq. specialize (IH j eq_refl). lia.
Qed.

Lemma findIndex_insert (p a : Z) (e : TlbEntry.t) (es : list TlbEntry.t) (i : nat) :
  Tlb.findIndex p a es = None -> (i < length es)%nat -> Tlb.matches p a e = true ->
  Tlb.findIndex p a (<[i := e]> es) = Some i.
Proof.
  revert i. induction es as [|x es IH]; intros i Hnone Hi He; simpl in *; [lia|].
  destruct (Tlb.matches p a x) eqn:Hx; [discriminate|].
  destruct i as [|i]; simpl.
  - rewrite He. reflexivity.
  - rewrite Hx. rewrite IH; [reflexivity | | lia | exact He].
    destruct (Tlb.findIndex p a es); [discriminate | reflexivity].
Qed.

Lemma firstInvalid_lt (es : list TlbEntry.t) (i : nat) :
  Tlb.firstInvalid es = Some i -> (i < length es)%nat.
Proof.
  revert i. induction es as [|x es IH]; intros i; simpl; [discriminate|].
  destruct (TlbEntry.valid_ x).
  - destruct (Tlb.firstInvalid es) as [j|]; simpl; [|discriminate].
    intros Heq. inversion Heq. specialize (IH j eq_refl). lia.
  - intros Heq. inversion Heq. lia.
Qed.

Lemma oldestFrom_lt (es : list TlbEntry.t) (i best : nat) (bestTime : Z) :
  (best < i + length es)%nat ->
  (Tlb.oldestFrom i es best bestTime < i + length es)%nat.
Proof.
  revert i best bestTime. induction es as [|x es IH]; intros i best bt Hb; simpl in *.
  - lia.
  - destruct (TlbEntry.time_ x <? bt).
    + specialize (IH (S i) i (TlbEntry.time_ x)). lia.
    + specialize (IH (S i) best bt). lia.
Qed.

Lemma victim_some (es : list TlbEntry.t) :
  es <> [] -> exists i : nat, Tlb.victim es = Some i /\ (i < length es)%nat.
Proof.
  intros Hne. unfold Tlb.victim.
  destruct (Tlb.firstInvalid es) as [i|] eqn:Hf.
  - exists i. split; [reflexivity | apply firstInvalid_lt; exact Hf].
  - destruct es as [|x es]; [congruence|].
    eexists. split; [reflexivity|].
    pose proof (oldestFrom_lt es 1 0 (TlbEntry.time_ x)) as Hlt. simpl in *. lia.
Qed.

(** After [insertEntry] of an entry that answers a probe which missed
    before, [findEntry] answers that entry, up to its time stamp. *)
Lemma findEntry_insertEntry (tlb : Tlb.t) (e : TlbEntry.t) (p a : Z) :
  Tlb.entries_ tlb <> [] ->
  fst (Tlb.findEntry tlb p a) = None ->
  Tlb.matches p a e = true ->
  exists (i : nat) (t : Z) (tlb' : Tlb.t),
    Tlb.findEntry (Tlb.insertEntry tlb e) p a = (Some (i, TlbEntry.set_time t e), tlb').
Proof.
  intros Hne Hmiss He.
  assert (Hnone : Tlb.findIndex p a (Tlb.entries_ tlb) = None).
  { revert Hmiss. unfold Tlb.findEntry.
    destruct (Tlb.findIndex p a (Tlb.entries_ tlb)) as [j|] eqn:Hj; [|reflexivity].
    apply findIndex_lt in Hj. apply lookup_lt_is_Some_2 in Hj.
    destruct Hj as [x Hx]. rewrite Hx. discriminate. }
  destruct (victim_some _ Hne) as (i & Hv & Hi).
  unfold Tlb.insertEntry. rewrite Hv. unfold Tlb.findEntry.
  cbn [Tlb.entries_ Tlb.clock_].
  rewrite (findIndex_insert p a _ _ i Hnone Hi) by exact He.
  rewrite list_lookup_insert_eq by exact Hi.
  eexists i, _, _. reflexivity.
Qed.

Section HitAfterWalk.

(** A [PTE]/[VA] pair whose shifts leave the page offset alone and
    whose [offset] is the low 12 bits of the address. *)
Context (P : PTE) (V : VA).

Hypothesis shift_above_offset :
  forall (i sh : Z), paPpnShift i = Ret sh -> 12 <= sh.
Hypothesis offset_bits :
  forall (address n : Z), 0 <= n ->
    Z.testbit (offset (va_make address)) n = (n <? 12) && Z.testbit address n.

Lemma carriesOffset_offset (address : Z) :
  carriesOffset address (offset (va_make address)).
Proof.
  split; intros n Hn; rewrite offset_bits by lia.
  - destruct (Z.ltb_spec n 12); [reflexivity | lia].
  - destruct (Z.ltb_spec n 12); [lia | reflexivity].
Qed.

Lemma carriesOffset_lor (va pa v sh x : Z) :
  carriesOffset va pa -> 12 <= sh -> shl32 v sh = Ret x ->
  carriesOffset va (Z.lor pa x).
Proof.
  intros [Hlow Hhigh] Hsh Hx. unfold shl32 in Hx.
  destruct (sh <? 32); [|discriminate]. inversion Hx as [Hx']. clear Hx.
  unfold u32, wrap.
  split; intros n Hn; rewrite Z.lor_spec, Z.testbit_mod_pow2 by lia.
  - rewrite Hlow by lia. rewrite Z.shiftl_spec_low by lia.
    rewrite andb_false_r, orb_false_r. reflexivity.
  - rewrite Hhigh by lia. destruct (Z.ltb_spec n 32); [lia | reflexivity].
Qed.

Lemma copyVpns_carriesOffset (address va pa pa' : Z) (js : list nat) :
  carriesOffset address pa -> copyVpns P V va pa js = Ret pa' ->
  carriesOffset address pa'.
Proof.
  revert pa. induction js as [|j js IH]; intros pa Hpa; simpl.
  - intros Heq. inversion Heq; subst. exact Hpa.
  - destruct (vpn va (Z.of_nat j)) as [v|]; [|discriminate].
    destruct (paPpnShift (Z.of_nat j)) as [sh|] eqn:Hsh; [|discriminate].
    unfold mbind, Outcome_bind.
    destruct (shl32 v sh) as [x|] eqn:Hx; [|discriminate].
    apply IH. apply (carriesOffset_lor address pa v sh x Hpa); [|exact Hx].
    apply (shift_above_offset _ _ Hsh).
Qed.

Lemma copyPpns_carriesOffset (address pte pa pa' : Z) (js : list nat) :
  carriesOffset address pa -> copyPpns P pte pa js = Ret pa' ->
  carriesOffset address pa'.
Proof.
  revert pa. induction js as [|j js IH]; intros pa Hpa; simpl.
  - intros Heq. inversion Heq; subst. exact Hpa.
  - destruct (ppnAt pte (Z.of_nat j)) as [v|]; [|discriminate].
    destruct (paPpnShift (Z.of_nat j)) as [sh|] eqn:Hsh; [|discriminate].
    unfold mbind, Outcome_bind.
    destruct (shl32 v sh) as [x|] eqn:Hx; [|discriminate].
    apply IH. apply (carriesOffset_lor address pa v sh x Hpa); [|exact Hx].
    apply (shift_above_offset _ _ Hsh).
Qed.

(** The address a hit composes from the page number of [pa] and the
    offset of [va] is [pa] again. *)
Lemma hitPa_carriesOffset (va pa : Z) :
  carriesOffset va pa ->
  Z.lor (u64 (Z.shiftl (Z.shiftr pa 12) 12)) (Z.land va 4095) = pa.
Proof.
  intros [Hlow Hhigh]. apply Z.bits_inj'. intros n Hn.
  unfold u64, wrap. rewrite Z.lor_spec, Z.land_spec, Z.testbit_mod_pow2 by lia.
  change 4095 with (Z.ones 12). rewrite Z.testbit_ones_nonneg by lia.
  destruct (Z.ltb_spec n 12) as [Hlt|Hge].
  - rewrite Z.shiftl_spec_low by lia. rewrite Hlow by lia.
    rewrite andb_false_r, andb_true_r. reflexivity.
  - rewrite Z.shiftl_spec, Z.shiftr_spec by lia.
    replace (n - 12 + 12) with n by lia. rewrite andb_false_r, orb_false_r.
    destruct (Z.ltb_spec n 64) as [Hlt|Hge64]; [reflexivity|].
    rewrite Hhigh by lia. reflexivity.
Qed.

Lemma walkLoop_returned s (va : Z) a (ii : nat) (root : Z) (c : ExceptionCause) :
  walkLoop P V s va (reads a) (writes a) (execs a) ii root = Ret (Returned c) ->
  c = faultOf a.
Proof.
  revert root. induction ii as [|ii IH]; intros root; cbn [walkLoop];
    (destruct (vpn va _) as [v|]; [|discriminate]);
    unfold mbind, Outcome_bind, returnFault; rewrite pageFaultType_access;
    (destruct (mem_read _ _ _) as [data|]; [|intros Heq; inversion Heq; reflexivity]);
    (destruct (negb _ || _); [intros Heq; inversion Heq; reflexivity|]);
    (destruct (negb _ && negb _); [|discriminate]).
  - intros Heq. inversion Heq. reflexivity.
  - apply IH.
Qed.

Lemma updateAccessedDirty_flags s (write : bool) (pte pte' : Z) (m : M) :
  updateAccessedDirty P s write pte = Some (pte', m) ->
  PteBits.user pte' = PteBits.user pte /\
  PteBits.read pte' = PteBits.read pte /\
  PteBits.write pte' = PteBits.write pte /\
  PteBits.exec pte' = PteBits.exec pte /\
  PteBits.accessed pte' = true /\
  (write = true -> PteBits.dirty pte' = true).
Proof.
  unfold updateAccessedDirty.
  destruct (negb (PteBits.accessed pte) || (write && negb (PteBits.dirty pte))) eqn:Hc.
  - destruct (faultOnFirstAccess_ s); [discriminate|].
    destruct (mem_write _ _ _ _ _); [|discriminate].
    intros Heq. inversion Heq; subst. clear Heq.
    pose proof (PteFacts.flagsOf_set_accessed pte) as Ha.
    destruct write.
    + pose proof (PteFacts.flagsOf_set_dirty (PteBits.set_accessed pte)) as Hd.
      unfold flagsOf in Ha, Hd. inversion Ha. inversion Hd.
      repeat split; congruence.
    + unfold flagsOf in Ha. inversion Ha.
      repeat split; congruence.
  - intros Heq. inversion Heq; subst. clear Heq.
    destruct (PteBits.accessed pte'), write, (PteBits.dirty pte');
      simpl in Hc; try discriminate; repeat split; congruence.
Qed.

(** What a successful [leafSteps] went through. *)
Lemma leafSteps_success s (address : Z) (priv : PrivilegeMode) a (pa : Z)
    e (pte : Z) (ii : nat) (pa1 : Z) (e1 : TlbEntry.t) (m1 : M) :
  leafSteps P V s address priv (reads a) (writes a) (execs a) pa e pte ii
    = Ret (NONE, pa1, e1, m1) ->
  (isUser priv && negb (PteBits.user pte)) = false /\
  (isSupervisor priv && PteBits.user pte && negb (supervisorOk_ s)) = false /\
  ((reads a && negb (PteBits.read pte || (execReadable_ s && PteBits.exec pte)))
   || (writes a && negb (PteBits.write pte))
   || (execs a && PteBits.exec pte)) = false /\
  exists (pte' pa0 : Z),
    updateAccessedDirty P s (writes a) pte = Some (pte', m1) /\
    copyVpns P V (va_make address) (offset (va_make address)) (seq 0 ii) = Ret pa0 /\
    copyPpns P pte' pa0 (seq ii (levels - ii)) = Ret pa1 /\
    e1 = fillTlbEntry s address pa1 pte' e.
Proof.
  assert (Hnofault : forall x : Z * TlbEntry.t * M,
             Ret (faultOf a, pa, e, memory_ s) <> Ret (NONE, fst (fst x), snd (fst x), snd x)).
  { intros x Heq. inversion Heq as [Hc]. destruct a; discriminate Hc. }
  unfold leafSteps. rewrite pageFaultType_access.
  unfold mbind at 1 2 3. unfold Outcome_bind at 1 2 3.
  destruct (isUser priv && negb (PteBits.user pte));
    [intros Heq; exfalso; exact (Hnofault (pa1, e1, m1) Heq)|].
  destruct (isSupervisor priv && PteBits.user pte && negb (supervisorOk_ s));
    [intros Heq; exfalso; exact (Hnofault (pa1, e1, m1) Heq)|].
  match goal with |- context [if ?c then _ else _] => destruct c end;
    [intros Heq; exfalso; exact (Hnofault (pa1, e1, m1) Heq)|].
  destruct (lowPpnsZero P pte (seq 0 ii)) as [al|]; [|discriminate].
  unfold mbind at 1. unfold Outcome_bind at 1.
  destruct al; simpl negb; cbv iota;
    [|intros Heq; exfalso; exact (Hnofault (pa1, e1, m1) Heq)].
  destruct (updateAccessedDirty P s (writes a) pte) as [[pte' m]|];
    [|intros Heq; exfalso; exact (Hnofault (pa1, e1, m1) Heq)].
  destruct (copyVpns P V (va_make address) (offset (va_make address)) (seq 0 ii))
    as [pa0|]; [|discriminate].
  unfold mbind at 1. unfold Outcome_bind at 1.
  destruct (copyPpns P pte' pa0 (seq ii (levels - ii))) as [pa2|] eqn:Hpp; [|discriminate].
  intros Heq. inversion Heq; subst. clear Heq.
  repeat split. exists pte', pa0. repeat split. exact Hpp.
Qed.

(** The entry a successful walk for a read or a write fills in answers
    the same request with [NONE] and the same [pa], and is left as it
    is. *)
Lemma walk_then_useTlbEntry s (address : Z) (priv : PrivilegeMode) a (pa : Z)
    (e0 : TlbEntry.t) (pa1 : Z) (e1 : TlbEntry.t) (m1 : M) (t : Z) :
  a <> AccExec -> pageBits_ s = 12 -> pageMask_ s = 4095 ->
  pageTableWalk P V s address priv (reads a) (writes a) (execs a) pa e0
    = Ret (NONE, pa1, e1, m1) ->
  useTlbEntry s (TlbEntry.set_time t e1) address priv (reads a) (writes a) (execs a) pa
    = Ret (NONE, pa1, TlbEntry.set_time t e1)
  /\ TlbEntry.valid_ e1 = true
  /\ TlbEntry.virtPageNum_ e1 = Z.shiftr address 12
  /\ TlbEntry.asid_ e1 = u32 (asid_ s).
Proof.
  intros Ha Hbits Hmask. unfold pageTableWalk.
  destruct (walkLoop P V s (va_make address) (reads a) (writes a) (execs a)
              (levels - 1) (u64 (pageTableRootPage_ s * pageSize_ s)))
    as [[c|pte ii]|] eqn:Hloop; unfold mbind, Outcome_bind; [| |discriminate].
  - apply walkLoop_returned in Hloop. intros Heq. inversion Heq; subst.
    destruct a; discriminate.
  - intros Hleaf. apply leafSteps_success in Hleaf.
    destruct Hleaf as (Hc1 & Hc2 & Hc3 & pte' & pa0 & Hupd & Hv & Hp & He1).
    apply updateAccessedDirty_flags in Hupd.
    destruct Hupd as (Hu & Hr & Hw & Hx & Hacc & Hd).
    assert (Hoff : carriesOffset address pa1).
    { eapply copyPpns_carriesOffset; [|exact Hp].
      eapply copyVpns_carriesOffset; [|exact Hv].
      apply carriesOffset_offset. }
    subst e1. split; [|repeat split; cbn; rewrite ?Hbits; reflexivity].
    unfold useTlbEntry. rewrite pageFaultType_access.
    cbn [TlbEntry.set_time fillTlbEntry TlbEntry.user_ TlbEntry.read_ TlbEntry.write_
         TlbEntry.exec_ TlbEntry.accessed_ TlbEntry.dirty_ TlbEntry.physPageNum_].
    rewrite Hu, Hr, Hw, Hx, Hacc, Hc1, Hc2, Hbits, Hmask.
    rewrite (hitPa_carriesOffset address pa1 Hoff).
    destruct a; [| |congruence]; simpl in Hc3 |- *.
    + rewrite orb_false_r in Hc3. rewrite Hc3. reflexivity.
    + rewrite Hc3. rewrite (Hd eq_refl). reflexivity.
Qed.

Lemma cacheWalk_then_hit s (va : Z) (priv : PrivilegeMode) a (pa pa1 : Z)
    (s1 : VirtMem.t M) :
  a <> AccExec -> pageBits_ s = 12 -> pageMask_ s = 4095 ->
  0 <= asid_ s < 2 ^ 32 ->
  Tlb.entries_ (tlb_ s) <> [] ->
  fst (Tlb.findEntry (tlb_ s) (Z.shiftr va 12) (asid_ s)) = None ->
  mode_ s <> Bare ->
  cacheWalk s (pageTableWalk P V s va priv (reads a) (writes a) (execs a) pa
                 TlbEntry.default)
    = Ret (NONE, pa1, s1) ->
  exists (i : nat) (entry : TlbEntry.t) (tlb : Tlb.t),
    Tlb.findEntry (tlb_ s1) (Z.shiftr va (pageBits_ s1)) (asid_ s1)
      = (Some (i, entry), tlb) /\
    translate s1 va priv (reads a) (writes a) (execs a) pa
      = Ret (NONE, pa1, set_tlb (Tlb.update tlb i entry) s1).
Proof.
  intros Ha Hbits Hmask Hasid Hne Hmiss Hmode Hcache.
  destruct (pageTableWalk P V s va priv (reads a) (writes a) (execs a) pa
              TlbEntry.default) as [[[[c pa'] e1] m1]|] eqn:Hwalk;
    [|discriminate].
  unfold cacheWalk, mbind, Outcome_bind in Hcache.
  destruct c; inversion Hcache; subst pa1 s1. clear Hcache.
  assert (Hmatch : Tlb.matches (Z.shiftr va 12) (asid_ s) e1 = true).
  { destruct (walk_then_useTlbEntry s va priv a pa _ _ _ _ 0 Ha Hbits Hmask Hwalk)
      as (_ & Hv & Hp & Hi).
    unfold Tlb.matches. rewrite Hv, Hp, Hi, Z.eqb_refl.
    unfold u32. rewrite wrap_small by exact Hasid.
    rewrite Z.eqb_refl, orb_true_r. reflexivity. }
  destruct (findEntry_insertEntry (tlb_ s) e1 _ _ Hne Hmiss Hmatch)
    as (i & t & tlb' & Hfind).
  destruct (walk_then_useTlbEntry s va priv a pa _ _ _ _ t Ha Hbits Hmask Hwalk)
    as (Huse & _).
  exists i, (TlbEntry.set_time t e1), tlb'.
  assert (Hfind' :
            Tlb.findEntry
              (tlb_ (set_tlb (Tlb.insertEntry (tlb_ (set_memory m1 s)) e1)
                             (set_memory m1 s)))
              (Z.shiftr va (pageBits_ (set_tlb (Tlb.insertEntry (tlb_ (set_memory m1 s)) e1)
                                               (set_memory m1 s))))
              (asid_ (set_tlb (Tlb.insertEntry (tlb_ (set_memory m1 s)) e1)
                              (set_memory m1 s)))
            = (Some (i, TlbEntry.set_time t e1), tlb')).
  { cbn [tlb_ pageBits_ asid_ set_tlb set_memory]. rewrite Hbits. exact Hfind. }
  split; [exact Hfind'|].
  rewrite (translate_hit _ va priv _ _ _ pa i (TlbEntry.set_time t e1) tlb');
    [| exact Hmode | exact Hfind'].
  match goal with
  | |- context [useTlbEntry ?s' ?e ?v ?p ?r ?w ?x ?q] =>
      change (useTlbEntry s' e v p r w x q) with (useTlbEntry s e v p r w x q)
  end.
  rewrite Huse. reflexivity.
Qed.

End HitAfterWalk.

Lemma Pte32_shift_above_offset (i sh : Z) : Pte32.paPpnShift i = Ret sh -> 12 <= sh.
Proof.
  unfold Pte32.paPpnShift. destruct (i =? 0); [intros Heq; inversion Heq; lia|].
  destruct (i =? 1); [intros Heq; inversion Heq; lia | discriminate].
Qed.

Lemma Pte39_shift_above_offset (i sh : Z) : Pte39.paPpnShift i = Ret sh -> 12 <= sh.
Proof.
  unfold Pte39.paPpnShift. destruct (i =? 0); [intros Heq; inversion Heq; lia|].
  destruct (i =? 1); [intros Heq; inversion Heq; lia|].
  destruct (i =? 2); [intros Heq; inversion Heq; lia | discriminate].
Qed.

Lemma Pte48_shift_above_offset (i sh : Z) : Pte48.paPpnShift i = Ret sh -> 12 <= sh.
Proof.
  unfold Pte48.paPpnShift. destruct (i =? 0); [intros Heq; inversion Heq; lia|].
  destruct (i =? 1); [intros Heq; inversion Heq; lia|].
  destruct (i =? 2); [intros Heq; inversion Heq; lia|].
  destruct (i =? 3); [intros Heq; inversion Heq; lia | discriminate].
Qed.

Lemma offset_field_bits (w address n : Z) :
  12 <= w -> 0 <= n ->
  Z.testbit (field 0 12 (wrap w address)) n = (n <? 12) && Z.testbit address n.
Proof.
  intros Hw Hn. unfold field, wrap.
  rewrite Z.land_spec, Z.shiftr_spec, Z.testbit_mod_pow2, Z.testbit_ones_nonneg by lia.
  rewrite Z.add_0_r.
  destruct (Z.ltb_spec n 12), (Z.ltb_spec n w); simpl; try lia;
    rewrite ?andb_true_r, ?andb_false_r; reflexivity.
Qed.

(** For a read or a write, the call that follows a successful walk
    hits the entry the walk installed and returns the same [pa]; this is
    the part of C3 that the code does satisfy. *)
Lemma hit_reproduces_walk s (va : Z) (priv : PrivilegeMode) a (pa pa1 : Z)
    (s1 : VirtMem.t M) :
  a <> AccExec -> pageBits_ s = 12 -> pageMask_ s = 4095 ->
  0 <= asid_ s < 2 ^ 32 ->
  Tlb.entries_ (tlb_ s) <> [] ->
  fst (Tlb.findEntry (tlb_ s) (Z.shiftr va 12) (asid_ s)) = None ->
  mode_ s <> Bare ->
  translate s va priv (reads a) (writes a) (execs a) pa = Ret (NONE, pa1, s1) ->
  exists (i : nat) (entry : TlbEntry.t) (tlb : Tlb.t),
    Tlb.findEntry (tlb_ s1) (Z.shiftr va (pageBits_ s1)) (asid_ s1)
      = (Some (i, entry), tlb) /\
    translate s1 va priv (reads a) (writes a) (execs a) pa
      = Ret (NONE, pa1, set_tlb (Tlb.update tlb i entry) s1).
Proof.
  intros Ha Hbits Hmask Hasid Hne Hmiss Hmode Htr.
  pose proof (findEntry_miss _ _ _ Hmiss) as Hmiss'.
  unfold translate in Htr. rewrite Hbits, Hmiss', pageFaultType_access, set_tlb_same in Htr.
  assert (Hnofault : Ret (faultOf a, pa, s) <> Ret (NONE, pa1, s1)).
  { intros Heq. inversion Heq as [Hc]. destruct a; discriminate Hc. }
  destruct (mode_ s) eqn:Hm; [congruence | | | | discriminate | discriminate].
  - apply (cacheWalk_then_hit Pte32_PTE Va32_VA Pte32_shift_above_offset
             (fun address n => offset_field_bits 32 address n ltac:(lia))
             s va priv a pa pa1 s1 Ha Hbits Hmask Hasid Hne Hmiss);
      [congruence | exact Htr].
  - destruct (negb (Z.shiftr va 39 =? _)); [exfalso; exact (Hnofault Htr)|].
    apply (cacheWalk_then_hit Pte39_PTE Va39_VA Pte39_shift_above_offset
             (fun address n => offset_field_bits 64 address n ltac:(lia))
             s va priv a pa pa1 s1 Ha Hbits Hmask Hasid Hne Hmiss);
      [congruence | exact Htr].
  - destruct (negb (Z.shiftr va 48 =? _)); [exfalso; exact (Hnofault Htr)|].
    apply (cacheWalk_then_hit Pte48_PTE Va48_VA Pte48_shift_above_offset
             (fun address n => offset_field_bits 64 address n ltac:(lia))
             s va priv a pa pa1 s1 Ha Hbits Hmask Hasid Hne Hmiss);
      [congruence | exact Htr].
Qed.

(** *** The canonical check and the entries of the TLB *)












End Generic.

End TranslateFacts.

(** ** The virtual address decoder of Sv48 *)

Module DecoderFacts.

Import Machine.

(** C8 (the code at the failing input): [Va48::vpn(3)] answers the
    [vpn2_] field, so it equals [vpn(2)] for every address, and that
    field is bits 40:32 of the address in the layout of the struct; it
    is not the [vpn3_] field, and it is not bits 47:39.  For the address
    [2^39], whose bits 47:39 hold 1, [vpn(3)] answers 128; for [2^41],
    whose bits 47:39 hold 4 and whose [vpn3_] field holds 1, it
    answers 0. *)
Theorem Va48_vpn3_reads_vpn2 :
  (forall d : Z, Va48.vpn d 3 = Va48.vpn d 2) /\
  (forall d : Z, Va48.vpn d 3 = Ret (field 32 9 d)) /\
  (field 39 9 (2 ^ 39) = 1 /\
   Va48.vpn (2 ^ 39) 3 = Ret 128 /\ Va48.vpn (2 ^ 39) 2 = Ret 128) /\
  (field 39 9 (2 ^ 41) = 4 /\ Va48.vpn3_ (2 ^ 41) = 1 /\
   Va48.vpn (2 ^ 41) 3 = Ret 0).
Proof.
  split; [intros d; reflexivity|].
  split; [intros d; reflexivity|].
  repeat split; reflexivity.
Qed.

End DecoderFacts.

(** ** Runs on a concrete memory *)

Module Runs.

Import Machine VirtMem Vocabulary Inputs TranslateFacts.

Lemma sv32_constructed (leaf : Z) :
  (s ← VirtMem.make 0 (tables leaf) 4096 4; Ret (setPageTableRoot s 1))
    = Ret (sv32 leaf).
Proof. reflexivity. Qed.

(** C1 (the code at the failing input): an execute request that
    reaches a leaf whose exec bit is set returns [INST_PAGE_FAULT]
    from the permission test; one that reaches a leaf whose exec bit
    is clear passes it and translates. *)
Theorem exec_check_inverted :
  PteBits.exec leafRWX = true /\
  answer (translate (sv32 leafRWX) 0x00800123 User false false true 0)
    = Ret (INST_PAGE_FAULT, 0) /\
  PteBits.exec leafRW = false /\
  answer (translate (sv32 leafRW) 0x00800123 User false false true 0)
    = Ret (NONE, 0x3123).
Proof. repeat split; vm_compute; reflexivity. Qed.

(** C2 (the code at the failing input): a write through a leaf with
    accessed and dirty clear succeeds, but the updated entry is
    written to physical address 0; the word at [0x2000], from which
    the leaf was read, keeps accessed and dirty clear. *)
Theorem accessed_dirty_written_to_address_zero :
  exists s' : VirtMem.t FlatMemory.t,
    translate (sv32 leafFresh) 0x00800123 User false true false 0
      = Ret (NONE, 0x3123, s') /\
    mem_read (memory_ (sv32 leafFresh)) 4 0x2000 = Some leafFresh /\
    mem_read (memory_ (sv32 leafFresh)) 4 0 = Some 0 /\
    mem_read (memory_ s') 4 0x2000 = Some leafFresh /\
    mem_read (memory_ s') 4 0 = Some (PteBits.set_dirty (PteBits.set_accessed leafFresh)).
Proof.
  eexists. split; [vm_compute; reflexivity|].
  repeat split; vm_compute; reflexivity.
Qed.

(** C3 (the code at the failing input): an execute request through a
    leaf with the exec bit clear walks, succeeds and installs a TLB
    entry, leaving the page tables as they were; the same request
    again hits that entry and returns [INST_PAGE_FAULT], where a walk
    of the same tables succeeds once more. *)
Theorem tlb_hit_disagrees_with_walk :
  exists s1 : VirtMem.t FlatMemory.t,
    fst (Tlb.findEntry (tlb_ (sv32 leafRW)) (Z.shiftr 0x00800123 12) 0) = None /\
    translate (sv32 leafRW) 0x00800123 User false false true 0
      = Ret (NONE, 0x3123, s1) /\
    memory_ s1 = memory_ (sv32 leafRW) /\
    fst <$> fst (Tlb.findEntry (tlb_ s1) (Z.shiftr 0x00800123 12) 0) = Some 0%nat /\
    answer (translate s1 0x00800123 User false false true 0)
      = Ret (INST_PAGE_FAULT, 0) /\
    answer (translate (set_tlb (Tlb.make 4) s1) 0x00800123 User false false true 0)
      = Ret (NONE, 0x3123).
Proof.
  eexists. split; [vm_compute; reflexivity|].
  split; [vm_compute; reflexivity|].
  repeat split; vm_compute; reflexivity.
Qed.

(** C4 (the code at the failing input): in Sv39 with 4 KiB pages
    configured, [setPageSize(2 MiB)] returns false and changes
    nothing; in Sv48, [setPageSize(4096)] installs the size and then
    reaches the [assert] instead of returning true. *)
Theorem setPageSize_rejects_permitted_sizes :
  setPageSize (setMode (sv32 leafRW) Sv39) (2 * 1024 * 1024)
    = (setMode (sv32 leafRW) Sv39, Ret false) /\
  setPageSize (setMode (sv32 leafRW) Sv39) (1024 * 1024 * 1024)
    = (setMode (sv32 leafRW) Sv39, Ret false) /\
  snd (setPageSize (setMode (sv32 leafRW) Sv48) 4096) = Stop AssertFailed.
Proof. repeat split; vm_compute; reflexivity. Qed.


(** The translator [sv39Walked] is what the walk of [0x00800123]
    in Sv39 leaves of [sv39]. *)
Lemma sv39_walked :
  translate MoreInputs.sv39 0x00800123 User true false false 0
    = Ret (NONE, 0x5123, MoreInputs.sv39Walked).
Proof. vm_compute. reflexivity. Qed.


Lemma tlb_hit_touches_no_memory_witness :
  mode_ cached <> Bare /\
  Tlb.findEntry (tlb_ cached) (Z.shiftr 0x00800123 (pageBits_ cached)) (asid_ cached)
    = (Some (0%nat, TlbEntry.set_time 1 cleanEntry),
       Tlb.mk [TlbEntry.set_time 1 cleanEntry] 2) /\
  grants cached User AccWrite (TlbEntry.set_time 1 cleanEntry) = true /\
  updateDue AccWrite (TlbEntry.set_time 1 cleanEntry) = true /\
  faultOnFirstAccess_ cached = false /\
  forall m : FlatMemory.t,
    translate (set_memory m cached) 0x00800123 User false true false 0
    = Ret (NONE, 0x3123,
           set_memory m
             (set_tlb (Tlb.mk [TlbEntry.set_dirty true (TlbEntry.set_time 1 cleanEntry)] 2)
                      cached)).
Proof.
  split; [discriminate|].
  split; [reflexivity|].
  split; [reflexivity|]. split; [reflexivity|]. split; [reflexivity|].
  intros m.
  exact (proj1 (proj2 (tlb_hit_touches_no_memory cached 0x00800123 User AccWrite 0
                         0%nat (TlbEntry.set_time 1 cleanEntry)
                         (Tlb.mk [TlbEntry.set_time 1 cleanEntry] 2)
                         ltac:(discriminate) eq_refl)
                      eq_refl eq_refl eq_refl m)).
Defined.

End Runs.

(** * Further properties of the code *)

(** ** Masks, page starts and attributes ([PmaManager.hpp]) *)

Module PmaMore.

Import Machine MachineFacts PmaManager MemMappedReset Inputs MoreVocabulary MoreInputs PmaFacts.

Lemma wordAddr_eq (addr : Z) :
  0 <= addr < 2 ^ 64 -> u64 (Z.shiftl (Z.shiftr addr 2) 2) = 4 * (addr / 4).
Proof.
  intros Ha. rewrite Z.shiftr_div_pow2, Z.shiftl_mul_pow2 by lia.
  change (2 ^ 2) with 4. rewrite (Z.mul_comm (addr / 4) 4).
  unfold u64. apply wrap_small.
  pose proof (Z.mul_div_le addr 4 ltac:(lia)) as Hle.
  assert (0 <= addr / 4) by (apply Z.div_pos; lia). lia.
Qed.

(** X1: a mask stored for an address is read back, truncated to 32
    bits, through every address of the same word, and the masks of the
    other words are as before. *)
Theorem memMappedMask_set_get (m : PmaManager.t) (addr addr' mask : Z) :
  0 <= addr < 2 ^ 64 -> 0 <= addr' < 2 ^ 64 ->
  getMemMappedMask (setMemMappedMask m addr mask) addr'
  = if addr' / 4 =? addr / 4 then mask mod 2 ^ 32 else getMemMappedMask m addr'.
Proof.
  intros Ha Ha'. unfold getMemMappedMask, setMemMappedMask.
  cbn [memMappedMasks_ set_memMappedMasks].
  rewrite !wordAddr_eq by assumption.
  destruct (Z.eqb_spec (addr' / 4) (addr / 4)) as [Heq|Hne].
  - rewrite Heq, lookup_insert_eq. reflexivity.
  - rewrite lookup_insert_ne by lia. reflexivity.
Qed.

Lemma memMappedMask_set_get_witness :
  getMemMappedMask masked 0x100 = 0x0000ffff /\
  getMemMappedMask masked 0x104 = 0xffffffff.
Proof.
  split.
  - apply (memMappedMask_set_get onePage 0x102 0x100 0x0000ffff); lia.
  - apply (memMappedMask_set_get onePage 0x102 0x104 0x0000ffff); lia.
Defined.

(** X2: the page start of an address is the multiple of the page size
    at or below it: the address lies in the page that starts there, the
    page index is unchanged and taking the page start again changes
    nothing. *)
Theorem getPageStartAddr_page (m : PmaManager.t) (addr : Z) :
  0 <= addr < 2 ^ 64 -> 0 <= pageShift_ m ->
  getPageStartAddr m addr <= addr < getPageStartAddr m addr + 2 ^ pageShift_ m /\
  getPageStartAddr m addr mod 2 ^ pageShift_ m = 0 /\
  getPageIx m (getPageStartAddr m addr) = getPageIx m addr /\
  getPageStartAddr m (getPageStartAddr m addr) = getPageStartAddr m addr.
Proof.
  intros Ha Hk. unfold getPageStartAddr, getPageIx.
  set (k := pageShift_ m) in *.
  assert (Hpos : 0 < 2 ^ k) by (apply Z.pow_pos_nonneg; lia).
  assert (Hq : 0 <= addr / 2 ^ k) by (apply Z.div_pos; lia).
  pose proof (Z.mul_div_le addr (2 ^ k) Hpos) as Hle.
  pose proof (Z.mod_pos_bound addr (2 ^ k) Hpos) as Hmod.
  pose proof (Z.div_mod addr (2 ^ k) ltac:(lia)) as Hdm.
  assert (Hp : u64 (Z.shiftl (Z.shiftr addr k) k) = 2 ^ k * (addr / 2 ^ k)).
  { rewrite Z.shiftr_div_pow2, Z.shiftl_mul_pow2 by lia.
    rewrite (Z.mul_comm (addr / 2 ^ k)). unfold u64. apply wrap_small. lia. }
  rewrite !Hp.
  assert (Hdiv : 2 ^ k * (addr / 2 ^ k) / 2 ^ k = addr / 2 ^ k).
  { rewrite Z.mul_comm. apply Z.div_mul. lia. }
  split; [lia|]. split; [|split].
  - rewrite Z.mul_comm. apply Z.mod_mul. lia.
  - rewrite !Z.shiftr_div_pow2 by lia. exact Hdiv.
  - rewrite Z.shiftr_div_pow2, Z.shiftl_mul_pow2 by lia. rewrite Hdiv.
    rewrite (Z.mul_comm (addr / 2 ^ k)). unfold u64. apply wrap_small. lia.
Qed.

Lemma getPageStartAddr_page_witness :
  getPageStartAddr onePage 0x1234 <= 0x1234 < getPageStartAddr onePage 0x1234 + 2 ^ 12 /\
  getPageStartAddr onePage 0x1234 mod 2 ^ 12 = 0 /\
  getPageIx onePage (getPageStartAddr onePage 0x1234) = getPageIx onePage 0x1234 /\
  getPageStartAddr onePage (getPageStartAddr onePage 0x1234)
    = getPageStartAddr onePage 0x1234.
Proof. apply (getPageStartAddr_page onePage 0x1234); [lia | discriminate]. Defined.

Lemma has_lor (a b : Z) (p : Pma.t) :
  Pma.has (Z.lor a b) p = Pma.has a p || Pma.has b p.
Proof.
  unfold Pma.has. rewrite Z.land_lor_distr_r.
  destruct (Z.eqb_spec (Z.land (Pma.attrib_ p) a) 0) as [Ha|Ha];
    destruct (Z.eqb_spec (Z.land (Pma.attrib_ p) b) 0) as [Hb|Hb];
    destruct (Z.eqb_spec (Z.lor (Z.land (Pma.attrib_ p) a) (Z.land (Pma.attrib_ p) b)) 0)
      as [Hl|Hl]; simpl; try reflexivity; exfalso.
  - apply Hl. rewrite Ha, Hb. reflexivity.
  - apply Z.lor_eq_0_iff in Hl. tauto.
  - apply Z.lor_eq_0_iff in Hl. tauto.
  - apply Z.lor_eq_0_iff in Hl. tauto.
Qed.

(** X3: an attribute is mapped exactly when it allows execution,
    reading or writing. *)
Theorem isMapped_iff (p : Pma.t) :
  Pma.isMapped p = Pma.isExec p || Pma.isRead p || Pma.isWrite p.
Proof.
  unfold Pma.isMapped, Pma.isExec, Pma.isRead, Pma.isWrite, Pma.Mapped.
  rewrite !has_lor. reflexivity.
Qed.

(** X4: [fracture] on a page that is not flagged stores the flagged
    copy of the page attribute at each of the [pageSize_ / 4] word
    indices of that page and at no other index; the masks are
    untouched. *)
Theorem fracture_words (m : PmaManager.t) (addr : Z) (pma : Pma.t) :
  vector_at (pagePmas_ m) (getPageIx m addr) = Ret pma ->
  Pma.word_ pma = false ->
  0 <= pageSize_ m < 2 ^ 64 ->
  exists m' : PmaManager.t,
    fracture m addr = Ret m' /\
    memMappedMasks_ m' = memMappedMasks_ m /\
    forall k : Z,
      wordPmas_ m' !! k =
        if (Z.shiftr (u64 (getPageIx m addr * pageSize_ m)) 2 <=? k)
           && (k <? Z.shiftr (u64 (getPageIx m addr * pageSize_ m)) 2 + pageSize_ m / 4)
        then Some {| Pma.attrib_ := Pma.attrib_ pma; Pma.word_ := true |}
        else wordPmas_ m !! k.
Proof.
  intros Hat Hflag Hsize. unfold fracture. rewrite Hat.
  unfold mbind, Outcome_bind. rewrite Hflag.
  eexists. split; [reflexivity|]. split; [reflexivity|]. intros k.
  cbn [wordPmas_ set_wordPmas].
  set (first := Z.shiftr (u64 (getPageIx m addr * pageSize_ m)) 2).
  assert (Hfirst : 0 <= first < 2 ^ 62).
  { unfold first. rewrite Z.shiftr_div_pow2 by lia.
    pose proof (wrap_range 64 (getPageIx m addr * pageSize_ m) ltac:(lia)) as Hr.
    fold u64 in Hr. change (2 ^ 2) with 4. split.
    - apply Z.div_pos; lia.
    - apply Z.div_lt_upper_bound; lia. }
  assert (Hwords : 0 <= pageSize_ m / 4 < 2 ^ 62).
  { split; [apply Z.div_pos; lia | apply Z.div_lt_upper_bound; lia]. }
  destruct (Z.leb_spec first k) as [Hlo|Hlo]; simpl.
  - destruct (Z.ltb_spec k (first + pageSize_ m / 4)) as [Hhi|Hhi].
    + apply fractureLoop_lookup_in; rewrite ?Z2Nat.id; lia.
    + apply fractureLoop_lookup_above; rewrite ?Z2Nat.id; lia.
  - apply fractureLoop_lookup_below; rewrite ?Z2Nat.id; lia.
Qed.

Lemma fracture_words_witness :
  exists m' : PmaManager.t,
    fracture onePage 0x100 = Ret m' /\
    memMappedMasks_ m' = memMappedMasks_ onePage /\
    forall k : Z,
      wordPmas_ m' !! k =
        if (Z.shiftr (u64 (getPageIx onePage 0x100 * pageSize_ onePage)) 2 <=? k)
           && (k <? Z.shiftr (u64 (getPageIx onePage 0x100 * pageSize_ onePage)) 2
                    + pageSize_ onePage / 4)
        then Some {| Pma.attrib_ := Pma.attrib_ (Pma.make Pma.Default); Pma.word_ := true |}
        else wordPmas_ onePage !! k.
Proof.
  apply (fracture_words onePage 0x100 (Pma.make Pma.Default)).
  - reflexivity.
  - reflexivity.
  - cbn. lia.
Defined.

Lemma zeroWord_spec (addr : Z) (data d' : list Z) :
  zeroWord addr data = Some d' ->
  0 <= addr /\ addr + 4 <= Z.of_nat (length data) /\
  length d' = length data /\
  forall i : nat,
    d' !! i = if (addr <=? Z.of_nat i) && (Z.of_nat i <? addr + 4) then Some 0
              else data !! i.
Proof.
  unfold zeroWord.
  destruct (Z.leb_spec 0 addr) as [H0|H0]; simpl; [|discriminate].
  destruct (Z.leb_spec (addr + 4) (Z.of_nat (length data))) as [Hfit|Hfit];
    [|discriminate].
  intros Heq. inversion Heq; subst d'. clear Heq.
  split; [exact H0|]. split; [exact Hfit|].
  split; [rewrite !length_insert; reflexivity|].
  intros i. rewrite !list_lookup_insert, !length_insert.
  repeat case_decide;
    destruct (Z.leb_spec addr (Z.of_nat i));
    destruct (Z.ltb_spec (Z.of_nat i) (addr + 4)); simpl; try reflexivity; lia.
Qed.

Lemma zeroWord_fits (addr : Z) (data : list Z) :
  0 <= addr -> addr + 4 <= Z.of_nat (length data) -> is_Some (zeroWord addr data).
Proof.
  intros H0 Hfit. unfold zeroWord.
  destruct (Z.leb_spec 0 addr); [|lia].
  destruct (Z.leb_spec (addr + 4) (Z.of_nat (length data))); [|lia].
  eexists; reflexivity.
Qed.

(** X5: when every keyed word fits the buffer, [resetMemMapped] zeroes
    the four bytes of each word whose address is a key of the mask map
    and leaves every other byte, and the length, as they were. *)
Theorem resetMemMapped_zeroes (m : PmaManager.t) (data : list Z) :
  masksFit (memMappedMasks_ m) (length data) ->
  exists d' : list Z,
    resetMemMapped m data = Some d' /\
    length d' = length data /\
    forall i : nat,
      (inMaskedWord (memMappedMasks_ m) (Z.of_nat i) -> d' !! i = Some 0) /\
      (~ inMaskedWord (memMappedMasks_ m) (Z.of_nat i) -> d' !! i = data !! i).
Proof.
  unfold resetMemMapped.
  apply (map_fold_weak_ind
           (fun (r : option (list Z)) (masks : gmap Z Z) =>
              masksFit masks (length data) ->
              exists d' : list Z,
                r = Some d' /\ length d' = length data /\
                forall i : nat,
                  (inMaskedWord masks (Z.of_nat i) -> d' !! i = Some 0) /\
                  (~ inMaskedWord masks (Z.of_nat i) -> d' !! i = data !! i))).
  - intros _. exists data. split; [reflexivity|]. split; [reflexivity|].
    intros i. split; [|reflexivity].
    intros (k & Hk & _). rewrite lookup_empty in Hk. destruct Hk as [x Hx]. discriminate.
  - intros j x masks r Hfresh IH Hfit.
    assert (Hfit' : masksFit masks (length data)).
    { intros k Hk. apply Hfit. destruct (decide (j = k)) as [->|Hne].
      - rewrite Hfresh in Hk. destruct Hk as [y Hy]. discriminate.
      - rewrite lookup_insert_ne by exact Hne. exact Hk. }
    destruct (IH Hfit') as (d1 & -> & Hlen & Hbytes).
    destruct (Hfit j) as [Hj0 Hj4]; [rewrite lookup_insert_eq; eexists; reflexivity|].
    destruct (zeroWord_fits j d1) as [d2 Hd2]; [lia | rewrite Hlen; lia|].
    exists d2. split; [exact Hd2|].
    apply zeroWord_spec in Hd2. destruct Hd2 as (_ & _ & Hlen2 & Hlook).
    split; [congruence|].
    intros i. rewrite Hlook. destruct (Hbytes i) as [Hin Hout].
    destruct (Z.leb_spec j (Z.of_nat i)) as [Hlo|Hlo];
      [destruct (Z.ltb_spec (Z.of_nat i) (j + 4)) as [Hhi|Hhi]|]; simpl.
    + split; reflexivity || (intros Hn; exfalso; apply Hn; exists j;
        rewrite lookup_insert_eq; split; [eexists; reflexivity | lia]).
    + split.
      * intros (k & Hk & Hrange). apply Hin. exists k. split; [|exact Hrange].
        destruct (decide (j = k)) as [->|Hne]; [lia|].
        rewrite lookup_insert_ne in Hk by exact Hne. exact Hk.
      * intros Hn. apply Hout. intros (k & Hk & Hrange). apply Hn. exists k.
        split; [|exact Hrange].
        destruct (decide (j = k)) as [->|Hne];
          [rewrite Hfresh in Hk; destruct Hk as [y Hy]; discriminate|].
        rewrite lookup_insert_ne by exact Hne. exact Hk.
    + split.
      * intros (k & Hk & Hrange). apply Hin. exists k. split; [|exact Hrange].
        destruct (decide (j = k)) as [->|Hne]; [lia|].
        rewrite lookup_insert_ne in Hk by exact Hne. exact Hk.
      * intros Hn. apply Hout. intros (k & Hk & Hrange). apply Hn. exists k.
        split; [|exact Hrange].
        destruct (decide (j = k)) as [->|Hne];
          [rewrite Hfresh in Hk; destruct Hk as [y Hy]; discriminate|].
        rewrite lookup_insert_ne by exact Hne. exact Hk.
Qed.

Lemma resetMemMapped_zeroes_witness :
  masksFit (memMappedMasks_ masked) (length buffer) /\
  exists d' : list Z,
    resetMemMapped masked buffer = Some d' /\
    length d' = length buffer /\
    forall i : nat,
      (inMaskedWord (memMappedMasks_ masked) (Z.of_nat i) -> d' !! i = Some 0) /\
      (~ inMaskedWord (memMappedMasks_ masked) (Z.of_nat i) -> d' !! i = buffer !! i).
Proof.
  assert (Hfit : masksFit (memMappedMasks_ masked) (length buffer)).
  { intros k Hk. destruct (decide (k = 256)) as [->|Hne].
    - split; [lia | reflexivity || (cbv; discriminate)].
    - exfalso. revert Hk. unfold masked, setMemMappedMask.
      cbn [memMappedMasks_ set_memMappedMasks].
      rewrite wordAddr_eq by lia. change (4 * (258 / 4)) with 256.
      rewrite lookup_insert_ne by congruence.
      change (memMappedMasks_ onePage) with (∅ : gmap Z Z).
      rewrite lookup_empty. intros [x Hx]. discriminate Hx. }
  split; [exact Hfit|].
  apply (resetMemMapped_zeroes masked buffer Hfit).
Defined.

End PmaMore.

(** ** The translator: construction, faults and writes ([VirtMem.cpp]) *)

Module TranslateMore.

Import Machine MachineFacts VirtMem Vocabulary TranslateFacts.

Section Generic.

Context {M : Type} `{MemoryModel M}.

Implicit Types (s : VirtMem.t M) (a : Access) (e entry : TlbEntry.t).

Lemma pow2_page (k : Z) :
  0 <= k < 32 ->
  Z.log2 (2 ^ k) = k /\ u32 (Z.shiftl 1 k) = 2 ^ k /\ u64 (Z.shiftl 1 k) = 2 ^ k
  /\ u32 (2 ^ k) = 2 ^ k.
Proof.
  intros Hk.
  assert (Hlt : 2 ^ k < 2 ^ 32) by (apply Z.pow_lt_mono_r; lia).
  assert (Hpos : 0 < 2 ^ k) by (apply Z.pow_pos_nonneg; lia).
  rewrite Z.shiftl_1_l. unfold u32, u64.
  rewrite !wrap_small by lia. split; [apply Z.log2_pow2; lia|]. repeat split.
Qed.

(** X6: the constructor succeeds exactly for a page size [2^k] with
    [6 <= k < 32]; the translator it builds is in Sv32 with
    [pageBits_ = k], [pageSize_ = 2^k] and [pageMask_ = 2^k - 1]; for
    every other page size an assertion fails. *)
Theorem make_power_of_two (hartIx : Z) (memory : M) (pageSize : Z) (tlbSize : nat) :
  match VirtMem.make hartIx memory pageSize tlbSize with
  | Ret s =>
      exists k : Z, 6 <= k < 32 /\ pageSize = 2 ^ k /\ pageBits_ s = k /\
        pageSize_ s = 2 ^ k /\ pageMask_ s = 2 ^ k - 1 /\ mode_ s = Sv32 /\
        memory_ s = memory /\ tlb_ s = Tlb.make tlbSize
  | Stop e =>
      e = AssertFailed /\ ~ exists k : Z, 6 <= k < 32 /\ pageSize = 2 ^ k
  end.
Proof.
  unfold VirtMem.make.
  destruct (Z.eqb_spec (u32 (Z.shiftl 1 (Z.log2 pageSize))) pageSize) as [Heq|Hne];
    simpl negb; cbv iota.
  - destruct (Z.leb_spec 64 pageSize) as [H64|H64]; simpl negb; cbv iota.
    + exists (Z.log2 pageSize).
      pose proof (Z.log2_nonneg pageSize) as Hnn.
      assert (Hk : Z.log2 pageSize < 32).
      { destruct (Z.lt_ge_cases (Z.log2 pageSize) 32) as [Hlt|Hge]; [exact Hlt|].
        exfalso. revert Heq. rewrite Z.shiftl_1_l. unfold u32, wrap.
        replace (Z.log2 pageSize) with (32 + (Z.log2 pageSize - 32)) by lia.
        rewrite Z.pow_add_r by lia. rewrite Z.mul_comm, Z.mod_mul by lia. lia. }
      destruct (pow2_page (Z.log2 pageSize) ltac:(lia)) as (_ & Hs & _ & _).
      rewrite Hs in Heq.
      assert (H6 : 6 <= Z.log2 pageSize).
      { destruct (Z.lt_ge_cases (Z.log2 pageSize) 6) as [Hlt|Hge]; [|exact Hge].
        exfalso.
        assert (2 ^ Z.log2 pageSize <= 2 ^ 5) by (apply Z.pow_le_mono_r; lia). lia. }
      cbn [pageBits_ pageSize_ pageMask_ mode_ memory_ tlb_].
      repeat split; try reflexivity; lia.
    + split; [reflexivity|]. intros (k & Hk & Hp). subst pageSize.
      assert (2 ^ 6 <= 2 ^ k) by (apply Z.pow_le_mono_r; lia). lia.
  - split; [reflexivity|]. intros (k & Hk & Hp). subst pageSize. apply Hne.
    destruct (pow2_page k ltac:(lia)) as (Hl & Hs & _ & _). rewrite Hl. exact Hs.
Qed.

(** X7: on a translator whose page size is a power of two below
    [2^32], as the constructor leaves it, [setPageSize] changes nothing
    whatever the size asked for, and returns true only for the page
    size already configured. *)
Theorem setPageSize_keeps_geometry s (size k : Z) :
  0 <= k < 32 -> pageSize_ s = 2 ^ k -> pageBits_ s = k ->
  fst (setPageSize s size) = s /\
  (snd (setPageSize s size) = Ret true -> size = pageSize_ s).
Proof.
  intros Hk Hps Hpb.
  destruct (pow2_page k Hk) as (Hl & _ & Hs & Hu).
  unfold setPageSize. rewrite Hps, Hl, Hs.
  destruct (size =? 0); [split; [reflexivity | discriminate]|].
  destruct (Z.eqb_spec size (2 ^ k)) as [Heq|Hne]; simpl negb; cbv iota;
    [|split; [reflexivity | discriminate]].
  assert (Hset : set_page (u32 size) k s = s).
  { rewrite Heq, Hu. destruct s; simpl in *; subst; reflexivity. }
  destruct (mode_ s); repeat match goal with
    | |- context [if ?c then _ else _] => destruct c
    end; cbn [fst snd]; rewrite ?Hset; split; try reflexivity; try discriminate;
    intros _; exact Heq.
Qed.

(** *** What a fault leaves alone *)

Lemma leafSteps_fault (P : PTE) (V : VA) s (address : Z) (priv : PrivilegeMode)
    (read write exec : bool) (pa : Z) e (pte : Z) (ii : nat)
    (c : ExceptionCause) (pa' : Z) (e' : TlbEntry.t) (m' : M) :
  leafSteps P V s address priv read write exec pa e pte ii = Ret (c, pa', e', m') ->
  c <> NONE -> pa' = pa /\ e' = e /\ m' = memory_ s.
Proof.
  assert (Hfault : (c0 ← pageFaultType read write exec; Ret (c0, pa, e, memory_ s))
                   = Ret (c, pa', e', m') -> pa' = pa /\ e' = e /\ m' = memory_ s).
  { destruct (pageFaultType read write exec) as [c0|]; [|discriminate].
    intros Heq. inversion Heq. repeat split. }
  unfold leafSteps.
  destruct (isUser priv && negb (PteBits.user pte)); [intros Heq _; exact (Hfault Heq)|].
  destruct (isSupervisor priv && PteBits.user pte && negb (supervisorOk_ s));
    [intros Heq _; exact (Hfault Heq)|].
  match goal with |- context [if ?b then _ else _] => destruct b end;
    [intros Heq _; exact (Hfault Heq)|].
  destruct (lowPpnsZero P pte (seq 0 ii)) as [al|]; [|discriminate].
  unfold mbind at 1. unfold Outcome_bind at 1.
  destruct al; simpl negb; cbv iota; [|intros Heq _; exact (Hfault Heq)].
  destruct (updateAccessedDirty P s write pte) as [[pte' m]|];
    [|intros Heq _; exact (Hfault Heq)].
  destruct (copyVpns P V (va_make address) (offset (va_make address)) (seq 0 ii))
    as [pa0|]; [|discriminate].
  unfold mbind at 1. unfold Outcome_bind at 1.
  destruct (copyPpns P pte' pa0 (seq ii (levels - ii))) as [pa2|]; [|discriminate].
  intros Heq Hc. inversion Heq. congruence.
Qed.

Lemma pageTableWalk_fault (P : PTE) (V : VA) s (address : Z) (priv : PrivilegeMode)
    (read write exec : bool) (pa : Z) e
    (c : ExceptionCause) (pa' : Z) (e' : TlbEntry.t) (m' : M) :
  pageTableWalk P V s address priv read write exec pa e = Ret (c, pa', e', m') ->
  c <> NONE -> pa' = pa /\ e' = e /\ m' = memory_ s.
Proof.
  unfold pageTableWalk.
  destruct (walkLoop P V s (va_make address) read write exec (levels - 1)
              (u64 (pageTableRootPage_ s * pageSize_ s))) as [[c0|pte ii]|];
    unfold mbind, Outcome_bind; [| |discriminate].
  - intros Heq _. inversion Heq. repeat split.
  - apply leafSteps_fault.
Qed.

Lemma cacheWalk_fault (P : PTE) (V : VA) s (address : Z) (priv : PrivilegeMode)
    (read write exec : bool) (pa : Z) e
    (c : ExceptionCause) (pa' : Z) (s' : VirtMem.t M) :
  cacheWalk s (pageTableWalk P V s address priv read write exec pa e)
    = Ret (c, pa', s') ->
  c <> NONE -> pa' = pa /\ s' = s.
Proof.
  destruct (pageTableWalk P V s address priv read write exec pa e)
    as [[[[c0 pa0] e0] m0]|] eqn:Hwalk; [|discriminate].
  unfold cacheWalk, mbind, Outcome_bind.
  destruct c0; intros Heq Hc; inversion Heq; subst; try congruence;
    destruct (pageTableWalk_fault P V s address priv read write exec pa e
                _ _ _ _ Hwalk ltac:(discriminate)) as (-> & _ & ->);
    (split; [reflexivity | apply set_memory_same]).
Qed.

Lemma useTlbEntry_fault s entry (va : Z) (priv : PrivilegeMode)
    (read write exec : bool) (pa : Z) (c : ExceptionCause) (pa' : Z) (e' : TlbEntry.t) :
  useTlbEntry s entry va priv read write exec pa = Ret (c, pa', e') ->
  c <> NONE -> pa' = pa /\ e' = entry.
Proof.
  assert (Hfault : (c0 ← pageFaultType read write exec; Ret (c0, pa, entry))
                   = Ret (c, pa', e') -> pa' = pa /\ e' = entry).
  { destruct (pageFaultType read write exec) as [c0|]; [|discriminate].
    intros Heq. inversion Heq. repeat split. }
  unfold useTlbEntry.
  repeat match goal with
    | |- context [if ?b then _ else _] =>
        destruct b; try (intros Heq _; exact (Hfault Heq))
    end; intros Heq Hc; inversion Heq; congruence.
Qed.

(** X8: a call of [translate] that returns a fault has left the
    out-parameter [pa] and the memory as they were; and when the TLB
    probe missed, the whole translator. *)
Theorem translate_fault_changes_nothing s (va : Z) (priv : PrivilegeMode)
    (read write exec : bool) (pa : Z) (c : ExceptionCause) (pa' : Z)
    (s' : VirtMem.t M) :
  translate s va priv read write exec pa = Ret (c, pa', s') ->
  c <> NONE ->
  pa' = pa /\ memory_ s' = memory_ s /\
  (fst (Tlb.findEntry (tlb_ s) (Z.shiftr va (pageBits_ s)) (asid_ s)) = None -> s' = s).
Proof.
  intros Htr Hc. unfold translate in Htr.
  destruct (Tlb.findEntry (tlb_ s) (Z.shiftr va (pageBits_ s)) (asid_ s))
    as [[[i entry]|] tlb] eqn:Hfind.
  - assert (Hhit : ('(cause, pa0, entry0) ←
                      useTlbEntry s entry va priv read write exec pa;
                    Ret (cause, pa0, set_tlb (Tlb.update tlb i entry0) s))
                   = Ret (c, pa', s') ->
                   pa' = pa /\ memory_ s' = memory_ s /\ (Some (i, entry) = None -> s' = s)).
    { destruct (useTlbEntry s entry va priv read write exec pa)
        as [[[c0 pa0] e0]|] eqn:Hu; [|discriminate].
      intros Heq. inversion Heq; subst.
      destruct (useTlbEntry_fault _ _ _ _ _ _ _ _ _ _ _ Hu Hc) as [-> _].
      split; [reflexivity|]. split; [reflexivity | discriminate]. }
    destruct (mode_ s); [inversion Htr; congruence | exact (Hhit Htr) ..].
  - pose proof (findEntry_miss _ _ _ (f_equal fst Hfind)) as Hmiss.
    rewrite Hfind in Hmiss. inversion Hmiss; subst tlb. clear Hmiss.
    rewrite set_tlb_same in Htr.
    assert (Hfault : (c0 ← pageFaultType read write exec; Ret (c0, pa, s))
                     = Ret (c, pa', s') -> pa' = pa /\ s' = s).
    { destruct (pageFaultType read write exec) as [c0|]; [|discriminate].
      intros Heq. inversion Heq. split; reflexivity. }
    assert (Hgoal : pa' = pa /\ s' = s).
    { destruct (mode_ s); [inversion Htr; congruence | | | | discriminate | discriminate].
      - exact (cacheWalk_fault _ _ _ _ _ _ _ _ _ _ _ _ _ Htr Hc).
      - destruct (negb (Z.shiftr va 39 =? _)); [exact (Hfault Htr)|].
        exact (cacheWalk_fault _ _ _ _ _ _ _ _ _ _ _ _ _ Htr Hc).
      - destruct (negb (Z.shiftr va 48 =? _)); [exact (Hfault Htr)|].
        exact (cacheWalk_fault _ _ _ _ _ _ _ _ _ _ _ _ _ Htr Hc). }
    destruct Hgoal as [-> ->]. repeat split.
Qed.

(** *** The writes of a translation *)

Lemma leafSteps_memory (P : PTE) (V : VA) s (address : Z) (priv : PrivilegeMode)
    (read write exec : bool) (pa : Z) e (pte : Z) (ii : nat)
    (c : ExceptionCause) (pa' : Z) (e' : TlbEntry.t) (m' : M) :
  leafSteps P V s address priv read write exec pa e pte ii = Ret (c, pa', e', m') ->
  m' = memory_ s
  \/ (c = NONE /\ faultOnFirstAccess_ s = false /\
      exists pte' : Z, mem_write (memory_ s) (hartIx_ s) size 0 pte' = Some m').
Proof.
  intros Hleaf.
  assert (Hdec : c = NONE \/ c <> NONE) by (destruct c; [left; reflexivity | right; discriminate ..]).
  destruct Hdec as [->|Hc];
    [|left; exact (proj2 (proj2 (leafSteps_fault P V _ _ _ _ _ _ _ _ _ _ _ _ _ _ Hleaf Hc)))].
  revert Hleaf. unfold leafSteps.
  assert (Hfault : (c0 ← pageFaultType read write exec; Ret (c0, pa, e, memory_ s))
                   = Ret (NONE, pa', e', m') -> m' = memory_ s).
  { destruct (pageFaultType read write exec) as [c0|]; [|discriminate].
    intros Heq. inversion Heq. reflexivity. }
  destruct (isUser priv && negb (PteBits.user pte)); [intros Heq; left; exact (Hfault Heq)|].
  destruct (isSupervisor priv && PteBits.user pte && negb (supervisorOk_ s));
    [intros Heq; left; exact (Hfault Heq)|].
  match goal with |- context [if ?b then _ else _] => destruct b end;
    [intros Heq; left; exact (Hfault Heq)|].
  destruct (lowPpnsZero P pte (seq 0 ii)) as [al|]; [|discriminate].
  unfold mbind at 1. unfold Outcome_bind at 1.
  destruct al; simpl negb; cbv iota; [|intros Heq; left; exact (Hfault Heq)].
  unfold updateAccessedDirty.
  destruct (negb (PteBits.accessed pte) || (write && negb (PteBits.dirty pte))).
  - destruct (faultOnFirstAccess_ s); [intros Heq; left; exact (Hfault Heq)|].
    destruct (mem_write _ _ _ _ _) as [m0|] eqn:Hw; [|intros Heq; left; exact (Hfault Heq)].
    destruct (copyVpns P V _ _ _) as [pa0|]; [|discriminate].
    unfold mbind at 1. unfold Outcome_bind at 1.
    destruct (copyPpns P _ pa0 _) as [pa2|]; [|discriminate].
    intros Heq. inversion Heq; subst. right. repeat split. eexists. exact Hw.
  - destruct (copyVpns P V _ _ _) as [pa0|]; [|discriminate].
    unfold mbind at 1. unfold Outcome_bind at 1.
    destruct (copyPpns P _ pa0 _) as [pa2|]; [|discriminate].
    intros Heq. inversion Heq; subst. left. reflexivity.
Qed.

Lemma cacheWalk_memory (P : PTE) (V : VA) s (address : Z) (priv : PrivilegeMode)
    (read write exec : bool) (pa : Z) e
    (c : ExceptionCause) (pa' : Z) (s' : VirtMem.t M) :
  cacheWalk s (pageTableWalk P V s address priv read write exec pa e)
    = Ret (c, pa', s') ->
  memory_ s' = memory_ s
  \/ (c = NONE /\ faultOnFirstAccess_ s = false /\
      exists bytes addr value : Z,
        mem_write (memory_ s) (hartIx_ s) bytes addr value = Some (memory_ s')).
Proof.
  unfold pageTableWalk.
  destruct (walkLoop P V s (va_make address) read write exec (levels - 1)
              (u64 (pageTableRootPage_ s * pageSize_ s))) as [[c0|pte ii]|];
    unfold mbind at 1; unfold Outcome_bind at 1; [| |discriminate].
  - unfold cacheWalk, mbind, Outcome_bind.
    destruct c0; intros Heq; inversion Heq; left; reflexivity.
  - destruct (leafSteps P V s address priv read write exec pa e pte ii)
      as [[[[c1 pa1] e1] m1]|] eqn:Hleaf; [|discriminate].
    apply leafSteps_memory in Hleaf.
    unfold cacheWalk, mbind, Outcome_bind.
    destruct Hleaf as [->|(-> & Hf & pte' & Hw)].
    + destruct c1; intros Heq; inversion Heq; left; reflexivity.
    + intros Heq. inversion Heq; subst. right. repeat split; [exact Hf|].
      exists size, 0, pte'. exact Hw.
Qed.

(** X9: a call of [translate] changes the memory by at most one write,
    made for [hartIx_]; it writes only on a successful walk, after a TLB
    miss, and never when [faultOnFirstAccess_] is set. *)
Theorem translate_writes_at_most_once s (va : Z) (priv : PrivilegeMode)
    (read write exec : bool) (pa : Z) (c : ExceptionCause) (pa' : Z)
    (s' : VirtMem.t M) :
  translate s va priv read write exec pa = Ret (c, pa', s') ->
  memory_ s' = memory_ s
  \/ (c = NONE /\ faultOnFirstAccess_ s = false /\
      fst (Tlb.findEntry (tlb_ s) (Z.shiftr va (pageBits_ s)) (asid_ s)) = None /\
      exists bytes addr value : Z,
        mem_write (memory_ s) (hartIx_ s) bytes addr value = Some (memory_ s')).
Proof.
  intros Htr. unfold translate in Htr.
  destruct (Tlb.findEntry (tlb_ s) (Z.shiftr va (pageBits_ s)) (asid_ s))
    as [[[i entry]|] tlb] eqn:Hfind.
  - left.
    assert (Hhit : ('(cause, pa0, entry0) ←
                      useTlbEntry s entry va priv read write exec pa;
                    Ret (cause, pa0, set_tlb (Tlb.update tlb i entry0) s))
                   = Ret (c, pa', s') -> memory_ s' = memory_ s).
    { destruct (useTlbEntry s entry va priv read write exec pa)
        as [[[c0 pa0] e0]|]; [|discriminate].
      intros Heq. inversion Heq. reflexivity. }
    destruct (mode_ s); [inversion Htr; reflexivity | exact (Hhit Htr) ..].
  - pose proof (findEntry_miss _ _ _ (f_equal fst Hfind)) as Hmiss.
    rewrite Hfind in Hmiss. inversion Hmiss; subst tlb. clear Hmiss.
    rewrite set_tlb_same in Htr.
    assert (Hfault : (c0 ← pageFaultType read write exec; Ret (c0, pa, s))
                     = Ret (c, pa', s') -> memory_ s' = memory_ s).
    { destruct (pageFaultType read write exec) as [c0|]; [|discriminate].
      intros Heq. inversion Heq. reflexivity. }
    assert (Hwalk : forall (P : PTE) (V : VA),
               cacheWalk s (pageTableWalk P V s va priv read write exec pa TlbEntry.default)
                 = Ret (c, pa', s') ->
               memory_ s' = memory_ s
               \/ (c = NONE /\ faultOnFirstAccess_ s = false /\ @None (nat * TlbEntry.t) = None /\
                   exists bytes addr value : Z,
                     mem_write (memory_ s) (hartIx_ s) bytes addr value = Some (memory_ s'))).
    { intros P V Hc. destruct (cacheWalk_memory P V _ _ _ _ _ _ _ _ _ _ _ Hc)
        as [Hm|(Hn & Hf & Hw)]; [left; exact Hm | right; repeat split; assumption]. }
    destruct (mode_ s); [inversion Htr; left; reflexivity | | | | discriminate | discriminate].
    + exact (Hwalk _ _ Htr).
    + destruct (negb (Z.shiftr va 39 =? _)); [left; exact (Hfault Htr)|].
      exact (Hwalk _ _ Htr).
    + destruct (negb (Z.shiftr va 48 =? _)); [left; exact (Hfault Htr)|].
      exact (Hwalk _ _ Htr).
Qed.

(** *** The physical address of a translation *)

Lemma pageTableWalk_carriesOffset (P : PTE) (V : VA)
    (Hshift : forall i sh : Z, paPpnShift i = Ret sh -> 12 <= sh)
    (Hoff : forall address n : Z, 0 <= n ->
              Z.testbit (offset (va_make address)) n = (n <? 12) && Z.testbit address n)
    s (address : Z) (priv : PrivilegeMode) a (pa : Z) (e0 : TlbEntry.t)
    (pa1 : Z) (e1 : TlbEntry.t) (m1 : M) :
  pageTableWalk P V s address priv (reads a) (writes a) (execs a) pa e0
    = Ret (NONE, pa1, e1, m1) ->
  carriesOffset address pa1.
Proof.
  unfold pageTableWalk.
  destruct (walkLoop P V s (va_make address) (reads a) (writes a) (execs a)
              (levels - 1) (u64 (pageTableRootPage_ s * pageSize_ s)))
    as [[c|pte ii]|] eqn:Hloop; unfold mbind, Outcome_bind; [| |discriminate].
  - apply walkLoop_returned in Hloop. intros Heq. inversion Heq; subst.
    destruct a; discriminate.
  - intros Hleaf. apply leafSteps_success in Hleaf.
    destruct Hleaf as (_ & _ & _ & pte' & pa0 & _ & Hv & Hp & _).
    eapply copyPpns_carriesOffset; [exact Hshift | | exact Hp].
    eapply copyVpns_carriesOffset; [exact Hshift | | exact Hv].
    apply carriesOffset_offset. exact Hoff.
Qed.

Lemma translate_miss_carriesOffset s (va : Z) (priv : PrivilegeMode) a (pa pa1 : Z)
    (s1 : VirtMem.t M) :
  fst (Tlb.findEntry (tlb_ s) (Z.shiftr va (pageBits_ s)) (asid_ s)) = None ->
  mode_ s <> Bare ->
  translate s va priv (reads a) (writes a) (execs a) pa = Ret (NONE, pa1, s1) ->
  carriesOffset va pa1.
Proof.
  intros Hmiss Hmode Htr. apply findEntry_miss in Hmiss.
  unfold translate in Htr. rewrite Hmiss, pageFaultType_access, set_tlb_same in Htr.
  assert (Hnofault : Ret (faultOf a, pa, s) <> Ret (NONE, pa1, s1)).
  { intros Heq. inversion Heq as [Hc]. destruct a; discriminate Hc. }
  assert (Hwalk : forall (P : PTE) (V : VA),
             (forall i sh : Z, paPpnShift i = Ret sh -> 12 <= sh) ->
             (forall address n : Z, 0 <= n ->
                Z.testbit (offset (va_make address)) n = (n <? 12) && Z.testbit address n) ->
             cacheWalk s (pageTableWalk P V s va priv (reads a) (writes a) (execs a) pa
                            TlbEntry.default) = Ret (NONE, pa1, s1) ->
             carriesOffset va pa1).
  { intros P V Hshift Hoff Hc.
    destruct (pageTableWalk P V s va priv (reads a) (writes a) (execs a) pa
                TlbEntry.default) as [[[[c pa'] e1] m1]|] eqn:Hw; [|discriminate].
    unfold cacheWalk, mbind, Outcome_bind in Hc.
    destruct c; inversion Hc; subst.
    exact (pageTableWalk_carriesOffset P V Hshift Hoff _ _ _ _ _ _ _ _ _ Hw). }
  destruct (mode_ s); [congruence | | | | discriminate | discriminate].
  - apply (Hwalk Pte32_PTE Va32_VA Pte32_shift_above_offset
             (fun address n => offset_field_bits 32 address n ltac:(lia)) Htr).
  - destruct (negb (Z.shiftr va 39 =? _)); [exfalso; exact (Hnofault Htr)|].
    apply (Hwalk Pte39_PTE Va39_VA Pte39_shift_above_offset
             (fun address n => offset_field_bits 64 address n ltac:(lia)) Htr).
  - destruct (negb (Z.shiftr va 48 =? _)); [exfalso; exact (Hnofault Htr)|].
    apply (Hwalk Pte48_PTE Va48_VA Pte48_shift_above_offset
             (fun address n => offset_field_bits 64 address n ltac:(lia)) Htr).
Qed.

Lemma land_4095_eq (x y : Z) :
  (forall n : Z, 0 <= n < 12 -> Z.testbit x n = Z.testbit y n) ->
  Z.land x 4095 = Z.land y 4095.
Proof.
  intros Hbits. apply Z.bits_inj'. intros n Hn.
  change 4095 with (Z.ones 12). rewrite !Z.land_spec, Z.testbit_ones_nonneg by lia.
  destruct (Z.ltb_spec n 12) as [Hlt|Hge].
  - rewrite Hbits by lia. reflexivity.
  - rewrite !andb_false_r. reflexivity.
Qed.

(** X10: with 4 KiB pages, every translation that succeeds, from the
    TLB or by a walk or in Bare mode, keeps the low 12 bits of the
    virtual address. *)
Theorem translate_keeps_page_offset s (va : Z) (priv : PrivilegeMode) a (pa pa1 : Z)
    (s1 : VirtMem.t M) :
  pageBits_ s = 12 -> pageMask_ s = 4095 ->
  translate s va priv (reads a) (writes a) (execs a) pa = Ret (NONE, pa1, s1) ->
  Z.land pa1 4095 = Z.land va 4095.
Proof.
  intros Hbits Hmask Htr.
  destruct (Tlb.findEntry (tlb_ s) (Z.shiftr va (pageBits_ s)) (asid_ s))
    as [[[i entry]|] tlb] eqn:Hfind.
  - destruct (mode_ s) eqn:Hmode;
      [unfold translate in Htr; rewrite Hmode in Htr; inversion Htr; reflexivity
      | rewrite (translate_hit s va priv _ _ _ pa i entry tlb) in Htr by (congruence || exact Hfind) ..].
    all: destruct (useTlbEntry_access s entry va priv a pa) as [Hu|Hu]; rewrite Hu in Htr;
      [exfalso; injection Htr as Hc _ _; destruct a; discriminate Hc|];
      injection Htr as Hpa _; subst pa1;
      unfold hitPa; rewrite Hbits, Hmask; apply land_4095_eq; intros n Hn;
      unfold u64, wrap; rewrite Z.lor_spec, Z.land_spec, Z.testbit_mod_pow2 by lia;
      rewrite Z.shiftl_spec_low by lia; change 4095 with (Z.ones 12);
      rewrite Z.testbit_ones_nonneg by lia;
      destruct (Z.ltb_spec n 12); [|lia];
      rewrite andb_false_r, andb_true_r; reflexivity.
  - destruct (mode_ s) eqn:Hmode;
      [unfold translate in Htr; rewrite Hmode in Htr; inversion Htr; reflexivity|..].
    all: apply land_4095_eq;
      apply (translate_miss_carriesOffset s va priv a pa pa1 s1);
      [rewrite Hfind; reflexivity | congruence | exact Htr].
Qed.

(** X11: a physical address produced by a page table walk is below
    [2^32], in Sv39 as in Sv32: the walk composes it from 32-bit
    values. *)
Theorem walk_address_below_4G s (va : Z) (priv : PrivilegeMode) a (pa pa1 : Z)
    (s1 : VirtMem.t M) :
  fst (Tlb.findEntry (tlb_ s) (Z.shiftr va (pageBits_ s)) (asid_ s)) = None ->
  mode_ s <> Bare ->
  translate s va priv (reads a) (writes a) (execs a) pa = Ret (NONE, pa1, s1) ->
  0 <= pa1 < 2 ^ 32.
Proof.
  intros Hmiss Hmode Htr.
  destruct (translate_miss_carriesOffset s va priv a pa pa1 s1 Hmiss Hmode Htr)
    as [_ Hhigh].
  assert (Heq : pa1 = pa1 mod 2 ^ 32).
  { apply Z.bits_inj'. intros n Hn. rewrite Z.testbit_mod_pow2 by lia.
    destruct (Z.ltb_spec n 32) as [Hlt|Hge]; [reflexivity|].
    rewrite Hhigh by lia. reflexivity. }
  rewrite Heq. apply Z.mod_pos_bound. lia.
Qed.

(** *** Superpages and permissions *)

Lemma lowPpnsZero_false (P : PTE) (pte : Z) (js : list nat) (j : nat) (p : Z) :
  Forall (fun i => returns (ppnAt pte (Z.of_nat i))) js ->
  j ∈ js -> ppnAt pte (Z.of_nat j) = Ret p -> p <> 0 ->
  lowPpnsZero P pte js = Ret false.
Proof.
  intros Hall. induction Hall as [|j0 js [p0 Hp0] _ IH]; intros Hj Hp Hne.
  - apply elem_of_nil in Hj. destruct Hj.
  - simpl. rewrite Hp0. unfold mbind, Outcome_bind.
    destruct (Z.eqb_spec p0 0) as [Hz|Hnz]; simpl; [|reflexivity].
    apply elem_of_cons in Hj. destruct Hj as [->|Hj]; [congruence|].
    apply IH; assumption.
Qed.

Lemma misaligned_leaf_faults (P : PTE) (V : VA) s (address : Z) (priv : PrivilegeMode)
    a (pa : Z) e (pte : Z) (ii j : nat) (p : Z) :
  (forall i : nat, (i < ii)%nat -> returns (ppnAt pte (Z.of_nat i))) ->
  (j < ii)%nat -> ppnAt pte (Z.of_nat j) = Ret p -> p <> 0 ->
  leafSteps P V s address priv (reads a) (writes a) (execs a) pa e pte ii
    = Ret (faultOf a, pa, e, memory_ s).
Proof.
  intros Hin Hj Hp Hne. unfold leafSteps. rewrite pageFaultType_access.
  unfold mbind at 1 2 3. unfold Outcome_bind at 1 2 3.
  destruct (isUser priv && negb (PteBits.user pte)); [reflexivity|].
  destruct (isSupervisor priv && PteBits.user pte && negb (supervisorOk_ s));
    [reflexivity|].
  match goal with |- context [if ?b then _ else _] => destruct b end; [reflexivity|].
  rewrite (lowPpnsZero_false P pte (seq 0 ii) j p); [reflexivity | | | exact Hp | exact Hne].
  - apply Forall_forall. intros i Hi. apply elem_of_seq in Hi. apply Hin. lia.
  - apply elem_of_seq. lia.
Qed.

Lemma walkLoop_leaf_le (P : PTE) (V : VA) s (va : Z) (read write exec : bool)
    (ii0 : nat) (root pte : Z) (ii : nat) :
  walkLoop P V s va read write exec ii0 root = Ret (Leaf pte ii) -> (ii <= ii0)%nat.
Proof.
  revert root. induction ii0 as [|ii0 IH]; intros root; cbn [walkLoop];
    (destruct (vpn va _) as [v|]; [|discriminate]);
    unfold mbind, Outcome_bind, returnFault;
    (destruct (pageFaultType read write exec) as [c0|];
     destruct (mem_read _ _ _) as [data|]; try discriminate;
     destruct (negb _ || _); try discriminate;
     destruct (negb _ && negb _); try discriminate).
  all: try (intros Heq; inversion Heq; lia).
  all: intros Heq; apply IH in Heq; lia.
Qed.

(** X12: a leaf found above the last level whose lower page-number
    fields are not all zero never translates: the walk returns the page
    fault of the access kind and touches neither [pa] nor the memory
    (Sv32: a level-1 leaf with [ppn0] not zero; Sv39: a level-1 or
    level-2 leaf with a lower [ppn] field not zero). *)
Theorem misaligned_superpage_faults s (address : Z) (priv : PrivilegeMode) a (pa : Z)
    e (pte : Z) (ii j : nat) (p : Z) :
  (j < ii)%nat -> p <> 0 ->
  (walkLoop Pte32_PTE Va32_VA s (u32 address) (reads a) (writes a) (execs a) 1
            (u64 (pageTableRootPage_ s * pageSize_ s)) = Ret (Leaf pte ii) ->
   Pte32.ppnAt pte (Z.of_nat j) = Ret p ->
   pageTableWalk Pte32_PTE Va32_VA s address priv (reads a) (writes a) (execs a) pa e
     = Ret (faultOf a, pa, e, memory_ s)) /\
  (walkLoop Pte39_PTE Va39_VA s (u64 address) (reads a) (writes a) (execs a) 2
            (u64 (pageTableRootPage_ s * pageSize_ s)) = Ret (Leaf pte ii) ->
   Pte39.ppnAt pte (Z.of_nat j) = Ret p ->
   pageTableWalk Pte39_PTE Va39_VA s address priv (reads a) (writes a) (execs a) pa e
     = Ret (faultOf a, pa, e, memory_ s)).
Proof.
  intros Hj Hne. split; intros Hloop Hp; unfold pageTableWalk.
  - change (@levels Pte32_PTE - 1)%nat with 1%nat.
    change (@va_make Va32_VA address) with (u32 address). rewrite Hloop.
    unfold mbind, Outcome_bind.
    apply (misaligned_leaf_faults Pte32_PTE Va32_VA s address priv a pa e pte ii j p);
      [|exact Hj | exact Hp | exact Hne].
    apply walkLoop_leaf_le in Hloop.
    intros i Hi. destruct i as [|i]; [eexists; reflexivity | lia].
  - change (@levels Pte39_PTE - 1)%nat with 2%nat.
    change (@va_make Va39_VA address) with (u64 address). rewrite Hloop.
    unfold mbind, Outcome_bind.
    apply (misaligned_leaf_faults Pte39_PTE Va39_VA s address priv a pa e pte ii j p);
      [|exact Hj | exact Hp | exact Hne].
    apply walkLoop_leaf_le in Hloop.
    intros i Hi. destruct i as [|[|i]]; [eexists; reflexivity .. | lia].
Qed.

Lemma pageFaultType_fault (read write exec : bool) (c : ExceptionCause) :
  pageFaultType read write exec = Ret c -> c <> NONE.
Proof. unfold pageFaultType. destruct exec, read, write; intros Heq; inversion Heq; discriminate. Qed.

(** X13: a translation served from the TLB succeeds only if the entry
    grants it: a user access needs the user flag, a supervisor access
    to a user page needs [supervisorOk_], a read needs the read flag
    or, with [execReadable_], the exec flag, a write the write flag, an
    execute the exec flag; and with [faultOnFirstAccess_] the entry must
    already be accessed and, for a write, dirty. *)
Theorem tlb_hit_grants s (va : Z) (priv : PrivilegeMode) (read write exec : bool)
    (pa pa' : Z) (s' : VirtMem.t M) (i : nat) entry (tlb : Tlb.t) :
  mode_ s <> Bare ->
  Tlb.findEntry (tlb_ s) (Z.shiftr va (pageBits_ s)) (asid_ s)
    = (Some (i, entry), tlb) ->
  translate s va priv read write exec pa = Ret (NONE, pa', s') ->
  (priv = User -> TlbEntry.user_ entry = true) /\
  (priv = Supervisor -> TlbEntry.user_ entry = true -> supervisorOk_ s = true) /\
  (read = true ->
   TlbEntry.read_ entry = true
   \/ (execReadable_ s = true /\ TlbEntry.exec_ entry = true)) /\
  (write = true -> TlbEntry.write_ entry = true) /\
  (exec = true -> TlbEntry.exec_ entry = true) /\
  (faultOnFirstAccess_ s = true ->
   TlbEntry.accessed_ entry = true /\ (write = true -> TlbEntry.dirty_ entry = true)).
Proof.
  intros Hmode Hfind Htr.
  rewrite (translate_hit s va priv _ _ _ pa i entry tlb Hmode Hfind) in Htr.
  destruct (useTlbEntry s entry va priv read write exec pa) as [[[c pa0] e0]|] eqn:Hu;
    [|discriminate].
  injection Htr as -> _ _. revert Hu. unfold useTlbEntry.
  assert (Hfault : (c0 ← pageFaultType read write exec; Ret (c0, pa, entry))
                   <> Ret (NONE, pa0, e0)).
  { destruct (pageFaultType read write exec) as [c0|] eqn:Hc; [|discriminate].
    apply pageFaultType_fault in Hc. intros Heq. inversion Heq. congruence. }
  destruct (isUser priv && negb (TlbEntry.user_ entry)) eqn:H1;
    [intros Heq; destruct (Hfault Heq)|].
  destruct (isSupervisor priv && TlbEntry.user_ entry && negb (supervisorOk_ s)) eqn:H2;
    [intros Heq; destruct (Hfault Heq)|].
  destruct ((read && negb (TlbEntry.read_ entry
                           || (execReadable_ s && TlbEntry.exec_ entry)))
            || (write && negb (TlbEntry.write_ entry))
            || (exec && negb (TlbEntry.exec_ entry))) eqn:H3;
    [intros Heq; destruct (Hfault Heq)|].
  destruct (negb (TlbEntry.accessed_ entry)
            || (write && negb (TlbEntry.dirty_ entry))) eqn:H4.
  - destruct (faultOnFirstAccess_ s) eqn:H5; [intros Heq; destruct (Hfault Heq)|].
    intros _. clear Hfault. repeat split.
    + intros ->. destruct (TlbEntry.user_ entry); [reflexivity | discriminate H1].
    + intros -> Hu. rewrite Hu in H2. destruct (supervisorOk_ s); [reflexivity | discriminate H2].
    + intros ->. destruct (TlbEntry.read_ entry), (execReadable_ s), (TlbEntry.exec_ entry);
        simpl in H3; try discriminate H3; auto.
    + intros ->. destruct read, (TlbEntry.read_ entry), (execReadable_ s), (TlbEntry.exec_ entry),
        (TlbEntry.write_ entry); simpl in H3; try discriminate H3; reflexivity.
    + intros ->. destruct read, write, (TlbEntry.read_ entry), (execReadable_ s),
        (TlbEntry.exec_ entry), (TlbEntry.write_ entry); simpl in H3;
        try discriminate H3; reflexivity.
    + discriminate.
    + discriminate.
  - intros _. clear Hfault. repeat split.
    + intros ->. destruct (TlbEntry.user_ entry); [reflexivity | discriminate H1].
    + intros -> Hu. rewrite Hu in H2. destruct (supervisorOk_ s); [reflexivity | discriminate H2].
    + intros ->. destruct (TlbEntry.read_ entry), (execReadable_ s), (TlbEntry.exec_ entry);
        simpl in H3; try discriminate H3; auto.
    + intros ->. destruct read, (TlbEntry.read_ entry), (execReadable_ s), (TlbEntry.exec_ entry),
        (TlbEntry.write_ entry); simpl in H3; try discriminate H3; reflexivity.
    + intros ->. destruct read, write, (TlbEntry.read_ entry), (execReadable_ s),
        (TlbEntry.exec_ entry), (TlbEntry.write_ entry); simpl in H3;
        try discriminate H3; reflexivity.
    + destruct (TlbEntry.accessed_ entry); [reflexivity | discriminate H4].
    + intros ->. destruct (TlbEntry.accessed_ entry), (TlbEntry.dirty_ entry);
        simpl in H4; try discriminate H4; reflexivity.
Qed.

(** X14: the TLB entry that a successful walk fills in is valid and
    accessed, is tagged with the virtual page, the physical page of
    [pa] and the 32-bit address space, and carries flags that grant the
    request that was walked: user for a user access, [supervisorOk_]
    for a supervisor access to a user page, read (or exec under
    [execReadable_]) for a read, write and dirty for a write. *)
Theorem walk_entry_grants (P : PTE) (V : VA) s (address : Z) (priv : PrivilegeMode)
    a (pa : Z) (e0 : TlbEntry.t) (pa1 : Z) (e1 : TlbEntry.t) (m1 : M) :
  pageTableWalk P V s address priv (reads a) (writes a) (execs a) pa e0
    = Ret (NONE, pa1, e1, m1) ->
  TlbEntry.valid_ e1 = true /\ TlbEntry.accessed_ e1 = true /\
  TlbEntry.virtPageNum_ e1 = Z.shiftr address (pageBits_ s) /\
  TlbEntry.physPageNum_ e1 = Z.shiftr pa1 (pageBits_ s) /\
  TlbEntry.asid_ e1 = asid_ s mod 2 ^ 32 /\
  (priv = User -> TlbEntry.user_ e1 = true) /\
  (priv = Supervisor -> TlbEntry.user_ e1 = true -> supervisorOk_ s = true) /\
  (a = AccRead ->
   TlbEntry.read_ e1 = true \/ (execReadable_ s = true /\ TlbEntry.exec_ e1 = true)) /\
  (a = AccWrite -> TlbEntry.write_ e1 = true /\ TlbEntry.dirty_ e1 = true).
Proof.
  unfold pageTableWalk.
  destruct (walkLoop P V s (va_make address) (reads a) (writes a) (execs a)
              (levels - 1) (u64 (pageTableRootPage_ s * pageSize_ s)))
    as [[c|pte ii]|] eqn:Hloop; unfold mbind, Outcome_bind; [| |discriminate].
  - apply walkLoop_returned in Hloop. intros Heq. inversion Heq; subst.
    destruct a; discriminate.
  - intros Hleaf. apply leafSteps_success in Hleaf.
    destruct Hleaf as (H1 & H2 & H3 & pte' & pa0 & Hupd & _ & _ & ->).
    apply updateAccessedDirty_flags in Hupd.
    destruct Hupd as (Hu & Hr & Hw & Hx & Hacc & Hd).
    cbn [fillTlbEntry TlbEntry.valid_ TlbEntry.accessed_ TlbEntry.virtPageNum_
         TlbEntry.physPageNum_ TlbEntry.asid_ TlbEntry.user_ TlbEntry.read_
         TlbEntry.write_ TlbEntry.exec_ TlbEntry.dirty_].
    rewrite Hu, Hr, Hw, Hx, Hacc.
    do 5 (split; [reflexivity|]). split; [|split; [|split]].
    + intros ->. destruct (PteBits.user pte); [reflexivity | discriminate H1].
    + intros -> Hup. rewrite Hup in H2.
      destruct (supervisorOk_ s); [reflexivity | discriminate H2].
    + intros ->. simpl in H3. destruct (PteBits.read pte), (execReadable_ s),
        (PteBits.exec pte); simpl in H3; try discriminate H3; auto.
    + intros ->. simpl in H3. split; [|apply Hd; reflexivity].
      destruct (PteBits.write pte); [reflexivity | discriminate H3].
Qed.

End Generic.

End TranslateMore.

(** ** The decoders of entries and addresses ([VirtMem.hpp]) *)

Module DecoderMore.

Import Machine MachineFacts Vocabulary PteFacts.

Lemma field_div_mod (lo w d : Z) :
  0 <= lo -> 0 <= w -> field lo w d = (d / 2 ^ lo) mod 2 ^ w.
Proof.
  intros Hlo Hw. unfold field.
  rewrite Z.land_ones, Z.shiftr_div_pow2 by lia. reflexivity.
Qed.

Lemma field_split (lo w1 w2 d : Z) :
  0 <= lo -> 0 <= w1 -> 0 <= w2 ->
  field lo (w1 + w2) d = field lo w1 d + 2 ^ w1 * field (lo + w1) w2 d.
Proof.
  intros Hlo H1 H2. rewrite !field_div_mod by lia.
  assert (0 < 2 ^ lo) by (apply Z.pow_pos_nonneg; lia).
  assert (0 < 2 ^ w1) by (apply Z.pow_pos_nonneg; lia).
  assert (0 < 2 ^ w2) by (apply Z.pow_pos_nonneg; lia).
  rewrite (Z.pow_add_r 2 w1 w2), (Z.pow_add_r 2 lo w1) by lia.
  rewrite Z.rem_mul_r by lia. rewrite Z.div_div by lia. reflexivity.
Qed.

(** X15: the fields of a virtual address, put back at their bit
    positions.  Offset and two 10-bit page numbers make the 32 bits of
    an Sv32 address.  Of an Sv39 address the offset, [vpn0] and [vpn1]
    make bits 0 to 29 and [vpn2] is bits 32 to 40: with bits 30 and 31,
    which no field holds, they make the low 41 bits.  Each field is
    below its width. *)
Theorem va_fields_recompose (d : Z) :
  (d mod 2 ^ 32 = Va32.offset d + 2 ^ 12 * Va32.vpn0 d + 2 ^ 22 * Va32.vpn1 d /\
   0 <= Va32.offset d < 2 ^ 12 /\ 0 <= Va32.vpn0 d < 2 ^ 10 /\
   0 <= Va32.vpn1 d < 2 ^ 10) /\
  (d mod 2 ^ 41 = Va39.offset d + 2 ^ 12 * Va39.vpn0 d + 2 ^ 21 * Va39.vpn1 d
                  + 2 ^ 30 * field 30 2 d + 2 ^ 32 * Va39.vpn2 d /\
   0 <= Va39.offset d < 2 ^ 12 /\ 0 <= Va39.vpn0 d < 2 ^ 9 /\
   0 <= Va39.vpn1 d < 2 ^ 9 /\ 0 <= Va39.vpn2 d < 2 ^ 9).
Proof.
  split.
  - unfold Va32.offset, Va32.vpn0, Va32.vpn1.
    split; [|repeat split; apply field_range; lia].
    transitivity (field 0 32 d).
    { rewrite field_div_mod by lia. rewrite Z.pow_0_r, Z.div_1_r. reflexivity. }
    change 32 with (12 + (10 + 10)).
    rewrite (field_split 0 12 (10 + 10)), (field_split (0 + 12) 10 10) by lia.
    change (0 + 12) with 12. change (12 + 10) with 22.
    change (2 ^ 22) with (2 ^ 12 * 2 ^ 10). ring.
  - unfold Va39.offset, Va39.vpn0, Va39.vpn1, Va39.vpn2.
    split; [|repeat split; apply field_range; lia].
    transitivity (field 0 41 d).
    { rewrite field_div_mod by lia. rewrite Z.pow_0_r, Z.div_1_r. reflexivity. }
    change 41 with (12 + (9 + (9 + (2 + 9)))).
    rewrite (field_split 0 12 (9 + (9 + (2 + 9)))),
      (field_split (0 + 12) 9 (9 + (2 + 9))),
      (field_split (0 + 12 + 9) 9 (2 + 9)),
      (field_split (0 + 12 + 9 + 9) 2 9) by lia.
    change (0 + 12) with 12. change (12 + 9) with 21. change (21 + 9) with 30.
    change (30 + 2) with 32.
    change (2 ^ 21) with (2 ^ 12 * 2 ^ 9).
    change (2 ^ 30) with (2 ^ 12 * (2 ^ 9 * 2 ^ 9)).
    change (2 ^ 32) with (2 ^ 12 * (2 ^ 9 * (2 ^ 9 * 2 ^ 2))).
    ring.
Qed.

Lemma testbit_field (lo w d n : Z) :
  0 <= lo -> 0 <= w -> 0 <= n ->
  Z.testbit (field lo w d) n = (n <? w) && Z.testbit d (n + lo).
Proof.
  intros Hlo Hw Hn. unfold field.
  rewrite Z.land_spec, Z.shiftr_spec, Z.testbit_ones_nonneg by lia.
  apply andb_comm.
Qed.

Lemma testbit_shl_field (lo w k d n : Z) :
  0 <= k <= lo -> 0 <= w -> 0 <= n ->
  Z.testbit (Z.shiftl (field lo w d) k) n
  = (k <=? n) && (n - k <? w) && Z.testbit d (n + (lo - k)).
Proof.
  intros Hk Hw Hn. rewrite Z.shiftl_spec by lia.
  destruct (Z.leb_spec k n) as [Hle|Hlt]; simpl.
  - rewrite testbit_field by lia. replace (n - k + lo) with (n + (lo - k)) by lia.
    reflexivity.
  - apply Z.testbit_neg_r. lia.
Qed.

Ltac ppn_bits :=
  apply Z.bits_inj'; intros n Hn;
  unfold u32, wrap;
  rewrite ?Z.lor_spec, ?Z.testbit_mod_pow2 by lia;
  rewrite ?testbit_shl_field by lia;
  rewrite ?testbit_field by lia;
  simpl Z.sub;
  repeat match goal with
    | |- context [?x <? ?y] => destruct (Z.ltb_spec x y)
    | |- context [?x <=? ?y] => destruct (Z.leb_spec x y)
    end; simpl; try lia;
  rewrite ?orb_false_r, ?orb_true_r; try reflexivity;
  repeat match goal with
    | |- context [Z.testbit ?a ?b] => destruct (Z.testbit a b)
    end; reflexivity.

(** X16: [ppn()] of an Sv32 entry is the 22 bits from bit 10.  Of an
    Sv39 or Sv48 entry it is 32 bits: bits 10 to 27 of the entry, and
    above them bits 32 to 45, since [ppn2_] starts at bit 32 and the
    fields are shifted and joined as 32-bit values; bits 28 to 31 of
    the entry and the bits of the page number from bit 46 up are not
    in it. *)
Theorem ppn_is_low_bits (d : Z) :
  Pte32.ppn d = field 10 22 d /\
  Pte39.ppn d = Z.lor (field 10 18 d) (Z.shiftl (field 32 14 d) 18) /\
  Pte48.ppn d = Z.lor (field 10 18 d) (Z.shiftl (field 32 14 d) 18).
Proof.
  split; [|split].
  - unfold Pte32.ppn, Pte32.ppn0, Pte32.ppn1. ppn_bits.
  - unfold Pte39.ppn, Pte39.ppn0, Pte39.ppn1, Pte39.ppn2. ppn_bits.
  - unfold Pte48.ppn, Pte48.ppn0, Pte48.ppn1, Pte48.ppn2, Pte48.ppn3. ppn_bits.
Qed.

Lemma field_setbit_outside (lo w i d : Z) :
  0 <= lo -> 0 <= w -> 0 <= i -> i < lo \/ lo + w <= i ->
  field lo w (setbit i d) = field lo w d.
Proof.
  intros Hlo Hw Hi Hout. apply Z.bits_inj'. intros n Hn.
  rewrite !testbit_field, testbit_setbit by lia.
  destruct (Z.ltb_spec n w) as [Hlt|Hge]; simpl; [|reflexivity].
  destruct (Z.eqb_spec i (n + lo)) as [Heq|Hne]; [lia|].
  apply orb_false_r.
Qed.

(** X17: setting the accessed or the dirty bit of an entry changes no
    page-number field, in any of the three formats, and no other
    flag. *)
Theorem accessed_dirty_keep_fields (d i : Z) :
  let a := PteBits.set_accessed d in
  let b := PteBits.set_dirty d in
  (Pte32.ppnAt a i = Pte32.ppnAt d i /\ Pte32.ppnAt b i = Pte32.ppnAt d i /\
   Pte32.ppn a = Pte32.ppn d /\ Pte32.ppn b = Pte32.ppn d) /\
  (Pte39.ppnAt a i = Pte39.ppnAt d i /\ Pte39.ppnAt b i = Pte39.ppnAt d i /\
   Pte39.ppn a = Pte39.ppn d /\ Pte39.ppn b = Pte39.ppn d) /\
  (Pte48.ppnAt a i = Pte48.ppnAt d i /\ Pte48.ppnAt b i = Pte48.ppnAt d i /\
   Pte48.ppn a = Pte48.ppn d /\ Pte48.ppn b = Pte48.ppn d) /\
  flagsOf a = mkFlags (PteBits.valid d) (PteBits.read d) (PteBits.write d)
                      (PteBits.exec d) (PteBits.user d) (PteBits.global d)
                      true (PteBits.dirty d) /\
  flagsOf b = mkFlags (PteBits.valid d) (PteBits.read d) (PteBits.write d)
                      (PteBits.exec d) (PteBits.user d) (PteBits.global d)
                      (PteBits.accessed d) true.
Proof.
  cbv zeta. unfold PteBits.set_accessed, PteBits.set_dirty.
  unfold Pte32.ppnAt, Pte32.ppn, Pte32.ppn0, Pte32.ppn1,
    Pte39.ppnAt, Pte39.ppn, Pte39.ppn0, Pte39.ppn1, Pte39.ppn2,
    Pte48.ppnAt, Pte48.ppn, Pte48.ppn0, Pte48.ppn1, Pte48.ppn2, Pte48.ppn3.
  rewrite !field_setbit_outside by lia.
  repeat split.
  - apply flagsOf_set_accessed.
  - apply flagsOf_set_dirty.
Qed.

End DecoderMore.

(** ** The vector register file ([VecRegs.hpp]) *)

Module VecMore.

Import Machine MachineFacts VecRegs MoreVocabulary.

Lemma storeElem_length data off n v d :
  storeElem data off n v = Some d -> length d = length data.
Proof.
  revert data off v. induction n as [|n IH]; intros data off v; simpl.
  - intros [= <-]. reflexivity.
  - destruct (decide _); [|discriminate]. intros Hs. apply IH in Hs.
    rewrite Hs. apply length_insert.
Qed.

Lemma storeElem_outside data off n v d (i : nat) :
  storeElem data off n v = Some d -> (i < off \/ off + n <= i)%nat ->
  d !! i = data !! i.
Proof.
  revert data off v. induction n as [|n IH]; intros data off v; simpl.
  - intros [= <-] _. reflexivity.
  - destruct (decide _); [|discriminate]. intros Hs Hi.
    rewrite (IH _ _ _ Hs) by lia. apply list_lookup_insert_ne. lia.
Qed.

Lemma storeElem_some data off n v :
  (off + n <= length data)%nat -> is_Some (storeElem data off n v).
Proof.
  revert data off v. induction n as [|n IH]; intros data off v Hfit; simpl.
  - eexists; reflexivity.
  - destruct (decide _) as [Hlt|Hge]; [|lia].
    apply IH. rewrite length_insert. lia.
Qed.

Lemma loadElem_some data off n :
  (off + n <= length data)%nat -> is_Some (loadElem data off n).
Proof.
  revert off. induction n as [|n IH]; intros off Hfit; simpl.
  - eexists; reflexivity.
  - destruct (lookup_lt_is_Some_2 data off ltac:(lia)) as [b Hb].
    destruct (IH (S off) ltac:(lia)) as [rest Hrest].
    rewrite Hb, Hrest. simpl. eexists; reflexivity.
Qed.

Lemma loadElem_none data off n :
  (0 < n)%nat -> (length data < off + n)%nat -> loadElem data off n = None.
Proof.
  revert off. induction n as [|n IH]; intros off Hpos Hout; [lia|]. simpl.
  destruct (data !! off) as [b|] eqn:Hb; [|reflexivity]. simpl.
  apply lookup_lt_Some in Hb.
  rewrite (IH (S off)) by lia. reflexivity.
Qed.

Lemma storeElem_none data off n v :
  (0 < n)%nat -> (length data < off + n)%nat -> storeElem data off n v = None.
Proof.
  revert data off v. induction n as [|n IH]; intros data off v Hpos Hout; [lia|]. simpl.
  destruct (decide _) as [Hlt|Hge]; [|reflexivity].
  apply IH; rewrite ?length_insert; lia.
Qed.

Lemma load_store data off n v d :
  storeElem data off n v = Some d -> 0 <= v < 256 ^ Z.of_nat n ->
  loadElem d off n = Some v.
Proof.
  revert data off v. induction n as [|n IH]; intros data off v; simpl.
  - intros _ Hv. change (256 ^ Z.of_nat 0) with 1 in Hv. f_equal. lia.
  - destruct (decide _) as [Hlt|Hge]; [|discriminate]. intros Hs Hv.
    rewrite Nat2Z.inj_succ, Z.pow_succ_r in Hv by lia.
    rewrite (storeElem_outside _ _ _ _ _ off Hs) by lia.
    rewrite list_lookup_insert_eq by exact Hlt. simpl.
    rewrite (IH _ _ _ Hs).
    + simpl. f_equal. pose proof (Z.div_mod v 256). lia.
    + split; [apply Z.div_pos; lia | apply Z.div_lt_upper_bound; lia].
Qed.

(** X18: the two conversions of a group multiplier undo each other:
    every multiplier but the reserved one is given back from its number
    scaled by eight, the reserved one has the number 0, which no symbol
    answers; and a number that is given a symbol is the number of that
    symbol. *)
Theorem group_symbol_round_trip (g sym : GroupMultiplier) (x : Z) :
  groupNumberX8ToSymbol (groupMultiplierX8 g) sym
  = match g with Reserved => (false, sym) | _ => (true, g) end /\
  (if fst (groupNumberX8ToSymbol x sym)
   then groupMultiplierX8 (snd (groupNumberX8ToSymbol x sym)) = x
   else snd (groupNumberX8ToSymbol x sym) = sym).
Proof.
  split.
  - destruct g; reflexivity.
  - unfold groupNumberX8ToSymbol.
    repeat match goal with
      | |- context [x =? ?k] => destruct (Z.eqb_spec x k) as [->|?]
      end; reflexivity.
Qed.

(** X19: [doubleSew] fails for the widest element only and then
    leaves its out-parameter; otherwise the width it gives has twice the
    bytes of the given one. *)
Theorem doubleSew_doubles (sew dsew : ElementWidth) :
  match sew with
  | Kbits => doubleSew sew dsew = (false, dsew)
  | _ => fst (doubleSew sew dsew) = true /\
         elementWidthInBytes (snd (doubleSew sew dsew)) = 2 * elementWidthInBytes sew
  end.
Proof. destruct sew; simpl; try (split; reflexivity); reflexivity. Qed.

Lemma refused_set s sizeofT regNum elemIx groupX8 d r w i :
  refused (set_last r w i (set_data d s)) sizeofT regNum elemIx groupX8
  = refused s sizeofT regNum elemIx groupX8.
Proof. reflexivity. Qed.

(** X20: an element that [write] accepts is what [read] of the same
    register, index and group gives afterwards; the write keeps the size
    of the array and every byte outside the element, and records the
    register, the width in bits and the index as the last write. *)
Theorem write_then_read (s s' : VecRegs.t) (sizeofT regNum elemIx groupX8 v v0 : Z) :
  write s sizeofT regNum elemIx groupX8 v = Some (true, s') ->
  0 <= v < 256 ^ sizeofT ->
  read s' sizeofT regNum elemIx groupX8 v0 = Some (true, v) /\
  length (data_ s') = length (data_ s) /\
  (forall i : nat,
     (Z.of_nat i < elemOffset s sizeofT regNum elemIx
      \/ elemOffset s sizeofT regNum elemIx + sizeofT <= Z.of_nat i) ->
     0 <= elemOffset s sizeofT regNum elemIx ->
     data_ s' !! i = data_ s !! i) /\
  lastWrittenReg_ s' = toInt regNum /\
  lastElemWidth_ s' = u32 (sizeofT * 8) /\
  lastElemIx_ s' = elemIx.
Proof.
  intros Hw Hv.
  assert (Hsz : 0 <= sizeofT).
  { destruct (Z.leb_spec 0 sizeofT) as [?|Hneg]; [assumption|].
    rewrite Z.pow_neg_r in Hv by lia. lia. }
  unfold write in Hw.
  destruct (refused s sizeofT regNum elemIx groupX8) eqn:Href; [discriminate|].
  destruct (storeElem _ _ _ _) as [d|] eqn:Hs; [|discriminate].
  simpl in Hw. injection Hw as <-.
  split; [|split; [|split; [|repeat split]]].
  - unfold read. rewrite refused_set, Href.
    change (elemOffset (set_last _ _ _ (set_data d s)) sizeofT regNum elemIx)
      with (elemOffset s sizeofT regNum elemIx).
    change (data_ (set_last _ _ _ (set_data d s))) with d.
    rewrite (load_store _ _ _ _ _ Hs); [reflexivity|].
    rewrite Z2Nat.id by exact Hsz. exact Hv.
  - simpl. exact (storeElem_length _ _ _ _ _ Hs).
  - intros i Hi Hoff. simpl.
    apply (storeElem_outside _ _ _ _ _ i Hs). lia.
Qed.

(** X21: when the element index is not the largest unsigned value,
    an element that passes the two tests of [read] and [write] lies
    inside the array: both calls return [true], the read with a value
    and the write with a file. *)
Theorem accepted_element_in_array (s : VecRegs.t)
    (sizeofT regNum elemIx groupX8 v v0 : Z) :
  wellFormed s ->
  0 < sizeofT < 2 ^ 16 -> 0 <= regNum -> 0 <= elemIx < 2 ^ 32 - 1 ->
  refused s sizeofT regNum elemIx groupX8 = false ->
  (exists x : Z, read s sizeofT regNum elemIx groupX8 v0 = Some (true, x)) /\
  (exists s' : VecRegs.t, write s sizeofT regNum elemIx groupX8 v = Some (true, s')).
Proof.
  intros (HB & HR & Htot & Hlen) Hsz Hreg Hix Href.
  pose proof Href as Hsecond.
  unfold refused in Hsecond. apply orb_false_iff in Hsecond as [_ Hsecond].
  apply Z.ltb_ge in Hsecond. unfold u32, u64 in Hsecond.
  pose proof (wrap_range 32 (regNum * bytesPerReg_ s) ltac:(lia)) as Hoff.
  rewrite (wrap_small 32 (bytesPerReg_ s * regCount_ s)) in Hsecond by nia.
  rewrite (wrap_small 32 (elemIx + 1)) in Hsecond by lia.
  assert (Hprod : 0 <= (elemIx + 1) * sizeofT < 2 ^ 48) by nia.
  rewrite (wrap_small 64 ((elemIx + 1) * sizeofT)) in Hsecond by lia.
  rewrite (wrap_small 64) in Hsecond by lia.
  assert (Hfit : (Z.to_nat (elemOffset s sizeofT regNum elemIx) + Z.to_nat sizeofT
                  <= length (data_ s))%nat).
  { unfold elemOffset, u32. nia. }
  split.
  - destruct (loadElem_some _ _ _ Hfit) as [x Hx].
    exists x. unfold read. rewrite Href, Hx. reflexivity.
  - destruct (storeElem_some _ _ _ v Hfit) as [d Hd].
    eexists. unfold write. rewrite Href, Hd. reflexivity.
Qed.

(** X22: the element index [2^32 - 1] passes both tests of [read]
    and [write] for every register of the file, since [elemIx + 1] wraps
    to 0; the element lies outside the array, so the access that follows
    is not defined. *)
Theorem largest_index_leaves_array (s : VecRegs.t)
    (sizeofT regNum groupX8 v v0 : Z) :
  wellFormed s ->
  0 < sizeofT < 2 ^ 16 -> 0 <= regNum < regCount_ s ->
  refused s sizeofT regNum (2 ^ 32 - 1) groupX8 = false /\
  read s sizeofT regNum (2 ^ 32 - 1) groupX8 v0 = None /\
  write s sizeofT regNum (2 ^ 32 - 1) groupX8 v = None.
Proof.
  intros (HB & HR & Htot & Hlen) Hsz Hreg.
  assert (Href : refused s sizeofT regNum (2 ^ 32 - 1) groupX8 = false).
  { unfold refused. change (u32 (2 ^ 32 - 1 + 1)) with 0.
    rewrite Z.mul_0_l. change (u64 0) with 0. rewrite Z.add_0_r.
    apply orb_false_iff. split; apply Z.ltb_ge.
    - apply Z.shiftr_nonneg. apply wrap_range. lia.
    - unfold u32, u64. rewrite (wrap_small 32 (regNum * bytesPerReg_ s)) by nia.
      rewrite (wrap_small 32 (bytesPerReg_ s * regCount_ s)) by nia.
      rewrite wrap_small by nia. nia. }
  assert (Hout : (length (data_ s)
                  < Z.to_nat (elemOffset s sizeofT regNum (2 ^ 32 - 1))
                    + Z.to_nat sizeofT)%nat).
  { unfold elemOffset, u32. rewrite (wrap_small 32 (regNum * bytesPerReg_ s)) by nia.
    nia. }
  split; [exact Href|]. split.
  - unfold read. rewrite Href. rewrite loadElem_none; [reflexivity | lia | exact Hout].
  - unfold write. rewrite Href. rewrite storeElem_none; [reflexivity | lia | exact Hout].
Qed.

Lemma groupNumber_inv x sym g :
  groupNumberX8ToSymbol x sym = (true, g) -> g <> Reserved /\ groupMultiplierX8 g = x.
Proof.
  unfold groupNumberX8ToSymbol.
  repeat match goal with
    | |- context [x =? ?k] => destruct (Z.eqb_spec x k) as [->|?]
    end; intros [= <-]; split; (discriminate || reflexivity).
Qed.

Lemma groupNumber_of g sym :
  g <> Reserved -> groupNumberX8ToSymbol (groupMultiplierX8 g) sym = (true, g).
Proof. destruct g; intros Hg; try reflexivity. contradiction Hg; reflexivity. Qed.

(** X23: [isDoubleWideLegal] answers [true] exactly when twice the
    scaled multiplier, taken as a 32-bit value, is the number of a
    multiplier other than the reserved one, the width is not the widest,
    and the table of legal configurations holds [true] for the next
    width and that multiplier. *)
Theorem isDoubleWideLegal_iff (s : VecRegs.t) (sew : ElementWidth) (groupX8 : Z) :
  isDoubleWideLegal s sew groupX8 = true <->
  exists (emul : GroupMultiplier) (eew : ElementWidth),
    emul <> Reserved /\ groupMultiplierX8 emul = u32 (groupX8 * 2) /\
    widthValue eew = widthValue sew + 1 /\
    legalConfig s eew emul = true.
Proof.
  unfold isDoubleWideLegal. split.
  - destruct (groupNumberX8ToSymbol (u32 (groupX8 * 2)) One) as [ok emul] eqn:Hg.
    destruct ok; simpl; [|discriminate].
    apply groupNumber_inv in Hg as [Hres Hg].
    destruct (doubleSew sew sew) as [ok eew] eqn:Hd.
    destruct ok; simpl; [|discriminate].
    intros Hlegal. exists emul, eew. repeat split; try assumption.
    destruct sew; simpl in Hd; try discriminate Hd; injection Hd as <-; reflexivity.
  - intros (emul & eew & Hres & Hg & Hw & Hlegal).
    rewrite <- Hg, (groupNumber_of _ _ Hres). simpl.
    assert (Hd : doubleSew sew sew = (true, eew)).
    { destruct sew, eew; simpl in Hw; try discriminate Hw; reflexivity. }
    rewrite Hd. simpl. exact Hlegal.
Qed.

(** X24: for a mask register of the file and an element index below
    eight times the bytes of a register, [isActive] is bit [ix mod 8] of
    byte [ix / 8] of that register; for any other register or index it
    is [false], and no byte is read. *)
Theorem isActive_reads_mask_bit (s : VecRegs.t) (maskReg ix : Z) :
  wellFormed s -> 0 <= maskReg -> 0 <= ix ->
  if (maskReg <? regCount_ s) && (ix <? 8 * bytesPerReg_ s)
  then exists b : Z,
         data_ s !! Z.to_nat (maskReg * bytesPerReg_ s + ix / 8) = Some b /\
         isActive s maskReg ix = Some (Z.testbit b (ix mod 8))
  else isActive s maskReg ix = Some false.
Proof.
  intros (HB & HR & Htot & Hlen) Hreg Hix. unfold isActive.
  rewrite Z.shiftr_div_pow2 by lia. change (2 ^ 3) with 8.
  change 7 with (Z.ones 3). rewrite Z.land_ones by lia. change (2 ^ 3) with 8.
  pose proof (Z.div_mod ix 8 ltac:(lia)) as Hdm.
  pose proof (Z.mod_pos_bound ix 8 ltac:(lia)) as Hmod.
  destruct (Z.ltb_spec maskReg (regCount_ s)) as [Hlt|Hge]; simpl.
  - destruct (Z.leb_spec (regCount_ s) maskReg) as [?|_]; [lia|].
    destruct (Z.ltb_spec ix (8 * bytesPerReg_ s)) as [Hlt'|Hge'].
    + destruct (Z.leb_spec (bytesPerReg_ s) (ix / 8)) as [?|_]; [lia|].
      unfold u32. rewrite wrap_small by nia.
      destruct (lookup_lt_is_Some_2 (data_ s)
                  (Z.to_nat (maskReg * bytesPerReg_ s + ix / 8)) ltac:(nia)) as [b Hb].
      exists b. split; [exact Hb|]. rewrite Hb. simpl. f_equal.
      change (Z.land (Z.shiftr b (ix mod 8)) 1) with (field (ix mod 8) 1 b).
      apply flag_testbit. lia.
    + destruct (Z.leb_spec (bytesPerReg_ s) (ix / 8)) as [_|?]; [reflexivity|lia].
  - destruct (Z.leb_spec (regCount_ s) maskReg) as [_|?]; [reflexivity|lia].
Qed.

(** X25: after [clearLastWrittenReg] no register is reported and the
    out-parameters are left; after [setLastWrittenReg] the register, the
    index and the width are reported when the register number is below
    [2^31], and otherwise, the number being negative as an [int], none
    is. *)
Theorem last_written_bookkeeping (s : VecRegs.t) (reg ix w i0 w0 : Z) :
  0 <= reg < 2 ^ 32 ->
  getLastWrittenReg (clearLastWrittenReg s) i0 w0 = (-1, i0, w0) /\
  getLastWrittenReg (setLastWrittenReg s reg ix w) i0 w0
  = if reg <? 2 ^ 31 then (reg, ix, w) else (-1, i0, w0).
Proof.
  intros Hreg. split; [reflexivity|].
  unfold getLastWrittenReg, setLastWrittenReg. simpl.
  destruct (Z.ltb_spec reg (2 ^ 31)) as [Hlt|Hge].
  - assert (Hint : toInt reg = reg).
    { unfold toInt. rewrite Z.mod_small by lia. lia. }
    rewrite Hint. destruct (Z.leb_spec 0 reg); [reflexivity | lia].
  - assert (Hint : toInt reg = reg - 2 ^ 32).
    { unfold toInt.
      replace (reg + 2 ^ 31) with (reg - 2 ^ 31 + 1 * 2 ^ 32) by lia.
      rewrite Z.mod_add by lia. rewrite Z.mod_small by lia. lia. }
    rewrite Hint. destruct (Z.leb_spec 0 (reg - 2 ^ 32)); [lia | reflexivity].
Qed.

End VecMore.

(** ** Translation in mode Sv48, and the call after a walk *)

Module WalkMore.

Import Machine MachineFacts VirtMem Vocabulary TranslateFacts TranslateMore.

Section Generic.

Context {M : Type} `{MemoryModel M}.

Lemma copyPpns48_stops (pte pa : Z) (js : list nat) :
  3%nat ∈ js -> exists e : Abnormal, copyPpns Pte48_PTE pte pa js = Stop e.
Proof.
  revert pa. induction js as [|j js IH]; intros pa Hin.
  - inversion Hin.
  - destruct (decide (j = 3%nat)) as [->|Hne].
    + exists UndefinedShift. reflexivity.
    + apply elem_of_cons in Hin as [Heq|Hin]; [congruence|].
      change (copyPpns Pte48_PTE pte pa (j :: js))
        with (p ← @ppnAt Pte48_PTE pte (Z.of_nat j);
              sh ← @paPpnShift Pte48_PTE (Z.of_nat j);
              x ← shl32 p sh;
              copyPpns Pte48_PTE pte (Z.lor pa x) js).
      destruct (@ppnAt Pte48_PTE pte (Z.of_nat j)) as [p|e]; [|eexists; reflexivity].
      unfold mbind at 1. unfold Outcome_bind at 1.
      destruct (@paPpnShift Pte48_PTE (Z.of_nat j)) as [sh|e]; [|eexists; reflexivity].
      unfold mbind at 1. unfold Outcome_bind at 1.
      destruct (shl32 p sh) as [x|e]; [|eexists; reflexivity].
      unfold mbind at 1. unfold Outcome_bind at 1.
      apply IH. exact Hin.
Qed.

Lemma leafSteps48_faults s (address : Z) (priv : PrivilegeMode)
    (read write exec : bool) (pa : Z) e (pte : Z) (ii : nat)
    (c : ExceptionCause) (pa' : Z) (e' : TlbEntry.t) (m' : M) :
  (ii <= 3)%nat ->
  leafSteps Pte48_PTE Va48_VA s address priv read write exec pa e pte ii
    = Ret (c, pa', e', m') ->
  c <> NONE.
Proof.
  intros Hii.
  assert (Hfault : (c0 ← pageFaultType read write exec; Ret (c0, pa, e, memory_ s))
                   = Ret (c, pa', e', m') -> c <> NONE).
  { destruct (pageFaultType read write exec) as [c0|] eqn:Hp; [|discriminate].
    intros Heq. inversion Heq; subst. exact (pageFaultType_fault _ _ _ _ Hp). }
  unfold leafSteps.
  destruct (isUser priv && negb (PteBits.user pte)); [exact Hfault|].
  destruct (isSupervisor priv && PteBits.user pte && negb (supervisorOk_ s));
    [exact Hfault|].
  match goal with |- context [if ?b then _ else _] => destruct b end; [exact Hfault|].
  destruct (lowPpnsZero Pte48_PTE pte (seq 0 ii)) as [al|]; [|discriminate].
  unfold mbind at 1. unfold Outcome_bind at 1.
  destruct al; simpl negb; cbv iota; [|exact Hfault].
  destruct (updateAccessedDirty Pte48_PTE s write pte) as [[pte' m]|]; [|exact Hfault].
  destruct (copyVpns Pte48_PTE Va48_VA (va_make address) (offset (va_make address))
              (seq 0 ii)) as [pa0|]; [|discriminate].
  unfold mbind at 1. unfold Outcome_bind at 1.
  destruct (copyPpns48_stops pte' pa0 (seq ii (@levels Pte48_PTE - ii))) as [err Herr].
  { change (@levels Pte48_PTE) with 4%nat. apply elem_of_seq. lia. }
  rewrite Herr. discriminate.
Qed.

(** In Sv48 no walk gets past the composition of the physical
    address: a walk that returns, returns a fault. *)
Lemma walk48_returns_fault s (va : Z) (priv : PrivilegeMode)
    (read write exec : bool) (pa : Z) e
    (c : ExceptionCause) (pa' : Z) (e' : TlbEntry.t) (m' : M) :
  pageTableWalk Pte48_PTE Va48_VA s va priv read write exec pa e
    = Ret (c, pa', e', m') ->
  c <> NONE.
Proof.
  unfold pageTableWalk.
  destruct (walkLoop Pte48_PTE Va48_VA s (va_make va) read write exec
              (@levels Pte48_PTE - 1) (u64 (pageTableRootPage_ s * pageSize_ s)))
    as [[c0|pte ii]|] eqn:Hloop; unfold mbind, Outcome_bind; [| |discriminate].
  - intros Heq. inversion Heq; subst. clear Heq.
    revert Hloop. change (@levels Pte48_PTE - 1)%nat with 3%nat.
    intros Hloop ->.
    revert Hloop. generalize (u64 (pageTableRootPage_ s * pageSize_ s)).
    generalize 3%nat. intros n. induction n as [|n IH]; intros root; cbn [walkLoop];
      (destruct (vpn (va_make va) _) as [v|]; [|discriminate]);
      unfold mbind, Outcome_bind, returnFault;
      (destruct (pageFaultType read write exec) as [c1|] eqn:Hp;
       destruct (mem_read _ _ _) as [data|];
       repeat match goal with
         | |- context [if ?b then _ else _] => destruct b
         end;
       try discriminate).
    all: try (intros Heq; inversion Heq; subst;
              exact (pageFaultType_fault _ _ _ _ Hp eq_refl)).
    all: apply IH.
  - pose proof (walkLoop_leaf_le _ _ _ _ _ _ _ _ _ _ _ Hloop) as Hii.
    change (@levels Pte48_PTE - 1)%nat with 3%nat in Hii.
    apply leafSteps48_faults. exact Hii.
Qed.

(** X26: in mode Sv48 a translation that misses the TLB either
    returns the page fault of the access kind, with [pa] and the
    translator as they were, or runs into [pte.ppn(3) << 39]: every
    walk that passes the checks goes on to compose the physical address
    and there shifts a 32-bit value by 39, which C++ leaves undefined.
    [UndefinedShift] records that the run has reached that shift; what
    a compiled program does from there on is not described. *)
Theorem sv48_walk_reaches_undefined_shift s (va : Z) (priv : PrivilegeMode) a (pa : Z) :
  mode_ s = Sv48 ->
  fst (Tlb.findEntry (tlb_ s) (Z.shiftr va (pageBits_ s)) (asid_ s)) = None ->
  translate s va priv (reads a) (writes a) (execs a) pa = Ret (faultOf a, pa, s)
  \/ translate s va priv (reads a) (writes a) (execs a) pa = Stop UndefinedShift.
Proof.
  intros Hmode Hmiss.
  pose proof (findEntry_miss _ _ _ Hmiss) as Hmiss'.
  unfold translate. rewrite Hmode, Hmiss', set_tlb_same, pageFaultType_access.
  destruct (negb (Z.shiftr va 48 =? _)); [left; reflexivity|].
  pose proof (cacheWalk_outcome true s a _
                (walk48_outcome s va priv a pa TlbEntry.default)) as Hout.
  destruct (cacheWalk s (pageTableWalk Pte48_PTE Va48_VA s va priv (reads a) (writes a)
                           (execs a) pa TlbEntry.default))
    as [[[c pa'] s']|err] eqn:Hw.
  - left.
    assert (Hc : c <> NONE).
    { revert Hw. unfold cacheWalk.
      destruct (pageTableWalk Pte48_PTE Va48_VA s va priv (reads a) (writes a)
                  (execs a) pa TlbEntry.default)
        as [[[[c0 pa0] e0] m0]|] eqn:Hwalk; [|discriminate].
      unfold mbind, Outcome_bind.
      pose proof (walk48_returns_fault _ _ _ _ _ _ _ _ _ _ _ _ Hwalk) as Hc0.
      destruct c0; intros Heq; inversion Heq; subst; congruence. }
    destruct (cacheWalk_fault _ _ _ _ _ _ _ _ _ _ _ _ _ Hw Hc) as [-> ->].
    destruct Hout as [Hnone|Hf]; [contradiction|]. rewrite Hf. reflexivity.
  - right. destruct Hout as [-> _]. reflexivity.
Qed.

(** X27: for a read or a write, the call that follows a successful
    walk with the same arguments translates to the same physical
    address, from the entry the walk cached: it returns [NONE] and the
    same [pa], and leaves the memory as it is. *)
Theorem second_call_agrees s (va : Z) (priv : PrivilegeMode) a (pa pa1 : Z)
    (s1 : VirtMem.t M) :
  a <> AccExec -> pageBits_ s = 12 -> pageMask_ s = 4095 ->
  0 <= asid_ s < 2 ^ 32 ->
  Tlb.entries_ (tlb_ s) <> [] ->
  fst (Tlb.findEntry (tlb_ s) (Z.shiftr va 12) (asid_ s)) = None ->
  mode_ s <> Bare ->
  translate s va priv (reads a) (writes a) (execs a) pa = Ret (NONE, pa1, s1) ->
  exists s2 : VirtMem.t M,
    translate s1 va priv (reads a) (writes a) (execs a) pa = Ret (NONE, pa1, s2) /\
    memory_ s2 = memory_ s1.
Proof.
  intros Ha Hbits Hmask Hasid Hne Hmiss Hmode Htr.
  destruct (hit_reproduces_walk s va priv a pa pa1 s1 Ha Hbits Hmask Hasid Hne Hmiss
              Hmode Htr) as (i & entry & tlb & _ & Hsecond).
  eexists. split; [exact Hsecond | reflexivity].
Qed.

End Generic.

End WalkMore.

(** ** The further properties on concrete inputs *)

Module RunsMore.

Import Machine VirtMem VecRegs Vocabulary MoreVocabulary Inputs MoreInputs.

Lemma setPageSize_keeps_geometry_witness :
  0 <= 12 < 32 /\ pageSize_ (sv32 leafRW) = 2 ^ 12 /\ pageBits_ (sv32 leafRW) = 12 /\
  fst (setPageSize (sv32 leafRW) 8192) = sv32 leafRW /\
  (snd (setPageSize (sv32 leafRW) 8192) = Ret true -> 8192 = pageSize_ (sv32 leafRW)).
Proof.
  split; [lia|]. split; [reflexivity|]. split; [reflexivity|].
  apply (TranslateMore.setPageSize_keeps_geometry (sv32 leafRW) 8192 12);
    [lia | reflexivity | reflexivity].
Defined.

Lemma translate_fault_changes_nothing_witness :
  exists s' : VirtMem.t FlatMemory.t,
    translate (sv32 leafRWX) 0x00800123 User false false true 7
      = Ret (INST_PAGE_FAULT, 7, s') /\
    INST_PAGE_FAULT <> NONE /\
    7 = 7 /\ memory_ s' = memory_ (sv32 leafRWX) /\
    (fst (Tlb.findEntry (tlb_ (sv32 leafRWX))
            (Z.shiftr 0x00800123 (pageBits_ (sv32 leafRWX))) (asid_ (sv32 leafRWX)))
     = None -> s' = sv32 leafRWX).
Proof.
  eexists. split; [vm_compute; reflexivity|]. split; [discriminate|].
  eapply (TranslateMore.translate_fault_changes_nothing (sv32 leafRWX) 0x00800123 User
            false false true 7 INST_PAGE_FAULT 7);
    [vm_compute; reflexivity | discriminate].
Defined.

Lemma translate_writes_at_most_once_witness :
  exists s' : VirtMem.t FlatMemory.t,
    translate (sv32 leafFresh) 0x00800123 User false true false 0
      = Ret (NONE, 0x3123, s') /\
    (memory_ s' = memory_ (sv32 leafFresh)
     \/ (NONE = NONE /\ faultOnFirstAccess_ (sv32 leafFresh) = false /\
         fst (Tlb.findEntry (tlb_ (sv32 leafFresh))
                (Z.shiftr 0x00800123 (pageBits_ (sv32 leafFresh)))
                (asid_ (sv32 leafFresh))) = None /\
         exists bytes addr value : Z,
           mem_write (memory_ (sv32 leafFresh)) (hartIx_ (sv32 leafFresh))
                     bytes addr value = Some (memory_ s'))).
Proof.
  eexists. split; [vm_compute; reflexivity|].
  eapply (TranslateMore.translate_writes_at_most_once (sv32 leafFresh) 0x00800123 User
            false true false 0 NONE 0x3123).
  vm_compute; reflexivity.
Defined.

Lemma translate_keeps_page_offset_witness :
  exists s1 : VirtMem.t FlatMemory.t,
    pageBits_ (sv32 leafRW) = 12 /\ pageMask_ (sv32 leafRW) = 4095 /\
    translate (sv32 leafRW) 0x00800123 User true false false 0 = Ret (NONE, 0x3123, s1) /\
    Z.land 0x3123 4095 = Z.land 0x00800123 4095.
Proof.
  eexists. split; [reflexivity|]. split; [reflexivity|].
  split; [vm_compute; reflexivity|].
  eapply (TranslateMore.translate_keeps_page_offset (sv32 leafRW) 0x00800123 User
            AccRead 0 0x3123);
    [reflexivity | reflexivity | vm_compute; reflexivity].
Defined.

Lemma walk_address_below_4G_witness :
  exists s1 : VirtMem.t FlatMemory.t,
    fst (Tlb.findEntry (tlb_ (sv32 leafRW)) (Z.shiftr 0x00800123 (pageBits_ (sv32 leafRW)))
           (asid_ (sv32 leafRW))) = None /\
    mode_ (sv32 leafRW) <> Bare /\
    translate (sv32 leafRW) 0x00800123 User false true false 0 = Ret (NONE, 0x3123, s1) /\
    0 <= 0x3123 < 2 ^ 32.
Proof.
  eexists. split; [vm_compute; reflexivity|]. split; [discriminate|].
  split; [vm_compute; reflexivity|].
  eapply (TranslateMore.walk_address_below_4G (sv32 leafRW) 0x00800123 User
            AccWrite 0 0x3123);
    [vm_compute; reflexivity | discriminate | vm_compute; reflexivity].
Defined.

Lemma misaligned_superpage_faults_witness :
  (0 < 1)%nat /\ 1 <> 0 /\
  walkLoop Pte32_PTE Va32_VA superpage (u32 0x00800123) true false false 1
           (u64 (pageTableRootPage_ superpage * pageSize_ superpage))
    = Ret (Leaf 0x4DF 1) /\
  Pte32.ppnAt 0x4DF (Z.of_nat 0) = Ret 1 /\
  pageTableWalk Pte32_PTE Va32_VA superpage 0x00800123 User true false false 0
                TlbEntry.default
    = Ret (LOAD_PAGE_FAULT, 0, TlbEntry.default, memory_ superpage).
Proof.
  split; [lia|]. split; [lia|].
  split; [vm_compute; reflexivity|]. split; [reflexivity|].
  apply (proj1 (TranslateMore.misaligned_superpage_faults superpage 0x00800123 User
                  AccRead 0 TlbEntry.default 0x4DF 1%nat 0%nat 1 ltac:(lia) ltac:(lia)));
    [vm_compute; reflexivity | reflexivity].
Defined.

Lemma tlb_hit_grants_witness :
  exists s' : VirtMem.t FlatMemory.t,
    mode_ cached <> Bare /\
    Tlb.findEntry (tlb_ cached) (Z.shiftr 0x00800123 (pageBits_ cached)) (asid_ cached)
      = (Some (0%nat, TlbEntry.set_time 1 cleanEntry),
         Tlb.mk [TlbEntry.set_time 1 cleanEntry] 2) /\
    translate cached 0x00800123 User false true false 0 = Ret (NONE, 0x3123, s') /\
    TlbEntry.user_ (TlbEntry.set_time 1 cleanEntry) = true /\
    TlbEntry.write_ (TlbEntry.set_time 1 cleanEntry) = true.
Proof.
  eexists. split; [discriminate|]. split; [reflexivity|].
  split; [vm_compute; reflexivity|].
  destruct (TranslateMore.tlb_hit_grants cached 0x00800123 User false true false
              0 0x3123 _ 0%nat (TlbEntry.set_time 1 cleanEntry)
              (Tlb.mk [TlbEntry.set_time 1 cleanEntry] 2)
              ltac:(discriminate) eq_refl ltac:(vm_compute; reflexivity))
    as (Hu & _ & _ & Hw & _).
  split; [apply Hu | apply Hw]; reflexivity.
Defined.

Lemma walk_entry_grants_witness :
  exists (e1 : TlbEntry.t) (m1 : FlatMemory.t),
    pageTableWalk Pte32_PTE Va32_VA (sv32 leafRW) 0x00800123 User false true false 0
                  TlbEntry.default
      = Ret (NONE, 0x3123, e1, m1) /\
    TlbEntry.valid_ e1 = true /\ TlbEntry.physPageNum_ e1 = 3 /\
    TlbEntry.write_ e1 = true /\ TlbEntry.dirty_ e1 = true.
Proof.
  eexists _, _.
  match goal with
  | |- ?A /\ _ => assert (Hwalk : A) by (vm_compute; reflexivity)
  end.
  split; [exact Hwalk|].
  destruct (TranslateMore.walk_entry_grants Pte32_PTE Va32_VA (sv32 leafRW) 0x00800123
              User AccWrite 0 TlbEntry.default 0x3123 _ _ Hwalk)
    as (Hv & _ & _ & Hp & _ & _ & _ & _ & Hw).
  destruct (Hw eq_refl) as [Hw1 Hw2].
  split; [exact Hv|]. split; [rewrite Hp; reflexivity|]. split; assumption.
Defined.

Lemma sv48_walk_reaches_undefined_shift_witness :
  mode_ sv48 = Sv48 /\
  fst (Tlb.findEntry (tlb_ sv48) (Z.shiftr 0x00800123 (pageBits_ sv48)) (asid_ sv48))
    = None /\
  translate sv48 0x00800123 User true false false 0 = Stop UndefinedShift /\
  (translate sv48 0x00800123 User true false false 0 = Ret (LOAD_PAGE_FAULT, 0, sv48)
   \/ translate sv48 0x00800123 User true false false 0 = Stop UndefinedShift).
Proof.
  split; [reflexivity|]. split; [vm_compute; reflexivity|].
  split; [vm_compute; reflexivity|].
  apply (WalkMore.sv48_walk_reaches_undefined_shift sv48 0x00800123 User AccRead 0);
    [reflexivity | vm_compute; reflexivity].
Defined.

Lemma second_call_agrees_witness :
  exists s1 s2 : VirtMem.t FlatMemory.t,
    translate (sv32 leafRW) 0x00800123 User true false false 0 = Ret (NONE, 0x3123, s1) /\
    translate s1 0x00800123 User true false false 0 = Ret (NONE, 0x3123, s2) /\
    memory_ s2 = memory_ s1.
Proof.
  eexists.
  destruct (WalkMore.second_call_agrees (sv32 leafRW) 0x00800123 User AccRead 0 0x3123 _
              ltac:(discriminate) eq_refl eq_refl ltac:(simpl; lia)
              ltac:(discriminate) ltac:(vm_compute; reflexivity) ltac:(discriminate)
              ltac:(vm_compute; reflexivity))
    as (s2 & Hsecond & Hmem).
  exists s2. split; [vm_compute; reflexivity|]. split; assumption.
Defined.

Lemma write_then_read_witness :
  exists s' : VecRegs.t,
    write regs 4 1 0 8 0x11223344 = Some (true, s') /\
    0 <= 0x11223344 < 256 ^ 4 /\
    read s' 4 1 0 8 0 = Some (true, 0x11223344) /\
    length (data_ s') = length (data_ regs) /\
    lastWrittenReg_ s' = 1 /\ lastElemWidth_ s' = 32 /\ lastElemIx_ s' = 0.
Proof.
  eexists. split; [vm_compute; reflexivity|]. split; [lia|].
  destruct (VecMore.write_then_read regs _ 4 1 0 8 0x11223344 0
              ltac:(vm_compute; reflexivity) ltac:(lia))
    as (Hr & Hl & _ & Hreg & Hwidth & Hix).
  repeat split; assumption.
Defined.

Lemma regs_wellFormed : wellFormed regs.
Proof. unfold wellFormed. simpl. repeat split; try lia. Qed.

Lemma accepted_element_in_array_witness :
  wellFormed regs /\ 0 < 4 < 2 ^ 16 /\ 0 <= 1 /\ 0 <= 1 < 2 ^ 32 - 1 /\
  refused regs 4 1 1 8 = false /\
  (exists x : Z, read regs 4 1 1 8 0 = Some (true, x)) /\
  (exists s' : VecRegs.t, write regs 4 1 1 8 7 = Some (true, s')).
Proof.
  split; [exact regs_wellFormed|]. split; [lia|]. split; [lia|]. split; [lia|].
  split; [reflexivity|].
  apply (VecMore.accepted_element_in_array regs 4 1 1 8 7 0 regs_wellFormed);
    [lia | lia | lia | reflexivity].
Defined.

Lemma largest_index_leaves_array_witness :
  wellFormed regs /\ 0 < 4 < 2 ^ 16 /\ 0 <= 1 < regCount_ regs /\
  refused regs 4 1 (2 ^ 32 - 1) 8 = false /\
  read regs 4 1 (2 ^ 32 - 1) 8 0 = None /\
  write regs 4 1 (2 ^ 32 - 1) 8 7 = None.
Proof.
  split; [exact regs_wellFormed|]. split; [lia|]. split; [simpl; lia|].
  apply (VecMore.largest_index_leaves_array regs 4 1 8 7 0 regs_wellFormed);
    [lia | simpl; lia].
Defined.

Lemma isActive_reads_mask_bit_witness :
  wellFormed regs /\ 0 <= 1 /\ 0 <= 13 /\
  exists b : Z,
    data_ regs !! Z.to_nat (1 * bytesPerReg_ regs + 13 / 8) = Some b /\
    isActive regs 1 13 = Some (Z.testbit b (13 mod 8)).
Proof.
  split; [exact regs_wellFormed|]. split; [lia|]. split; [lia|].
  exact (VecMore.isActive_reads_mask_bit regs 1 13 regs_wellFormed ltac:(lia) ltac:(lia)).
Defined.

Lemma last_written_bookkeeping_witness :
  0 <= 3 < 2 ^ 32 /\
  getLastWrittenReg (clearLastWrittenReg regs) 5 6 = (-1, 5, 6) /\
  getLastWrittenReg (setLastWrittenReg regs 3 2 64) 5 6 = (3, 2, 64).
Proof.
  split; [lia|].
  exact (VecMore.last_written_bookkeeping regs 3 2 64 5 6 ltac:(lia)).
Defined.

End RunsMore.
